(** * PySyft tutorials: SplitNN and encrypted training on MNIST

    A shallow embedding of the two tutorial notebooks

    - [examples/tutorials/advanced/Split Neural Network/SplitNN Introduction.ipynb]
    - [examples/tutorials/Part 12 bis - Encrypted Training on MNIST.ipynb]

    and of the small part of the tensor and worker API they call. *)

From Stdlib Require Import ZArith QArith List String DecimalNat DecimalString Lia Bool.
From stdpp Require Import base option list strings gmap.

Open Scope nat_scope.

(** ** Tensors

    A tensor is its shape and its elements in row-major order.  Float
    tensors carry rationals, index (long) tensors carry integers. *)

Module Torch.

Record tensor (A : Type) := Tensor { shape : list nat; data : list A }.
Arguments Tensor {A} shape data.
Arguments shape {A} t.
Arguments data {A} t.

Definition numel (sh : list nat) : nat := fold_right Nat.mul 1 sh.

(** A tensor has as many elements as its shape says. *)
Definition wf {A} (t : tensor A) : Prop := length (data t) = numel (shape t).

(** [torch.zeros( *sizes )] *)
Definition zeros (sh : list nat) : tensor Q := Tensor sh (repeat 0%Q (numel sh)).

(** [t.view(-1, 1)]: one column, as many rows as there are elements. *)
Definition view_col {A} (t : tensor A) : tensor A :=
  Tensor [numel (shape t); 1] (data t).

(** [t.float()] on an index tensor. *)
Definition float (t : tensor Z) : tensor Q := Tensor (shape t) (map inject_Z (data t)).

(** One row of [scatter]: [row[k] = v] for each index [k] of the row. *)
Fixpoint scatter_row (row : list Q) (idxs : list Z) (v : Q) : list Q :=
  match idxs with
  | [] => row
  | k :: ks => scatter_row (<[Z.to_nat k := v]> row) ks v
  end.

Fixpoint scatter_rows (r c ci : nat) (d : list Q) (idx : list Z) (v : Q) : list Q :=
  match r with
  | O => []
  | S r' =>
      scatter_row (take c d) (take ci idx) v
        ++ scatter_rows r' c ci (drop c d) (drop ci idx) v
  end.

Definition index_ok (c : nat) (k : Z) : bool := (0 <=? k)%Z && (k <? Z.of_nat c)%Z.

(** [self.scatter(1, index, v)] for a two-dimensional [index], the only
    way the notebook calls it: [self[i][index[i][j]] = v].  torch raises
    when [self] and [index] differ in rank, when [index] is larger than
    [self] along a dimension, and when an index is out of range. *)
Definition scatter1 (self : tensor Q) (index : tensor Z) (v : Q) : option (tensor Q) :=
  match shape self, shape index with
  | [r; c], [ri; ci] =>
      if (ri <=? r) && (ci <=? c) && forallb (index_ok c) (data index)
      then Some (Tensor [r; c] (scatter_rows r c ci (data self) (data index) v))
      else None
  | _, _ => None
  end.

(** Row [i] of a tensor with [c] columns. *)
Definition row {A} (c : nat) (t : tensor A) (i : nat) : list A :=
  take c (drop (i * c) (data t)).

Definition qsum (l : list Q) : Q := fold_right Qplus 0%Q l.

End Torch.

(** ** Python control flow: state and exceptions

    A computation reads and updates a state and either returns a value or
    raises; the state reached when it raises is kept, as the mutations a
    Python function made before an exception are. *)

Module Py.

Definition M (S A : Type) : Type := S -> option A * S.

Definition ret {S A} (a : A) : M S A := fun s => (Some a, s).

Definition raise {S A} : M S A := fun s => (None, s).

Definition bind {S A B} (m : M S A) (k : A -> M S B) : M S B :=
  fun s => match m s with
           | (Some a, s') => k a s'
           | (None, s') => (None, s')
           end.

#[global] Instance M_ret {S} : MRet (M S) := fun A a => ret a.
#[global] Instance M_bind {S} : MBind (M S) := fun A B k m => bind m k.

Definition gets {S A} (f : S -> A) : M S A := fun s => (Some (f s), s).

Definition modify {S} (f : S -> S) : M S unit := fun s => (Some tt, f s).

(** A value that may be missing: [None] raises. *)
Definition lift {S A} (o : option A) : M S A := fun s => (o, s).

Definition guard {S} (b : bool) : M S unit := if b then ret tt else raise.

(** [for x in l: body(x)] *)
Fixpoint for_each {S A} (l : list A) (body : A -> M S unit) : M S unit :=
  match l with
  | [] => ret tt
  | x :: xs => bind (body x) (fun _ => for_each xs body)
  end.

(** [[f(x) for x in l]] *)
Fixpoint for_list {S A B} (l : list A) (f : A -> M S B) : M S (list B) :=
  match l with
  | [] => ret []
  | x :: xs => bind (f x) (fun y => bind (for_list xs f) (fun ys => ret (y :: ys)))
  end.

(** The integer nearest to [a / b], the even one of two equally near;
    [b] is positive. *)
Definition round_half_even (a b : Z) : Z :=
  let q := (a / b)%Z in
  let r := (a mod b)%Z in
  if (2 * r <? b)%Z then q
  else if (b <? 2 * r)%Z then (q + 1)%Z
  else if Z.even q then q else (q + 1)%Z.

(** [n / b] on ints, true division: ZeroDivisionError when [b] is zero;
    otherwise the double nearest to the quotient, ties to even, here as
    the rational it is, and OverflowError when that is beyond the
    doubles.  A double is [m * 2^t / 2^1074] with [m] at most 2^53 and
    [t] at least 0; [t] is such that the quotient, counted in units of
    2^-1074, keeps 53 bits before the point. *)
Definition true_div (n b : Z) : option Q :=
  if (b =? 0)%Z then None
  else
    let A := (Z.abs n * 2 ^ 1074)%Z in
    let B := Z.abs b in
    let t := Z.max 0 (Z.log2 (A / B) - 52) in
    let m := round_half_even A (B * 2 ^ t) in
    if (2 ^ 2098 <=? m * 2 ^ t)%Z then None
    else Some (Qmake (Z.sgn n * Z.sgn b * (m * 2 ^ t)) (2 ^ 1074)).

Definition result {S A} (r : option A * S) : option A := fst r.
Definition final {S A} (r : option A * S) : S := snd r.

(** [m] started in [s] returns, and its value and final state satisfy [Q]. *)
Definition runs {S A} (m : M S A) (s : S) (Q : A -> S -> Prop) : Prop :=
  exists a s', m s = (Some a, s') /\ Q a s'.

(** [m] started in [s] raises, and the state it leaves satisfies [Q]. *)
Definition raises {S A} (m : M S A) (s : S) (Q : S -> Prop) : Prop :=
  exists s', m s = (None, s') /\ Q s'.

End Py.

(** ** The framework: workers, fixed precision, additive sharing

    The notebooks call into the framework ([syft]), whose code is not
    among them.  What they use of it is modelled here and with the
    notebooks below. *)

Module Syft.
Import Torch.

(** Modelled from the spec: the worker class [syft.VirtualWorker], not
    among the notebooks; a worker is known by its id. *)
Record worker := VirtualWorker { id : string }.

(** Modelled from the spec: the local worker of [syft.TorchHook] (the
    process that runs the notebook), whose id is ["me"]. *)
Definition me : string := "me".

(** Modelled from the spec: the default of [precision_fractional] in the
    framework's [fix_precision]. *)
Definition default_precision : nat := 3.

(** Modelled from the spec: the framework's fixed precision tensor, the
    integers that stand for the reals of a float tensor. *)
Record fixed := Fixed { fixed_precision : nat; child : tensor Z }.

(** Modelled from the spec: the framework's additively shared tensor, one
    share per owner, with the crypto provider it names. *)
Record shared := Shared {
  sh_precision : nat;
  sh_shape : list nat;
  shares : list (string * list Z);      (* each owner and the share it holds *)
  provider : string;                    (* the crypto provider *)
  requires_grad : bool
}.

Section Field.
Variable field : Z.

(** The integers of the ring the shares live in. *)
Definition in_ring (z : Z) : Prop := (0 <= z < field)%Z.

(** Truncation towards zero. *)
Definition trunc (x : Q) : Z := Z.quot (Qnum x) (Zpos (Qden x)).

(** Modelled from the spec: the encoding of [fix_precision], not among
    the notebooks: the real [x] becomes the integer [x * 10^pf],
    truncated, in the ring of integers modulo [field]. *)
Definition encode (pf : nat) (x : Q) : Z :=
  (trunc (x * inject_Z (10 ^ Z.of_nat pf)) mod field)%Z.

(** Modelled from the spec: what [t.fix_precision(precision_fractional=pf)]
    computes, element by element. *)
Definition fix_precision (pf : nat) (t : tensor Q) : fixed :=
  Fixed pf (Tensor (shape t) (map (encode pf) (data t))).

(** Addition and subtraction of tensors in the ring. *)
Definition add_mod (a b : list Z) : list Z := zip_with (fun x y => ((x + y) mod field)%Z) a b.
Definition sub_mod (a b : list Z) : list Z := zip_with (fun x y => ((x - y) mod field)%Z) a b.

(** Modelled from the spec: the plaintext the shares reconstruct, their
    sum in the ring. *)
Fixpoint sum_shares (l : list (list Z)) : list Z :=
  match l with
  | [] => []
  | [s] => map (fun x => (x mod field)%Z) s
  | s :: rest => add_mod s (sum_shares rest)
  end.

Definition reconstruct (h : shared) : tensor Z :=
  Tensor (sh_shape h) (sum_shares (map snd (shares h))).

(** The random source: [tape k] is the [k]-th number drawn. *)
Variable tape : nat -> Z.

Definition random_tensor (pos len : nat) : list Z :=
  map (fun j => (tape (pos + j) mod field)%Z) (seq 0 len).

(** Modelled from the spec: the splitting of [share], not among the
    notebooks: [n] shares of [secret], [n - 1] random ones and what is
    left of the secret once they are taken away. *)
Fixpoint generate_shares (n pos : nat) (secret : list Z) : list (list Z) :=
  match n with
  | O => []
  | S n' =>
      match n' with
      | O => [map (fun x => (x mod field)%Z) secret]
      | S _ =>
          let r := random_tensor pos (length secret) in
          r :: generate_shares n' (pos + length secret) (sub_mod secret r)
      end
  end.

End Field.

End Syft.

(** ** SplitNN Introduction *)

Module SplitNN.
Import Py Syft.

(** What a tensor holds, as the expression that computed it: the numbers
    are torch's floating point and play no part below. *)
Inductive tval : Type :=
| Images (k : nat)                 (* the images of batch [k] of the train loader *)
| Labels (k : nat)                 (* the labels of batch [k] *)
| Params (m ver : nat)             (* the parameters of segment [m] after [ver] updates *)
| View (t : tval)                  (* [t.view(t.shape[0], -1)] *)
| Apply (m ver : nat) (x : tval)   (* segment [m], after [ver] updates, applied to [x] *)
| Detach (t : tval)
| Leaf (t : tval)                  (* [t.requires_grad_()] *)
| NLL (pred target : tval)
| Grad (out wrt : tval)            (* the gradient of [out] with respect to [wrt] *)
| Copy (t : tval).

#[global] Instance tval_eq_dec : EqDecision tval.
Proof. solve_decision. Defined.

(** A tensor lives on one worker: a torch tensor of the notebook's process
    is at [me], a pointer tensor at the worker it points to. *)
Record tensor := At { location : string; value : tval }.

#[global] Instance tensor_eq_dec : EqDecision tensor.
Proof. solve_decision. Defined.

(** [optim.SGD(model.parameters(), lr=0.03)] *)
Record optimizer := SGD { opt_model : nat; lr : Q }.

(** The calls the notebook makes into torch and syft. *)
Inductive call : Type :=
| CModelSend (m : nat) (dst : string)
| CSend (t : tensor) (dst : string)
| CView (t : tensor)
| CZeroGrad (o : optimizer)
| CForward (m : nat) (x : tensor)
| CDetach (t : tensor)
| CMove (t : tensor) (dst : string)
| CRequiresGrad (t : tensor)
| CNLLLoss (pred target : tensor)
| CBackward (t : tensor) (g : option tensor)
| CGrad (t : tensor)
| CCopy (t : tensor)
| CStep (o : optimizer)
| CGet (t : tensor).

(** A value that travelled from one worker to another. *)
Record xfer := Xfer { src : string; dst : string; payload : tval }.

Record world := World {
  model_loc : gmap nat string;                       (* where each segment was sent *)
  model_ver : gmap nat nat;                          (* updates applied to each segment *)
  param_grad : gmap nat (list (tval * option tval)); (* gradients its parameters hold *)
  act_grad : list (tensor * tval);                   (* [.grad] of the leaf tensors *)
  calls : list call;
  wire : list xfer
}.

Definition set_model_loc f w :=
  World (f (model_loc w)) (model_ver w) (param_grad w) (act_grad w) (calls w) (wire w).
Definition set_model_ver f w :=
  World (model_loc w) (f (model_ver w)) (param_grad w) (act_grad w) (calls w) (wire w).
Definition set_param_grad f w :=
  World (model_loc w) (model_ver w) (f (param_grad w)) (act_grad w) (calls w) (wire w).
Definition set_act_grad f w :=
  World (model_loc w) (model_ver w) (param_grad w) (f (act_grad w)) (calls w) (wire w).
Definition set_calls f w :=
  World (model_loc w) (model_ver w) (param_grad w) (act_grad w) (f (calls w)) (wire w).
Definition set_wire f w :=
  World (model_loc w) (model_ver w) (param_grad w) (act_grad w) (calls w) (f (wire w)).

Definition empty_world : world := World ∅ ∅ ∅ [] [] [].

Definition called (c : call) : M world unit := modify (set_calls (fun l => l ++ [c])).
Definition sent (s d : string) (v : tval) : M world unit :=
  modify (set_wire (fun l => l ++ [Xfer s d v])).

Definition version (m : nat) : M world nat :=
  gets (fun w => default 0 (model_ver w !! m)).

(** *** The framework's operations

    [send], [move], [get] and the remote execution of torch operations on
    pointer tensors belong to the framework.  A tensor passes from worker
    to worker only in [send], [move] and [get]; an operation on pointer
    tensors runs on the worker that holds its operands, which must be the
    same for all of them, and leaves its result there. *)

(** Modelled from the spec: [model.send(location)] of the framework, not
    among the notebooks: the parameters of a local segment travel to the
    worker, where the segment then is. *)
Definition model_send (m : nat) (d : string) : M world unit :=
  called (CModelSend m d) ;;
  l ← gets (fun w => model_loc w !! m);
  guard (bool_decide (l = None)) ;;
  ver ← version m;
  sent me d (Params m ver) ;;
  modify (set_model_loc <[m := d]>).

(** Modelled from the spec: [model.location] of the framework: the worker
    a segment was sent to; a segment never sent has none. *)
Definition model_location (m : nat) : M world string :=
  l ← gets (fun w => model_loc w !! m); lift l.

(** Modelled from the spec: [t.send(worker)] of the framework, of a
    tensor of the notebook's process: the tensor travels to the worker
    and a pointer to it is returned. *)
Definition send (t : tensor) (d : worker) : M world tensor :=
  called (CSend t (id d)) ;;
  guard (bool_decide (location t = me)) ;;
  sent me (id d) (value t) ;;
  ret (At (id d) (value t)).

(** Modelled from the spec: [t.view(t.shape[0], -1)], run where [t] is. *)
Definition view (t : tensor) : M world tensor :=
  called (CView t) ;; ret (At (location t) (View (value t))).

(** Modelled from the spec: [opt.zero_grad()] on the parameters of a
    segment, run where they are. *)
Definition zero_grad (o : optimizer) : M world unit :=
  called (CZeroGrad o) ;; modify (set_param_grad (delete (opt_model o))).

(** Modelled from the spec: [model(x)] for a segment that was sent: the
    forward pass runs on the segment's worker, where [x] must be. *)
Definition forward (m : nat) (x : tensor) : M world tensor :=
  called (CForward m x) ;;
  l ← model_location m;
  guard (bool_decide (location x = l)) ;;
  ver ← version m;
  ret (At l (Apply m ver (value x))).

(** Modelled from the spec: [t.detach()], run where [t] is. *)
Definition detach (t : tensor) : M world tensor :=
  called (CDetach t) ;; ret (At (location t) (Detach (value t))).

(** Modelled from the spec: [t.move(location)] of the framework, of a
    pointer tensor: the tensor travels from its worker to [location],
    unless it is there already. *)
Definition move (t : tensor) (d : string) : M world tensor :=
  called (CMove t d) ;;
  guard (negb (bool_decide (location t = me))) ;;
  (if bool_decide (location t = d) then ret tt else sent (location t) d (value t)) ;;
  ret (At d (value t)).

(** Modelled from the spec: [t.requires_grad_()], run where [t] is. *)
Definition requires_grad_ (t : tensor) : M world tensor :=
  called (CRequiresGrad t) ;; ret (At (location t) (Leaf (value t))).

(** Modelled from the spec: [nn.NLLLoss()(pred, target)] on pointer
    tensors, which must be on one worker. *)
Definition NLLLoss (pred target : tensor) : M world tensor :=
  called (CNLLLoss pred target) ;;
  guard (bool_decide (location pred = location target)) ;;
  ret (At (location pred) (NLL (value pred) (value target))).

(** The segments and the leaves a value's graph reaches; [detach] cuts the
    graph, and gradients carry none. *)
Fixpoint models_in (t : tval) : list nat :=
  match t with
  | View x => models_in x
  | Apply m _ x => m :: models_in x
  | NLL p y => models_in p ++ models_in y
  | _ => []
  end.

Fixpoint leaves_in (t : tval) : list tval :=
  match t with
  | View x => leaves_in x
  | Apply _ _ x => leaves_in x
  | NLL p y => leaves_in p ++ leaves_in y
  | Leaf x => [Leaf x]
  | _ => []
  end.

Definition add_param_grad (g : tval * option tval) (m : nat)
    (pg : gmap nat (list (tval * option tval))) : gmap nat (list (tval * option tval)) :=
  <[m := default [] (pg !! m) ++ [g]]> pg.

(** Modelled from the spec: [t.backward()] and [t.backward(g)], run where
    [t] is: the parameters of the segments the graph of [t] reaches and
    its leaves receive their gradients; torch raises when the graph
    reaches nothing that requires a gradient. *)
Definition backward (t : tensor) (g : option tensor) : M world unit :=
  called (CBackward t g) ;;
  guard (match g with
         | Some g' => bool_decide (location g' = location t)
         | None => true
         end) ;;
  guard (negb (bool_decide (models_in (value t) = [] /\ leaves_in (value t) = []))) ;;
  modify (set_param_grad (fun pg =>
    foldr (add_param_grad (value t, value <$> g)) pg (models_in (value t)))) ;;
  modify (set_act_grad (fun ag =>
    map (fun l => (At (location t) l, Grad (value t) l)) (leaves_in (value t)) ++ ag)).

(** Modelled from the spec: [t.grad] of a pointer tensor: [None] until a
    backward pass reached the leaf [t]. *)
Definition grad (t : tensor) : M world (option tensor) :=
  called (CGrad t) ;;
  g ← gets (fun w => list_find (fun e => fst e = t) (act_grad w));
  ret ((fun e => At (location t) (snd (snd e))) <$> g).

(** Modelled from the spec: [g.copy()], run where [g] is. *)
Definition copy (t : tensor) : M world tensor :=
  called (CCopy t) ;; ret (At (location t) (Copy (value t))).

(** Modelled from the spec: [opt.step()], run where the parameters are:
    parameters that hold a gradient are updated. *)
Definition step (o : optimizer) : M world unit :=
  called (CStep o) ;;
  g ← gets (fun w => default [] (param_grad w !! opt_model o));
  match g with
  | [] => ret tt
  | _ :: _ => modify (set_model_ver (fun mv =>
                <[opt_model o := S (default 0 (mv !! opt_model o))]> mv))
  end.

(** Modelled from the spec: [t.get()] of the framework, of a pointer
    tensor: the tensor travels from its worker to the notebook's process. *)
Definition get (t : tensor) : M world tensor :=
  called (CGet t) ;;
  guard (negb (bool_decide (location t = me))) ;;
  sent (location t) me (value t) ;;
  ret (At me (value t)).

(** *** The notebook *)

(** The two segments, [models[0]] and [models[1]], and their optimisers. *)
Definition models : list nat := [0; 1].

Definition optimizers : list optimizer :=
  map (fun model => SGD model (3 # 100)) models.

Definition alice : worker := VirtualWorker "alice".
Definition bob : worker := VirtualWorker "bob".

Definition model_locations : list worker := [alice; bob].

(** [for model, location in zip(models, model_locations): model.send(location)] *)
Definition send_models : M world unit :=
  for_each (zip models model_locations)
    (fun '(model, location) => model_send model (id location)).

Definition train (x target : tensor) (models : list nat) (optimizers : list optimizer)
    : M world tensor :=
  (* 1) erase previous gradients (if they exist) *)
  for_each optimizers zero_grad ;;
  (* 2) make a prediction *)
  m0 ← lift (models !! 0);
  a ← forward m0 x;
  (* 3) break the computation graph link, and send the activation signal to the next model *)
  a_detached ← detach a;
  m1 ← lift (models !! 1);
  loc1 ← model_location m1;
  a_moved ← move a_detached loc1;
  remote_a ← requires_grad_ a_moved;
  (* 4) make prediction on next model using recieved signal *)
  m1' ← lift (models !! 1);
  pred ← forward m1' remote_a;
  (* 5) calculate how much we missed *)
  loss ← NLLLoss pred target;
  (* 6) figure out which weights caused us to miss *)
  backward loss None ;;
  (* 7) send gradient of the recieved activation signal to the model behind *)
  g ← grad remote_a;
  g' ← lift g;
  g_copy ← copy g';
  m0' ← lift (models !! 0);
  loc0 ← model_location m0';
  grad_a ← move g_copy loc0;
  (* 8) backpropagate on bottom model given this gradient *)
  backward a (Some grad_a) ;;
  (* 9) change the weights *)
  for_each optimizers step ;;
  (* 10) print our progress *)
  l ← detach loss;
  get l.

(** The body of the loop over [trainloader]: batch [k] gives the local
    tensors [images] and [labels]. *)
Definition train_batch (k : nat) : M world tensor :=
  images ← send (At me (Images k)) alice;
  images ← view images;
  labels ← send (At me (Labels k)) bob;
  train images labels models optimizers.

(** [for images, labels in trainloader: ...; running_loss += loss], then
    the [else] of the loop, which prints [running_loss / len(trainloader)]
    and so raises for an empty loader.  The loader shuffles: an epoch
    sees the batches in some order [batches]. *)
Definition epoch (batches : list nat) : M world (list tensor) :=
  losses ← for_list batches train_batch;
  guard (negb (length batches =? 0)) ;;
  mret losses.

Definition epochs : nat := 15.

(** [for i in range(epochs): ...], [order i] being the order of the
    batches in epoch [i]. *)
Definition training (order : nat -> list nat) : M world (list (list tensor)) :=
  for_list (seq 0 epochs) (fun i => epoch (order i)).

(** The cell that sends the segments, then the training loop. *)
Definition notebook (order : nat -> list nat) : M world (list (list tensor)) :=
  send_models ;; training order.

(** *** What one call of [train] computes, calls and transfers

    [x] and [target] are the values of the two arguments, [m0] and [m1]
    the segments, at versions [v0] and [v1] and on the workers [la] and
    [lb]. *)

Definition activation (m0 v0 : nat) (x : tval) : tval := Apply m0 v0 x.

Definition loss_value (m0 v0 m1 v1 : nat) (x target : tval) : tval :=
  NLL (Apply m1 v1 (Leaf (Detach (activation m0 v0 x)))) target.

Definition activation_grad (m0 v0 m1 v1 : nat) (x target : tval) : tval :=
  Grad (loss_value m0 v0 m1 v1 x target) (Leaf (Detach (activation m0 v0 x))).

Definition train_calls (m0 v0 m1 v1 : nat) (o0 o1 : optimizer) (la lb : string)
    (x target : tval) : list call :=
  let a := activation m0 v0 x in
  let l := loss_value m0 v0 m1 v1 x target in
  let g := activation_grad m0 v0 m1 v1 x target in
  [ CZeroGrad o0; CZeroGrad o1;
    CForward m0 (At la x);
    CDetach (At la a);
    CMove (At la (Detach a)) lb;
    CRequiresGrad (At lb (Detach a));
    CForward m1 (At lb (Leaf (Detach a)));
    CNLLLoss (At lb (Apply m1 v1 (Leaf (Detach a)))) (At lb target);
    CBackward (At lb l) None;
    CGrad (At lb (Leaf (Detach a)));
    CCopy (At lb g);
    CMove (At lb (Copy g)) la;
    CBackward (At la a) (Some (At la (Copy g)));
    CStep o0; CStep o1;
    CDetach (At lb l);
    CGet (At lb (Detach l)) ].

(** The transfers of [t.move(d)]: none when [t] is already at [d]. *)
Definition moved (s d : string) (v : tval) : list xfer :=
  if bool_decide (s = d) then [] else [Xfer s d v].

Definition train_wire (m0 v0 m1 v1 : nat) (la lb : string) (x target : tval) : list xfer :=
  moved la lb (Detach (activation m0 v0 x))
  ++ moved lb la (Copy (activation_grad m0 v0 m1 v1 x target))
  ++ [Xfer lb me (Detach (loss_value m0 v0 m1 v1 x target))].

(** An optimiser holds the parameters of its segment and updates them
    where the segment is. *)
Definition optimizer_location (o : optimizer) (w : world) : option string :=
  model_loc w !! opt_model o.

(** The transfers of the whole notebook: the segments and the batches
    leave the local worker for the worker that is to hold them, the
    activation goes from alice to bob, its gradient from bob to alice, and
    the loss from bob to the local worker. *)
Inductive allowed : xfer -> Prop :=
| allowed_segment m v d : allowed (Xfer me d (Params m v))
| allowed_images k : allowed (Xfer me "alice" (Images k))
| allowed_labels k : allowed (Xfer me "bob" (Labels k))
| allowed_activation v k :
    allowed (Xfer "alice" "bob" (Detach (activation 0 v (View (Images k)))))
| allowed_gradient v0 v1 k :
    allowed (Xfer "bob" "alice"
               (Copy (activation_grad 0 v0 1 v1 (View (Images k)) (Labels k))))
| allowed_loss v0 v1 k :
    allowed (Xfer "bob" me (Detach (loss_value 0 v0 1 v1 (View (Images k)) (Labels k)))).

(** The state in which the notebook trains: the bottom segment on alice,
    the top segment on bob, and no transfer so far but allowed ones. *)
Definition segments_placed (w : world) : Prop :=
  model_loc w !! 0 = Some "alice" /\ model_loc w !! 1 = Some "bob"
  /\ Forall allowed (wire w).

(** A computation that leaves every segment on its worker, whether it
    returns or raises. *)
Definition keeps {A} (m : M world A) : Prop :=
  forall w, model_loc (final (m w)) = model_loc w.

(** The world after the cell that sends the segments to alice and bob. *)
Definition sent_world : world := final (send_models empty_world).

(** The world after the first training step of the notebook, on batch 0. *)
Definition trained_once : world := final (train_batch 0 sent_world).

(** The size of the expression of a value. *)
Fixpoint tsize (t : tval) : nat :=
  match t with
  | Images _ | Labels _ | Params _ _ => 1
  | View x | Detach x | Leaf x | Copy x | Apply _ _ x => S (tsize x)
  | NLL a b | Grad a b => S (tsize a + tsize b)
  end.

(** A transfer crosses the boundary between the parties [p] and [q] when
    it goes from one of them to the other. *)
Definition crosses (p q : string) (e : xfer) : bool :=
  bool_decide (src e = p /\ dst e = q) || bool_decide (src e = q /\ dst e = p).

(** The loss of batch [k] when both segments have been updated [n]
    times, as the local worker receives it, and the losses of an epoch
    that starts after [n] updates. *)
Definition batch_loss (n k : nat) : tensor :=
  At me (Detach (loss_value 0 n 1 n (View (Images k)) (Labels k))).

Definition epoch_losses (n : nat) (batches : list nat) : list tensor :=
  imap (fun j k => batch_loss (n + j) k) batches.

(** The state after [n] training steps: the segments in place, both
    updated [n] times, and five transfers a step after the two that sent
    the segments. *)
Definition trained (n : nat) (w : world) : Prop :=
  segments_placed w
  /\ default 0 (model_ver w !! 0) = n /\ default 0 (model_ver w !! 1) = n
  /\ length (wire w) = 2 + 5 * n.

(** The gradients the parameters hold once each optimiser of [os] has
    erased those of its segment. *)
Definition zeroed (os : list optimizer) (pg : gmap nat (list (tval * option tval)))
    : gmap nat (list (tval * option tval)) :=
  fold_left (fun pg o => delete (opt_model o) pg) os pg.

(** The number of batches the first [n] epochs train on. *)
Definition batches_seen (order : nat -> list nat) (n : nat) : nat :=
  sum_list (map (fun i => length (order i)) (seq 0 n)).

End SplitNN.

(** ** Encrypted training on MNIST *)

Module EncryptedMNIST.
Import Py Torch Syft.

(** [one_hot_of], local to [get_private_data_loaders]. *)
Definition one_hot_of (index_tensor : tensor Z) : option (tensor Q) :=
  let onehot_tensor := zeros (shape index_tensor ++ [10]) in
  scatter1 onehot_tensor (view_col index_tensor) 1%Q.

(** The row the docstring of [one_hot_of] shows for digit [k]. *)
Definition one_hot_row (k : Z) : list Q :=
  map (fun j => if (Z.of_nat j =? k)%Z then 1%Q else 0%Q) (seq 0 10).

(** [class Arguments] and [args = Arguments()]; [epochs = 10] is the
    notebook's first cell. *)
Record Arguments := {
  batch_size : nat;
  test_batch_size : nat;
  epochs : nat;
  lr : Q;
  seed : nat;
  log_interval : nat;
  precision_fractional : nat
}.

Definition args : Arguments := {|
  batch_size := 64;
  test_batch_size := 64;
  epochs := 10;
  lr := 2 # 100;
  seed := 1;
  log_interval := 1;
  precision_fractional := 3
|}.

(** [f"worker{i+1}"] *)
Definition str (n : nat) : string := NilEmpty.string_of_uint (Nat.to_uint n).

Definition connect_to_workers (n_workers : nat) : list worker :=
  map (fun i => VirtualWorker ("worker" +:+ str (i + 1))) (seq 0 n_workers).

Definition connect_to_crypto_provider : worker := VirtualWorker "crypto_provider".

Definition workers : list worker := connect_to_workers 2.
Definition crypto_provider : worker := connect_to_crypto_provider.

Definition n_train_items : nat := 640.
Definition n_test_items : nat := 640.

(** *** The data

    An item of [datasets.MNIST(..., transform=transformation)] is an image
    of 1 x 28 x 28 normalised pixels and its label; the data loader (no
    shuffling, the last batch kept when short) stacks [batch_size] items
    into a batch. *)
Definition sample : Type := list Q * Z.

Definition collate (items : list sample) : tensor Q * tensor Z :=
  (Tensor [length items; 1; 28; 28] (concat (map fst items)),
   Tensor [length items] (map snd items)).

Fixpoint chunks {A} (fuel n : nat) (l : list A) : list (list A) :=
  match fuel, l with
  | S fuel', _ :: _ => take n l :: chunks fuel' n (drop n l)
  | _, _ => []
  end.

(** [torch.utils.data.DataLoader(dataset, batch_size=n)]; torch refuses
    a batch size that is not positive. *)
Definition DataLoader (dataset : list sample) (n : nat) : option (list (tensor Q * tensor Z)) :=
  if n =? 0 then None else Some (map collate (chunks (length dataset) n dataset)).

(** [i < n / b] in Python, [/] being true division: [n / b] is a
    double, or raises, and Python compares an int with a double as the
    numbers they are. *)
Definition lt_div (i n b : nat) : option bool :=
  match true_div (Z.of_nat n) (Z.of_nat b) with
  | None => None
  | Some x => Some (negb (Qle_bool x (inject_Z (Z.of_nat i))))
  end.

(** *** Shared values, and what the notebook does with them *)

(** Modelled from the spec: the operations on shared tensors, which the
    framework's protocols compute on the shares and which are not among
    the notebooks.  A shared value is the expression over shared tensors
    that computed it. *)
#[warnings="-register-all"]
Inductive expr : Type :=
| Val (h : shared)                   (* a tensor the notebook shared *)
| Model (params : list expr) (x : expr)        (* [model(x)] *)
| Sub (a b : expr)
| Pow (a : expr) (n : nat)
| Sum (a : expr)
| Refresh (a : expr)
| DivRows (a out : expr)             (* [a / out.shape[0]] *)
| GradOf (loss p : expr)             (* [p.grad] after [loss.backward()] *)
| SgdStep (p g : expr) (rate : Z)    (* [p - rate * g], on encodings *)
| Argmax (a : expr)                  (* [a.argmax(dim=1)] *)
| ViewAs (a b : expr)
| Eq (a b : expr)
| AddInt (n : Z) (a : expr)          (* [n + a], [n] a Python int *)
| Add (a b : expr).

Inductive event : Type :=
| FixPrecision (t : tensor Q) (pf : nat)   (* [t.fix_precision(...)], [t] a tensor of this process *)
| Share (f : fixed) (owners : list string) (provider : string)
| SendShare (dst : string) (s : tensor Z)  (* a share leaves this process for [dst] *)
| Get (e : expr)                           (* [e.get()]: the shares come back and are summed *)
| FloatPrecision (e : expr)
| PrintLoss (epoch batch_idx : nat) (e : expr)
| PrintAccuracy (e : expr) (total : nat).

Record world := World { drawn : nat; trace : list event }.

Definition emit (e : event) : M world unit :=
  modify (fun w => World (drawn w) (trace w ++ [e])).

Section Field.
Variable field : Z.
Variable tape : nat -> Z.

(** Modelled from the spec: [t.fix_precision(precision_fractional=pf)] of
    the framework, called on a tensor of the notebook's process. *)
Definition fix_precision (pf : nat) (t : tensor Q) : M world fixed :=
  emit (FixPrecision t pf) ;;
  mret (Syft.fix_precision field pf t).

(** Modelled from the spec:
    [f.share( *owners, crypto_provider=provider, requires_grad=rg)] of the
    framework: the notebook's process splits [f] into one share per owner
    and sends each owner its share; the crypto provider is recorded in the
    shared tensor and is sent nothing. *)
Definition share (f : fixed) (owners : list worker) (provider : worker) (rg : bool)
    : M world shared :=
  emit (Share f (map id owners) (id provider)) ;;
  guard (negb (length owners =? 0)) ;;
  pos ← gets drawn;
  let parts := generate_shares field tape (length owners) pos (data (child f)) in
  modify (fun w =>
    World (drawn w + (length owners - 1) * length (data (child f))) (trace w)) ;;
  for_each (zip owners parts)
    (fun '(o, s) => emit (SendShare (id o) (Tensor (shape (child f)) s))) ;;
  mret (Shared (fixed_precision f) (shape (child f))
          (zip (map id owners) parts) (id provider) rg).

Section Loaders.
Variable precision_fractional : nat.
Variable workers : list worker.
Variable crypto_provider : worker.

(** [secret_share], local to [get_private_data_loaders]. *)
Definition secret_share (t : tensor Q) : M world shared :=
  f ← fix_precision precision_fractional t;
  share f workers crypto_provider true.

(** [[(secret_share(data), secret_share(one_hot_of(target)))
      for i, (data, target) in enumerate(train_loader)
      if i < n_train_items / args.batch_size]] from index [i] on. *)
Fixpoint private_train (i : nat) (train_loader : list (tensor Q * tensor Z))
    : M world (list (shared * shared)) :=
  match train_loader with
  | [] => mret []
  | (data, target) :: rest =>
      keep ← lift (lt_div i n_train_items (batch_size args));
      if keep : bool then
        d ← secret_share data;
        onehot ← lift (one_hot_of target);
        t ← secret_share onehot;
        more ← private_train (S i) rest;
        mret ((d, t) :: more)
      else private_train (S i) rest
  end.

(** [[(secret_share(data), secret_share(target.float()))
      for i, (data, target) in enumerate(test_loader)
      if i < n_test_items / args.test_batch_size]] from index [i] on. *)
Fixpoint private_test (i : nat) (test_loader : list (tensor Q * tensor Z))
    : M world (list (shared * shared)) :=
  match test_loader with
  | [] => mret []
  | (data, target) :: rest =>
      keep ← lift (lt_div i n_test_items (test_batch_size args));
      if keep : bool then
        d ← secret_share data;
        t ← secret_share (float target);
        more ← private_test (S i) rest;
        mret ((d, t) :: more)
      else private_test (S i) rest
  end.

(** [get_private_data_loaders], given the two MNIST datasets. *)
Definition get_private_data_loaders (mnist_train mnist_test : list sample)
    : M world (list (shared * shared) * list (shared * shared)) :=
  train_loader ← lift (DataLoader mnist_train (batch_size args));
  private_train_loader ← private_train 0 train_loader;
  test_loader ← lift (DataLoader mnist_test (test_batch_size args));
  private_test_loader ← private_test 0 test_loader;
  mret (private_train_loader, private_test_loader).

End Loaders.

(** *** The model and the training *)

(** [Net()]: the weights and biases of [fc1], [fc2] and [fc3]. *)
Definition Net : Type := list (tensor Q).

(** The shared model: its parameters, and the gradient each holds. *)
Record model := Mdl { params : list expr; grads : list (option expr) }.

(** [model.fix_precision().share( *workers, crypto_provider=..., requires_grad=True)],
    parameter by parameter, the precision being the framework's default. *)
Definition share_model (net : Net) (ws : list worker) (cp : worker) : M world model :=
  fs ← for_list net (fix_precision default_precision);
  hs ← for_list fs (fun f => share f ws cp true);
  mret (Mdl (map Val hs) (map (fun _ => None) hs)).

(** [optim.SGD(model.parameters(), lr=args.lr).fix_precision()]: the
    learning rate, encoded. *)
Record optimizer := SGD { rate : Z }.

Definition make_optimizer (a : Arguments) : optimizer :=
  SGD (encode field default_precision (lr a)).

(** [model(data)] in [train] and [test], for the model they are given:
    the application of the model's parameters to [data], kept as one
    operation on shared tensors, the arithmetic of the layers on shares
    being the framework's.  The notebook's model is the shared [Net],
    whose [forward] first views [data] as rows of 28 * 28 elements
    ([view_rows] below) and raises when it cannot; this application does
    not follow that error, and what is stated of the whole notebook's
    training is stated for images of 784 pixels, on which the view is
    shown to be defined. *)
Definition forward (m : model) (data : expr) : expr := Model (params m) data.

(** [x.view(-1, 28 * 28)], the first line of [Net.forward], on a tensor
    of shape [sh] that holds [len] elements: the shape of the view.
    torch raises when the elements do not fill rows of 784, and when
    there is no element. *)
Definition view_rows (sh : list nat) (len : nat) : option (list nat) :=
  if (len =? numel sh) && negb (len =? 0) && (len mod 784 =? 0)
  then Some [len / 784; 784]
  else None.

(** Modelled from the spec: [optimizer.zero_grad()] on shared parameters. *)
Definition zero_grad (m : model) : model := Mdl (params m) (map (fun _ => None) (grads m)).

(** Modelled from the spec: [loss.backward()] on a shared loss: every
    parameter accumulates its gradient. *)
Definition backward (loss : expr) (m : model) : model :=
  Mdl (params m)
      (zip_with (fun p g => match g with
                            | None => Some (GradOf loss p)
                            | Some g' => Some (Add g' (GradOf loss p))
                            end) (params m) (grads m)).

(** Modelled from the spec: [optimizer.step()] on shared parameters. *)
Definition step (o : optimizer) (m : model) : model :=
  Mdl (zip_with (fun p g => match g with
                            | None => p
                            | Some g' => SgdStep p g' (rate o)
                            end) (params m) (grads m))
      (grads m).

(** The body of the loop of [train], for batch [batch_idx]. *)
Definition train_batch (a : Arguments) (o : optimizer) (epoch : nat) (m : model)
    (batch_idx : nat) (batch : shared * shared) : M world model :=
  let '(data, target) := batch in
  let m := zero_grad m in
  let output := forward m (Val data) in
  let loss := DivRows (Refresh (Sum (Pow (Sub output (Val target)) 2))) output in
  let m := backward loss m in
  let m := step o m in
  guard (negb (log_interval a =? 0)) ;;
  (if batch_idx mod log_interval a =? 0 then
     emit (Get loss) ;;
     emit (FloatPrecision loss) ;;
     emit (PrintLoss epoch batch_idx loss)
   else mret tt) ;;
  mret m.

Fixpoint train_from (a : Arguments) (o : optimizer) (epoch : nat) (m : model)
    (batch_idx : nat) (loader : list (shared * shared)) : M world model :=
  match loader with
  | [] => mret m
  | batch :: rest =>
      m' ← train_batch a o epoch m batch_idx batch;
      train_from a o epoch m' (S batch_idx) rest
  end.

(** [train(args, model, private_train_loader, optimizer, epoch)]; the
    model is updated in place, here returned. *)
Definition train (a : Arguments) (m : model) (private_train_loader : list (shared * shared))
    (o : optimizer) (epoch : nat) : M world model :=
  train_from a o epoch m 0 private_train_loader.

(** [correct] in [test]: the Python int [0] until the first batch adds a
    shared count to it. *)
Inductive count : Type := Int (n : Z) | Shr (e : expr).

Definition add_count (c : count) (e : expr) : count :=
  match c with
  | Int n => Shr (AddInt n e)
  | Shr c' => Shr (Add c' e)
  end.

(** [pred.eq(target.view_as(pred)).sum()] for one test batch. *)
Definition batch_correct (m : model) (batch : shared * shared) : expr :=
  let '(data, target) := batch in
  let output := forward m (Val data) in
  let pred := Argmax output in
  Sum (Eq pred (ViewAs (Val target) pred)).

(** [test(args, model, private_test_loader)]; an int has no [get], and
    the percentage printed divides by the total, which raises when the
    total is zero. *)
Definition test (a : Arguments) (m : model) (private_test_loader : list (shared * shared))
    : M world unit :=
  let correct := fold_left (fun c batch => add_count c (batch_correct m batch))
                   private_test_loader (Int 0) in
  match correct with
  | Int _ => raise
  | Shr c =>
      emit (Get c) ;;
      emit (FloatPrecision c) ;;
      let total := length private_test_loader * test_batch_size a in
      guard (negb (total =? 0)) ;;
      emit (PrintAccuracy c total)
  end.

(** [for epoch in range(1, args.epochs + 1): train(...); test(...)] from
    epoch [epoch] on, [n] epochs to go. *)
Fixpoint epochs_from (a : Arguments) (o : optimizer) (m : model)
    (private_train_loader private_test_loader : list (shared * shared))
    (epoch n : nat) : M world model :=
  match n with
  | O => mret m
  | S n' =>
      m' ← train a m private_train_loader o epoch;
      test a m' private_test_loader ;;
      epochs_from a o m' private_train_loader private_test_loader (S epoch) n'
  end.

(** The cells that build the private loaders and share the model. *)
Definition setup (mnist_train mnist_test : list sample) (net : Net)
    : M world (list (shared * shared) * list (shared * shared) * model) :=
  loaders ← get_private_data_loaders (precision_fractional args) workers crypto_provider
              mnist_train mnist_test;
  m ← share_model net workers crypto_provider;
  mret (loaders, m).

(** The notebook from the data loaders to the end of the training. *)
Definition notebook (mnist_train mnist_test : list sample) (net : Net) : M world model :=
  s ← setup mnist_train mnist_test net;
  let '(private_train_loader, private_test_loader, m) := s in
  let optimizer := make_optimizer args in
  epochs_from args optimizer m private_train_loader private_test_loader 1 (epochs args).

End Field.

(** *** The loaders, the shares and the trace *)

(** The plaintext tensors the notebook's process held and encoded. *)
Definition local_plaintexts (tr : list event) : list (tensor Q) :=
  omap (fun e => match e with FixPrecision t _ => Some t | _ => None end) tr.

(** The values the notebook's process reconstructed with [get]. *)
Definition reconstructed (tr : list event) : list expr :=
  omap (fun e => match e with Get x => Some x | _ => None end) tr.

(** The workers a share was sent to. *)
Definition share_receivers (tr : list event) : list string :=
  omap (fun e => match e with SendShare d _ => Some d | _ => None end) tr.

(** What [secret_share] returns for [t] when [pos] numbers have been
    drawn, and the events it adds to the trace. *)
Definition share_handle (field : Z) (tape : nat -> Z) (pf : nat) (ws : list worker)
    (cp : worker) (pos : nat) (t : tensor Q) : shared :=
  Shared pf (shape t)
    (zip (map id ws)
       (generate_shares field tape (length ws) pos (map (encode field pf) (data t))))
    (id cp) true.

Definition share_events (field : Z) (tape : nat -> Z) (pf : nat) (ws : list worker)
    (cp : worker) (pos : nat) (t : tensor Q) : list event :=
  FixPrecision t pf
  :: Share (Syft.fix_precision field pf t) (map id ws) (id cp)
  :: map (fun os => SendShare (id (fst os)) (Tensor (shape t) (snd os)))
       (zip ws (generate_shares field tape (length ws) pos (map (encode field pf) (data t)))).

(** [h] is a sharing of the fixed precision encoding of [t]. *)
Definition sharing_of (field : Z) (tape : nat -> Z) (pf : nat) (ws : list worker)
    (cp : worker) (t : tensor Q) (h : shared) : Prop :=
  exists pos, h = share_handle field tape pf ws cp pos t.

(** [h] holds [t] in fixed precision [pf], shared between the workers:
    one share per worker and none elsewhere, every share a tensor of
    integers of the ring, the shares summing to the encoding of [t]. *)
Definition encoded_then_shared (field : Z) (pf : nat) (ws : list worker)
    (t : tensor Q) (h : shared) : Prop :=
  sh_precision h = pf
  /\ map fst (shares h) = map id ws
  /\ Forall (fun s => Forall (in_ring field) (snd s)) (shares h)
  /\ reconstruct field h = child (Syft.fix_precision field pf t).

(** An entry of the private train loader for a batch of the loader, and
    an entry of the private test loader. *)
Definition train_entry (R : tensor Q -> shared -> Prop)
    (batch : tensor Q * tensor Z) (entry : shared * shared) : Prop :=
  R (fst batch) (fst entry)
  /\ exists onehot, one_hot_of (snd batch) = Some onehot /\ R onehot (snd entry).

Definition test_entry (R : tensor Q -> shared -> Prop)
    (batch : tensor Q * tensor Z) (entry : shared * shared) : Prop :=
  R (fst batch) (fst entry) /\ R (float (snd batch)) (snd entry).

(** The events of building the loaders and sharing the model: tensors
    encoded, and shares sent to the workers [ws] with [cp] named as the
    crypto provider. *)
Definition sharing_event (ws : list worker) (cp : worker) (e : event) : Prop :=
  match e with
  | FixPrecision _ _ => True
  | Share _ owners provider => owners = map id ws /\ provider = id cp
  | SendShare d _ => In d (map id ws)
  | _ => False
  end.

(** Every [share] names the workers [ws] as owners and [cp] as crypto
    provider, and every share goes to one of [ws]. *)
Definition share_call_ok (ws : list worker) (cp : worker) (e : event) : Prop :=
  match e with
  | Share _ owners provider => owners = map id ws /\ provider = id cp
  | SendShare d _ => In d (map id ws)
  | _ => True
  end.

(** The workers that hold the shares of [h], and its crypto provider. *)
Definition held_by (ws : list worker) (cp : worker) (h : shared) : Prop :=
  map fst (shares h) = map id ws /\ provider h = id cp.

(** The loss of [train] for the parameters [ps] and a batch. *)
Definition loss_expr (ps : list expr) (batch : shared * shared) : expr :=
  let output := Model ps (Val (fst batch)) in
  DivRows (Refresh (Sum (Pow (Sub output (Val (snd batch))) 2))) output.

Definition is_loss (train_loader : list (shared * shared)) (x : expr) : Prop :=
  exists ps batch, In batch train_loader /\ x = loss_expr ps batch.

(** The count of correct predictions [test] accumulates over the loader. *)
Definition correct_count (m : model) (test_loader : list (shared * shared)) : count :=
  fold_left (fun c batch => add_count c (batch_correct m batch)) test_loader (Int 0).

Definition is_correct (test_loader : list (shared * shared)) (x : expr) : Prop :=
  exists m, correct_count m test_loader = Shr x.

(** The events of [train] and [test]: nothing is encoded or shared, and
    what [get] reconstructs is a loss or the count of correct predictions. *)
Definition training_event (train_loader test_loader : list (shared * shared))
    (e : event) : Prop :=
  match e with
  | Get x | FloatPrecision x => is_loss train_loader x \/ is_correct test_loader x
  | PrintLoss _ _ x => is_loss train_loader x
  | PrintAccuracy x total =>
      is_correct test_loader x /\ total = length test_loader * test_batch_size args
  | _ => False
  end.

(** A batch whose labels are a vector of digits. *)
Definition digit_labels (batch : tensor Q * tensor Z) : Prop :=
  shape (snd batch) = [length (data (snd batch))]
  /\ Forall (fun k => 0 <= k < 10)%Z (data (snd batch)).

(** [m] returns from every state, its value satisfies [R], and the events
    it adds to the trace all satisfy [P]. *)
Definition emits {A} (P : event -> Prop) (m : M world A) (R : A -> Prop) : Prop :=
  forall w, exists a w' new,
    m w = (Some a, w') /\ trace w' = trace w ++ new /\ Forall P new /\ R a.

(** [m] returns from every state, and its value and the events it adds
    to the trace satisfy [R]. *)
Definition logs {A} (m : M world A) (R : A -> list event -> Prop) : Prop :=
  forall w, exists a w' new,
    m w = (Some a, w') /\ trace w' = trace w ++ new /\ R a new.

(** A call [secret_share(t)] that returned [h] and added the events
    [es]: [fix_precision] was called on [t], then [share] on the
    encoding it returned, and each worker was sent the share that [h]
    records for it, the shares being drawn from the tape. *)
Definition secret_shared (field : Z) (tape : nat -> Z) (pf : nat) (ws : list worker)
    (cp : worker) (t : tensor Q) (h : shared) (es : list event) : Prop :=
  exists pos,
    h = share_handle field tape pf ws cp pos t
    /\ es = share_events field tape pf ws cp pos t.

(** An entry of the private train loader with the events of building
    it: the input is shared first, then the one-hot labels; and the same
    for the private test loader. *)
Definition train_entry_log (S : tensor Q -> shared -> list event -> Prop)
    (batch : tensor Q * tensor Z) (entry : shared * shared) (es : list event) : Prop :=
  exists onehot e1 e2,
    one_hot_of (snd batch) = Some onehot
    /\ S (fst batch) (fst entry) e1 /\ S onehot (snd entry) e2
    /\ es = e1 ++ e2.

Definition test_entry_log (S : tensor Q -> shared -> list event -> Prop)
    (batch : tensor Q * tensor Z) (entry : shared * shared) (es : list event) : Prop :=
  exists e1 e2,
    S (fst batch) (fst entry) e1 /\ S (float (snd batch)) (snd entry) e2
    /\ es = e1 ++ e2.

(** A parameter [t] of the model that became the shared [p], [es] being
    the events of its [share]: the call on the encoding of [t] and the
    shares sent. *)
Definition param_shared (field : Z) (tape : nat -> Z) (ws : list worker) (cp : worker)
    (t : tensor Q) (p : expr) (es : list event) : Prop :=
  exists pos,
    p = Val (share_handle field tape default_precision ws cp pos t)
    /\ es = List.tl (share_events field tape default_precision ws cp pos t).

(** The examples of a private loader: the rows of its input batches. *)
Definition rows (h : shared) : nat := hd 0 (sh_shape h).

Definition examples (loader : list (shared * shared)) : nat :=
  foldr (fun b n => rows (fst b) + n) 0 loader.

(** [Net.forward] can view the shared tensor [h] as rows of 28 * 28
    elements, one row per example: it can view each of its shares so. *)
Definition views_as_rows (h : shared) : Prop :=
  shares h <> []
  /\ Forall (fun s => view_rows (sh_shape h) (length (snd s)) = Some [rows h; 784])
       (shares h).

(** *** What the training loop leaves and logs *)

(** One step of gradient descent on the loss of a batch, from the
    parameters [ps]. *)
Definition sgd_update (o : optimizer) (ps : list expr) (batch : shared * shared)
    : list expr :=
  map (fun p => SgdStep p (GradOf (loss_expr ps batch) p) (rate o)) ps.

(** The parameters after a step on each batch of a loader, in order. *)
Definition params_after (o : optimizer) (ps : list expr) (loader : list (shared * shared))
    : list expr :=
  fold_left (sgd_update o) loader ps.

(** The loss of each batch of a loader, computed with the parameters the
    steps on the earlier batches left. *)
Fixpoint losses (o : optimizer) (ps : list expr) (loader : list (shared * shared))
    : list expr :=
  match loader with
  | [] => []
  | batch :: rest => loss_expr ps batch :: losses o (sgd_update o ps batch) rest
  end.

(** The events of logging the loss [l] of batch [batch_idx], which is
    logged when [batch_idx] is a multiple of [log_interval]. *)
Definition loss_log (a : Arguments) (epoch batch_idx : nat) (l : expr) : list event :=
  if batch_idx mod log_interval a =? 0
  then [Get l; FloatPrecision l; PrintLoss epoch batch_idx l]
  else [].

Definition train_log (a : Arguments) (epoch : nat) (ls : list expr) : list event :=
  concat (imap (loss_log a epoch) ls).

(** The count of correct predictions over a loader that starts with
    [batch]: the int 0, plus the count of each batch in turn. *)
Definition count_expr (m : model) (batch : shared * shared) (rest : list (shared * shared))
    : expr :=
  fold_left (fun c b => Add c (batch_correct m b)) rest (AddInt 0 (batch_correct m batch)).

Definition test_log (a : Arguments) (m : model) (loader : list (shared * shared))
    : list event :=
  match loader with
  | [] => []
  | batch :: rest =>
      let c := count_expr m batch rest in
      [Get c; FloatPrecision c]
      ++ (if test_batch_size a =? 0 then []
          else [PrintAccuracy c (length loader * test_batch_size a)])
  end.

(** *** Concrete inputs *)

(** A ring of 64-bit integers, a source of numbers, and the state before
    the first cell. *)
Definition ring64 : Z := 2 ^ 64.
Definition counting_tape (k : nat) : Z := Z.of_nat k * 7919 + 13.
Definition start : world := World 0 [].

(** 1000 items, each an image of 28 x 28 pixels, all one half, of label 7. *)
Definition thousand_images : list sample := repeat (repeat (1 # 2)%Q 784, 7%Z) 1000.

(** 100 such items. *)
Definition hundred_images : list sample := repeat (repeat (1 # 2)%Q 784, 7%Z) 100.

(** One item: an image of 28 x 28 pixels, all one half, of label 7. *)
Definition one_seven : list sample := [(repeat (1 # 2)%Q 784, 7%Z)].

Definition one_parameter : Net := [Tensor [2] [1 # 3; -1 # 3]%Q].

(** 100 items, each a one-pixel image of label 0. *)
Definition hundred_items : list sample := repeat ([0%Q], 0%Z) 100.

End EncryptedMNIST.

(** * Proofs *)

(** ** Running a computation to a result *)

Module PyFacts.
Import Py.

Lemma bind_unfold {S A B} (m : M S A) (k : A -> M S B) (s : S) :
  (m ≫= k) s = match m s with
               | (Some a, s') => k a s'
               | (None, s') => (None, s')
               end.
Proof. reflexivity. Qed.

Lemma runs_ret {S A} (a : A) (s : S) Q : Q a s -> runs (ret a) s Q.
Proof. intros H. exists a, s. auto. Qed.

Lemma runs_bind {S A B} (m : M S A) (k : A -> M S B) (s : S) Q :
  runs m s (fun a s' => runs (k a) s' Q) -> runs (m ≫= k) s Q.
Proof.
  intros (a & s' & Hm & b & s'' & Hk & HQ). exists b, s''. split; [| exact HQ].
  unfold mbind, M_bind, bind. now rewrite Hm.
Qed.

Lemma runs_gets {S A} (f : S -> A) (s : S) Q : Q (f s) s -> runs (gets f) s Q.
Proof. intros H. exists (f s), s. auto. Qed.

Lemma runs_modify {S} (f : S -> S) (s : S) Q : Q tt (f s) -> runs (modify f) s Q.
Proof. intros H. exists tt, (f s). auto. Qed.

Lemma runs_lift {S A} (o : option A) (a : A) (s : S) Q :
  o = Some a -> Q a s -> runs (lift o) s Q.
Proof. intros -> H. exists a, s. auto. Qed.

Lemma runs_guard {S} (b : bool) (s : S) Q : b = true -> Q tt s -> runs (guard b) s Q.
Proof. intros -> H. exists tt, s. auto. Qed.

Lemma runs_weaken {S A} (m : M S A) (s : S) (Q Q' : A -> S -> Prop) :
  runs m s Q -> (forall a s', Q a s' -> Q' a s') -> runs m s Q'.
Proof. intros (a & s' & Hm & HQ) H. exists a, s'. auto. Qed.

Lemma runs_for_each_cons {S A} (x : A) (xs : list A) (body : A -> M S unit) (s : S) Q :
  runs (body x) s (fun _ s' => runs (for_each xs body) s' Q) ->
  runs (for_each (x :: xs) body) s Q.
Proof.
  intros (a & s' & Hm & b & s'' & Hk & HQ). exists b, s''. split; [| exact HQ].
  cbn [for_each]. unfold bind. now rewrite Hm.
Qed.

Lemma runs_for_each_nil {S A} (body : A -> M S unit) (s : S) Q :
  Q tt s -> runs (for_each [] body) s Q.
Proof. apply runs_ret. Qed.

(** A list comprehension whose body keeps an invariant [I] of the state. *)
Lemma runs_for_list {S A B} (l : list A) (f : A -> M S B) (I : S -> Prop) (s : S) :
  I s ->
  (forall x s0, I s0 -> runs (f x) s0 (fun _ s1 => I s1)) ->
  runs (for_list l f) s (fun ys s' => length ys = length l /\ I s').
Proof.
  intros Hs Hf. revert s Hs.
  induction l as [| x xs IH]; intros s Hs.
  - apply runs_ret. auto.
  - destruct (Hf x s Hs) as (y & s1 & Hy & H1).
    destruct (IH s1 H1) as (ys & s2 & Hys & Hlen & H2).
    exists (y :: ys), s2. split.
    + cbn [for_list]. unfold bind. rewrite Hy, Hys. reflexivity.
    + cbn [length]. auto.
Qed.

(** *** True division *)

Section TrueDiv.
#[local] Open Scope Z_scope.

Lemma round_half_even_bounds a b :
  0 < b -> a / b <= round_half_even a b <= a / b + 1.
Proof.
  intros Hb. unfold round_half_even.
  destruct (2 * (a mod b) <? b); [lia |].
  destruct (b <? 2 * (a mod b)); [lia |].
  destruct (Z.even (a / b)); lia.
Qed.

(** Rounding [a / b] gives more than the integer [j] exactly when
    [a / b] is above [j], provided it is then above by more than a half. *)
Lemma round_half_even_gt a b j :
  0 < b -> (j * b < a -> b < 2 * (a - j * b)) ->
  (j < round_half_even a b <-> j * b < a).
Proof.
  intros Hb Hgap.
  pose proof (Z.div_mod a b ltac:(lia)) as Hdm.
  pose proof (Z.mod_pos_bound a b Hb) as Hmod.
  unfold round_half_even. split.
  - intros H. destruct (Z_lt_le_dec (j * b) a) as [|Hle]; [assumption | exfalso].
    assert (a / b <= j) by (apply Z.div_le_upper_bound; lia).
    destruct (Z.eq_dec (a / b) j) as [E | E].
    + assert (a mod b = 0) by nia.
      replace (2 * (a mod b) <? b) with true in H by (symmetry; apply Z.ltb_lt; lia). lia.
    + destruct (2 * (a mod b) <? b); [lia |].
      destruct (b <? 2 * (a mod b)); [lia |].
      destruct (Z.even (a / b)); lia.
  - intros H. specialize (Hgap H).
    assert (j <= a / b) by (apply Z.div_le_lower_bound; lia).
    destruct (Z.eq_dec (a / b) j) as [E | E].
    + assert (a mod b = a - j * b) by nia.
      replace (2 * (a mod b) <? b) with false by (symmetry; apply Z.ltb_ge; lia).
      replace (b <? 2 * (a mod b)) with true by (symmetry; apply Z.ltb_lt; lia). lia.
    + destruct (2 * (a mod b) <? b); [lia |].
      destruct (b <? 2 * (a mod b)); [lia |].
      destruct (Z.even (a / b)); lia.
Qed.

Lemma round_half_even_zero b : 0 < b -> round_half_even 0 b = 0.
Proof.
  intros Hb. unfold round_half_even. rewrite Z.div_0_l, Zmod_0_l by lia.
  now replace (2 * 0 <? b) with true by (symmetry; apply Z.ltb_lt; lia).
Qed.

(** For [n] and [b] below 2^53 the double [n / b] is above an int [i]
    exactly when the quotient is: a quotient above [i] is above it by
    [1 / b] at least, more than half the spacing of the doubles around
    it, and so is not rounded down to [i]. *)
Lemma true_div_lt (i n b : nat) :
  (0 < b)%nat -> Z.of_nat n < 2 ^ 53 -> Z.of_nat b < 2 ^ 53 ->
  exists x, true_div (Z.of_nat n) (Z.of_nat b) = Some x
    /\ negb (Qle_bool x (inject_Z (Z.of_nat i))) = (i * b <? n)%nat.
Proof.
  intros Hb Hn Hb'. unfold true_div. cbv zeta.
  set (N := Z.of_nat n) in *. set (B := Z.of_nat b) in *. set (I := Z.of_nat i).
  assert (HB : 0 < B) by (subst B; lia).
  assert (HN : 0 <= N) by (subst N; lia).
  assert (HI : 0 <= I) by (subst I; lia).
  replace (B =? 0) with false by (symmetry; apply Z.eqb_neq; lia).
  rewrite (Z.abs_eq N), (Z.abs_eq B), (Z.sgn_pos B) by lia. rewrite Z.mul_1_r.
  assert (Hgoal : (i * b <? n)%nat = (I * B <? N)).
  { subst I B N. destruct (Nat.ltb_spec (i * b) n), (Z.ltb_spec (Z.of_nat i * Z.of_nat b) (Z.of_nat n)); lia. }
  rewrite Hgoal. clear Hgoal.
  set (S := 2 ^ 1074).
  assert (HS : 0 < S) by (subst S; apply Z.pow_pos_nonneg; lia).
  set (q := N * S / B).
  set (t := Z.max 0 (Z.log2 q - 52)).
  destruct (Z.eq_dec N 0) as [E0 | E0].
  - (* n = 0 *)
    assert (Hq : q = 0) by (subst q; rewrite E0; reflexivity).
    assert (Ht : t = 0) by (subst t; rewrite Hq; reflexivity).
    rewrite Ht, E0. change (0 * S) with 0. change (2 ^ 0) with 1.
    rewrite (round_half_even_zero (B * 1)) by lia. change (0 * 1) with 0.
    replace (2 ^ 2098 <=? 0) with false
      by (symmetry; apply Z.leb_gt; apply Z.pow_pos_nonneg; lia).
    eexists. split; [reflexivity |].
    unfold Qle_bool, inject_Z. cbn [Qnum Qden]. rewrite Z.mul_0_r.
    replace (I * B <? 0) with false by (symmetry; apply Z.ltb_ge; nia).
    apply negb_false_iff, Z.leb_le. nia.
  - assert (H53 : 2 ^ 1074 = 2 ^ 1021 * 2 ^ 53) by (rewrite <- Z.pow_add_r by lia; reflexivity).
    assert (Hqlo : 2 ^ 1021 <= q).
    { subst q. apply Z.div_le_lower_bound; [lia |]. subst S. rewrite H53.
      assert (0 < 2 ^ 1021) by (apply Z.pow_pos_nonneg; lia). nia. }
    assert (Hqpos : 0 < q) by (assert (0 < 2 ^ 1021) by (apply Z.pow_pos_nonneg; lia); lia).
    pose proof (Z.log2_spec q Hqpos) as [HL1 HL2].
    set (L := Z.log2 q) in *.
    assert (HLlo : 1021 <= L).
    { apply Z.log2_le_pow2; [exact Hqpos | exact Hqlo]. }
    assert (Hqhi : q < 2 ^ 1127).
    { subst q. apply Z.div_lt_upper_bound; [lia |].
      replace (2 ^ 1127) with (2 ^ 53 * S) by (subst S; rewrite <- Z.pow_add_r by lia; reflexivity).
      nia. }
    assert (HLhi : L <= 1126).
    { assert (L < 1127); [| lia]. apply Z.log2_lt_pow2; [exact Hqpos | exact Hqhi]. }
    assert (Ht : t = L - 52) by (subst t; lia).
    rewrite Ht.
    set (T := 2 ^ (L - 52)).
    set (P := 2 ^ (1126 - L)).
    assert (HT : 0 < T) by (subst T; apply Z.pow_pos_nonneg; lia).
    assert (HP : 0 < P) by (subst P; apply Z.pow_pos_nonneg; lia).
    assert (HTP : T * P = S).
    { subst T P S. rewrite <- Z.pow_add_r by lia. f_equal. lia. }
    assert (HBP : B < 2 * P).
    { assert (H2L : 2 ^ L * (2 * P) = 2 ^ 1127).
      { subst P. replace 2 with (2 ^ 1) at 2 by reflexivity.
        rewrite <- !Z.pow_add_r by lia. f_equal. lia. }
      assert (HqB : q * B <= N * S)
        by (subst q; pose proof (Z.mul_div_le (N * S) B HB); lia).
      assert (HNS : N * S < 2 ^ 1127).
      { replace (2 ^ 1127) with (2 ^ 53 * S)
          by (subst S; rewrite <- Z.pow_add_r by lia; reflexivity). nia. }
      assert (0 < 2 ^ L) by (apply Z.pow_pos_nonneg; lia).
      nia. }
    set (m := round_half_even (N * S) (B * T)).
    assert (Hm : I * P < m <-> I * B < N).
    { subst m. rewrite (round_half_even_gt (N * S) (B * T) (I * P)); [| nia |].
      - rewrite <- HTP. split; intros H; nia.
      - rewrite <- HTP. intros H. assert (I * B < N) by nia. nia. }
    assert (Hmhi : m * T < 2 ^ 2098).
    { pose proof (round_half_even_bounds (N * S) (B * T) ltac:(nia)) as [_ Hup]. fold m in Hup.
      assert (Hd : N * S / (B * T) * (B * T) <= N * S)
        by (pose proof (Z.mul_div_le (N * S) (B * T) ltac:(nia)); lia).
      assert (N * S / (B * T) * T <= N * S).
      { assert (0 <= N * S / (B * T)) by (apply Z.div_pos; nia). nia. }
      assert (T <= S) by nia.
      assert (N * S < 2 ^ 53 * S) by nia.
      assert (2 ^ 53 * S + S <= 2 ^ 2098).
      { subst S. replace (2 ^ 2098) with (2 ^ 1024 * 2 ^ 1074) by (rewrite <- Z.pow_add_r by lia; reflexivity).
        assert (2 ^ 53 + 1 <= 2 ^ 1024); [| nia].
        replace (2 ^ 1024) with (2 ^ 53 * 2 ^ 971) by (rewrite <- Z.pow_add_r by lia; reflexivity).
        assert (2 <= 2 ^ 971) by (change 2 with (2 ^ 1) at 1; apply Z.pow_le_mono_r; lia).
        assert (0 < 2 ^ 53) by (apply Z.pow_pos_nonneg; lia). nia. }
      nia. }
    replace (2 ^ 2098 <=? m * T) with false by (symmetry; apply Z.leb_gt; exact Hmhi).
    eexists. split; [reflexivity |].
    unfold Qle_bool, inject_Z. cbn [Qnum Qden].
    rewrite (Z.sgn_pos N), Z.mul_1_l, Z.mul_1_r by lia.
    change (Z.pos (2 ^ 1074)) with S.
    destruct (Z.ltb_spec (I * B) N) as [H | H].
    + apply negb_true_iff, Z.leb_gt. apply Hm in H. rewrite <- HTP. nia.
    + apply negb_false_iff, Z.leb_le.
      assert (~ I * P < m) by (rewrite Hm; lia). rewrite <- HTP. nia.
Qed.

(** Beyond 2^53 the double can be the int just below the quotient:
    [(10 * 2 ** 50 + 1) / 2 ** 50] is [10.0], and [1 / 3] is the double
    [6004799503160661 / 2 ** 54]. *)
Example true_div_rounds :
  true_div (10 * 2 ^ 50 + 1) (2 ^ 50) = Some (Qmake (10 * 2 ^ 1074) (2 ^ 1074))
  /\ true_div 1 3 = Some (Qmake (6004799503160661 * 2 ^ 1020) (2 ^ 1074))
  /\ true_div 1 0 = None.
Proof. repeat split; vm_compute; reflexivity. Qed.

End TrueDiv.

End PyFacts.

Ltac wp :=
  repeat first
    [ apply PyFacts.runs_bind
    | apply PyFacts.runs_ret
    | apply PyFacts.runs_gets
    | apply PyFacts.runs_modify
    | apply PyFacts.runs_for_each_cons
    | apply PyFacts.runs_for_each_nil ].

(** ** Fixed precision and additive sharing *)

Module SyftFacts.
Import Torch Syft.

Section Field.
Context (field : Z) (tape : nat -> Z) (field_pos : (0 < field)%Z).

Lemma encode_in_ring pf x : in_ring field (encode field pf x).
Proof. unfold in_ring, encode. apply Z.mod_pos_bound, field_pos. Qed.

Lemma fix_precision_in_ring pf t :
  Forall (in_ring field) (data (child (fix_precision field pf t))).
Proof.
  cbn. apply Forall_forall. intros z Hz.
  apply list_elem_of_fmap in Hz as (x & -> & _). apply encode_in_ring.
Qed.

Lemma random_tensor_length pos len : length (random_tensor field tape pos len) = len.
Proof. unfold random_tensor. now rewrite length_map, length_seq. Qed.

Lemma random_tensor_in_ring pos len : Forall (in_ring field) (random_tensor field tape pos len).
Proof.
  unfold random_tensor. apply Forall_forall. intros z Hz.
  apply list_elem_of_fmap in Hz as (j & -> & _). apply Z.mod_pos_bound, field_pos.
Qed.

Lemma sub_mod_length (s r : list Z) :
  length r = length s -> length (sub_mod field s r) = length s.
Proof. intros H. unfold sub_mod. rewrite length_zip_with. lia. Qed.

(** Adding a mask back to what was left after taking it away. *)
Lemma add_sub_mod (r s : list Z) :
  length r = length s ->
  add_mod field r (map (fun x => x mod field)%Z (sub_mod field s r))
  = map (fun x => x mod field)%Z s.
Proof.
  revert s. induction r as [| x r IH]; intros [| y s] H; try discriminate; [reflexivity |].
  cbn. f_equal.
  - rewrite Z.mod_mod by lia. rewrite Zplus_mod_idemp_r. f_equal. lia.
  - apply IH. cbn in H. lia.
Qed.

Lemma generate_shares_length n pos s :
  length (generate_shares field tape n pos s) = n.
Proof.
  revert pos s. induction n as [| [| k] IH]; intros pos s; try reflexivity.
  change (length (random_tensor field tape pos (length s)
            :: generate_shares field tape (S k) (pos + length s)
                 (sub_mod field s (random_tensor field tape pos (length s)))) = S (S k)).
  cbn [length]. now rewrite IH.
Qed.

(** The shares sum to the secret, in the ring. *)
Lemma generate_shares_sum n pos s :
  0 < n ->
  sum_shares field (generate_shares field tape n pos s) = map (fun x => x mod field)%Z s.
Proof.
  revert pos s. induction n as [| [| k] IH]; intros pos s Hn; [lia | |].
  - cbn. rewrite map_map. apply map_ext. intros x. apply Z.mod_mod. lia.
  - change (generate_shares field tape (S (S k)) pos s)
      with (random_tensor field tape pos (length s)
            :: generate_shares field tape (S k) (pos + length s)
                 (sub_mod field s (random_tensor field tape pos (length s)))).
    set (r := random_tensor field tape pos (length s)).
    assert (Hr : length r = length s) by apply random_tensor_length.
    pose proof (generate_shares_length (S k) (pos + length s) (sub_mod field s r)) as Hl.
    destruct (generate_shares field tape (S k) (pos + length s) (sub_mod field s r))
      as [| s1 rest] eqn:E; [discriminate |].
    change (sum_shares field (r :: s1 :: rest))
      with (add_mod field r (sum_shares field (s1 :: rest))).
    rewrite <- E, IH by lia. now apply add_sub_mod.
Qed.

Lemma generate_shares_in_ring n pos s :
  Forall (Forall (in_ring field)) (generate_shares field tape n pos s).
Proof.
  revert pos s. induction n as [| [| k] IH]; intros pos s.
  - constructor.
  - cbn. constructor; [| constructor]. apply Forall_forall. intros z Hz.
    apply list_elem_of_fmap in Hz as (x & -> & _). apply Z.mod_pos_bound, field_pos.
  - change (generate_shares field tape (S (S k)) pos s)
      with (random_tensor field tape pos (length s)
            :: generate_shares field tape (S k) (pos + length s)
                 (sub_mod field s (random_tensor field tape pos (length s)))).
    constructor; [apply random_tensor_in_ring | apply IH].
Qed.

End Field.

End SyftFacts.

(** ** SplitNN *)

Module SplitNNFacts.
Import Py Syft SplitNN PyFacts.

Ltac unsetters :=
  lazy beta iota zeta delta
    [set_model_loc set_model_ver set_param_grad set_act_grad set_calls set_wire
     model_loc model_ver param_grad act_grad calls wire] in *.

Lemma runs_called (U : unit -> world -> Prop) w c :
  U tt (set_calls (fun l => l ++ [c]) w) -> runs (called c) w U.
Proof. apply runs_modify. Qed.

Lemma runs_zero_grad (U : unit -> world -> Prop) w o :
  U tt (set_param_grad (delete (opt_model o)) (set_calls (fun l => l ++ [CZeroGrad o]) w)) ->
  runs (zero_grad o) w U.
Proof. intros H. unfold zero_grad, called. wp. exact H. Qed.

Lemma runs_forward (Q : tensor -> world -> Prop) w m x l :
  model_loc w !! m = Some l -> location x = l ->
  Q (At l (Apply m (default 0 (model_ver w !! m)) (value x)))
    (set_calls (fun c => c ++ [CForward m x]) w) ->
  runs (forward m x) w Q.
Proof.
  intros Hm Hx H. unfold forward, called, model_location, version. wp.
  eapply runs_lift; [exact Hm |]. wp.
  apply runs_guard; [now apply bool_decide_eq_true |]. wp. exact H.
Qed.

Lemma runs_model_location w m l (P : string -> world -> Prop) :
  model_loc w !! m = Some l -> P l w -> runs (model_location m) w P.
Proof.
  intros Hm H. unfold model_location. wp. eapply runs_lift; [exact Hm | exact H].
Qed.

Lemma runs_detach (Q : tensor -> world -> Prop) w t :
  Q (At (location t) (Detach (value t))) (set_calls (fun c => c ++ [CDetach t]) w) ->
  runs (detach t) w Q.
Proof. intros H. unfold detach, called. wp. exact H. Qed.

Lemma runs_move (Q : tensor -> world -> Prop) w t d :
  location t <> me ->
  Q (At d (value t))
    (set_wire (fun l => l ++ moved (location t) d (value t))
       (set_calls (fun c => c ++ [CMove t d]) w)) ->
  runs (move t d) w Q.
Proof.
  intros Hne H. unfold move, called, sent. wp.
  apply runs_guard; [now rewrite bool_decide_eq_false_2 |]. wp.
  revert H. unfold moved. destruct (bool_decide (location t = d)); intros H; wp.
  - destruct w. unsetters. now rewrite app_nil_r in H.
  - exact H.
Qed.

Lemma runs_requires_grad_ (Q : tensor -> world -> Prop) w t :
  Q (At (location t) (Leaf (value t))) (set_calls (fun c => c ++ [CRequiresGrad t]) w) ->
  runs (requires_grad_ t) w Q.
Proof. intros H. unfold requires_grad_, called. wp. exact H. Qed.

Lemma runs_NLLLoss (Q : tensor -> world -> Prop) w p y :
  location p = location y ->
  Q (At (location p) (NLL (value p) (value y)))
    (set_calls (fun c => c ++ [CNLLLoss p y]) w) ->
  runs (NLLLoss p y) w Q.
Proof.
  intros Hl H. unfold NLLLoss, called. wp.
  apply runs_guard; [now apply bool_decide_eq_true |]. wp. exact H.
Qed.

Lemma runs_backward (U : unit -> world -> Prop) w t g :
  match g with Some g' => location g' = location t | None => True end ->
  models_in (value t) <> [] ->
  U tt
    (set_act_grad (fun ag =>
       map (fun l => (At (location t) l, Grad (value t) l)) (leaves_in (value t)) ++ ag)
     (set_param_grad (fun pg =>
       foldr (add_param_grad (value t, value <$> g)) pg (models_in (value t)))
     (set_calls (fun c => c ++ [CBackward t g]) w))) ->
  runs (backward t g) w U.
Proof.
  intros Hg Hm H. unfold backward, called. wp.
  apply runs_guard.
  { destruct g; [now apply bool_decide_eq_true | reflexivity]. }
  wp. apply runs_guard.
  { rewrite bool_decide_eq_false_2; [reflexivity | tauto]. }
  wp. exact H.
Qed.

Lemma runs_grad w t v ag (P : option tensor -> world -> Prop) :
  act_grad w = (t, v) :: ag ->
  P (Some (At (location t) v)) (set_calls (fun c => c ++ [CGrad t]) w) ->
  runs (grad t) w P.
Proof.
  intros Ha H. unfold grad, called. wp.
  destruct w; unsetters. subst. cbn. rewrite decide_True by reflexivity. exact H.
Qed.

Lemma runs_copy (Q : tensor -> world -> Prop) w t :
  Q (At (location t) (Copy (value t))) (set_calls (fun c => c ++ [CCopy t]) w) ->
  runs (copy t) w Q.
Proof. intros H. unfold copy, called. wp. exact H. Qed.

Lemma runs_step (U : unit -> world -> Prop) w o :
  (forall mv, U tt (set_model_ver (fun _ => mv) (set_calls (fun c => c ++ [CStep o]) w))) ->
  runs (step o) w U.
Proof.
  intros H. unfold step, called. wp.
  match goal with |- context [default [] ?x] => destruct (default [] x) end; wp.
  - specialize (H (model_ver w)). destruct w; exact H.
  - apply H.
Qed.

Lemma runs_get (Q : tensor -> world -> Prop) w t :
  location t <> me ->
  Q (At me (value t))
    (set_wire (fun l => l ++ [Xfer (location t) me (value t)])
       (set_calls (fun c => c ++ [CGet t]) w)) ->
  runs (get t) w Q.
Proof.
  intros Hne H. unfold get, called, sent. wp.
  apply runs_guard; [now rewrite bool_decide_eq_false_2 |]. wp. exact H.
Qed.

Lemma runs_send (Q : tensor -> world -> Prop) w t (d : worker) :
  location t = me ->
  Q (At (id d) (value t))
    (set_wire (fun l => l ++ [Xfer me (id d) (value t)])
       (set_calls (fun c => c ++ [CSend t (id d)]) w)) ->
  runs (send t d) w Q.
Proof.
  intros Hl H. unfold send, called, sent. wp.
  apply runs_guard; [now apply bool_decide_eq_true |]. wp. exact H.
Qed.

Lemma runs_view (Q : tensor -> world -> Prop) w t :
  Q (At (location t) (View (value t))) (set_calls (fun c => c ++ [CView t]) w) ->
  runs (view t) w Q.
Proof. intros H. unfold view, called. wp. exact H. Qed.

(** One call of [train] with the two segments on workers [la] and [lb],
    [x] on the first and [target] on the second: it returns, and this is
    what it returns, calls and sends. *)
Lemma train_spec w x target m0 m1 o0 o1 la lb :
  model_loc w !! m0 = Some la -> model_loc w !! m1 = Some lb ->
  location x = la -> location target = lb -> la <> me -> lb <> me ->
  let v0 := default 0 (model_ver w !! m0) in
  let v1 := default 0 (model_ver w !! m1) in
  runs (train x target [m0; m1] [o0; o1]) w (fun r w' =>
    r = At me (Detach (loss_value m0 v0 m1 v1 (value x) (value target)))
    /\ model_loc w' = model_loc w
    /\ calls w' = calls w ++ train_calls m0 v0 m1 v1 o0 o1 la lb (value x) (value target)
    /\ wire w' = wire w ++ train_wire m0 v0 m1 v1 la lb (value x) (value target)).
Proof.
  intros H0 H1 Hx Ht Ha Hb v0 v1.
  destruct x as [lx vx], target as [lt vt]. cbn [location value] in *. subst lx lt.
  unfold train.
  apply runs_bind, runs_for_each_cons, runs_zero_grad,
    runs_for_each_cons, runs_zero_grad, runs_for_each_nil.
  apply runs_bind. eapply runs_lift; [reflexivity |].
  apply runs_bind. apply (runs_forward _ _ m0 _ la); [exact H0 | reflexivity |].
  apply runs_bind, runs_detach.
  apply runs_bind. eapply runs_lift; [reflexivity |].
  apply runs_bind. apply (runs_model_location _ m1 lb); [exact H1 |].
  apply runs_bind, runs_move; [exact Ha |].
  apply runs_bind, runs_requires_grad_.
  apply runs_bind. eapply runs_lift; [reflexivity |].
  apply runs_bind. apply (runs_forward _ _ m1 _ lb); [exact H1 | reflexivity |].
  apply runs_bind, runs_NLLLoss; [reflexivity |].
  apply runs_bind, runs_backward; [exact I | discriminate |].
  apply runs_bind. eapply runs_grad; [reflexivity |].
  apply runs_bind. eapply runs_lift; [reflexivity |].
  apply runs_bind, runs_copy.
  apply runs_bind. eapply runs_lift; [reflexivity |].
  apply runs_bind. apply (runs_model_location _ m0 la); [exact H0 |].
  apply runs_bind, runs_move; [exact Hb |].
  apply runs_bind, runs_backward; [reflexivity | discriminate |].
  apply runs_bind, runs_for_each_cons, runs_step. intros mv.
  apply runs_for_each_cons, runs_step. intros mv'. apply runs_for_each_nil.
  apply runs_bind, runs_detach.
  apply runs_get; [exact Hb |].
  unsetters. cbn [location value].
  repeat split.
  - unfold train_calls. rewrite <- !app_assoc. reflexivity.
  - unfold train_wire. rewrite <- !app_assoc. reflexivity.
Qed.

(** *** Computations that leave every segment where it is *)

Lemma keeps_ret {A} (a : A) : keeps (ret a).
Proof. intros w. reflexivity. Qed.

Lemma keeps_raise {A} : keeps (@raise world A).
Proof. intros w. reflexivity. Qed.

Lemma keeps_lift {A} (o : option A) : keeps (lift o).
Proof. intros w. reflexivity. Qed.

Lemma keeps_guard b : keeps (guard b).
Proof. destruct b; [apply keeps_ret | apply keeps_raise]. Qed.

Lemma keeps_gets {A} (f : world -> A) : keeps (gets f).
Proof. intros w. reflexivity. Qed.

Lemma keeps_modify (f : world -> world) :
  (forall w, model_loc (f w) = model_loc w) -> keeps (modify f).
Proof. intros H w. apply H. Qed.

Lemma keeps_bind {A B} (m : M world A) (k : A -> M world B) :
  keeps m -> (forall a, keeps (k a)) -> keeps (m ≫= k).
Proof.
  intros Hm Hk w. specialize (Hm w).
  unfold mbind, M_bind, bind, final in *.
  destruct (m w) as [[a |] w1]; cbn [snd] in *.
  - rewrite <- Hm. apply (Hk a w1).
  - exact Hm.
Qed.

Lemma keeps_if {A} (b : bool) (m1 m2 : M world A) :
  keeps m1 -> keeps m2 -> keeps (if b then m1 else m2).
Proof. now destruct b. Qed.

Lemma keeps_for_each {A} (l : list A) (body : A -> M world unit) :
  (forall x, keeps (body x)) -> keeps (for_each l body).
Proof.
  intros H. induction l as [| x xs IH]; cbn [for_each].
  - apply keeps_ret.
  - apply (keeps_bind (body x) (fun _ => for_each xs body)); auto.
Qed.

Lemma keeps_for_list {A B} (l : list A) (f : A -> M world B) :
  (forall x, keeps (f x)) -> keeps (for_list l f).
Proof.
  intros H. induction l as [| x xs IH]; cbn [for_list].
  - apply keeps_ret.
  - apply (keeps_bind (f x) (fun y => bind (for_list xs f) (fun ys => ret (y :: ys)))); auto.
    intros y. apply (keeps_bind (for_list xs f) (fun ys => ret (y :: ys))); auto.
    intros ys. apply keeps_ret.
Qed.

Create HintDb keeps.
#[local] Hint Resolve keeps_ret keeps_raise keeps_lift keeps_guard keeps_gets
  keeps_if : keeps.

Ltac keeps_prim :=
  repeat first
    [ apply keeps_bind; [| intros ?]
    | apply keeps_modify; intros []; reflexivity
    | match goal with |- keeps (match ?x with _ => _ end) => destruct x end
    | solve [auto with keeps] ].

Lemma keeps_called c : keeps (called c).
Proof. unfold called. keeps_prim. Qed.

Lemma keeps_sent s d v : keeps (sent s d v).
Proof. unfold sent. keeps_prim. Qed.

#[local] Hint Resolve keeps_called keeps_sent : keeps.

Lemma keeps_model_location m : keeps (model_location m).
Proof. unfold model_location. keeps_prim. Qed.

Lemma keeps_version m : keeps (version m).
Proof. unfold version. keeps_prim. Qed.

#[local] Hint Resolve keeps_model_location keeps_version : keeps.

Lemma keeps_zero_grad o : keeps (zero_grad o).
Proof. unfold zero_grad. keeps_prim. Qed.

Lemma keeps_forward m x : keeps (forward m x).
Proof. unfold forward. keeps_prim. Qed.

Lemma keeps_detach t : keeps (detach t).
Proof. unfold detach. keeps_prim. Qed.

Lemma keeps_move t d : keeps (move t d).
Proof. unfold move. keeps_prim. Qed.

Lemma keeps_requires_grad_ t : keeps (requires_grad_ t).
Proof. unfold requires_grad_. keeps_prim. Qed.

Lemma keeps_NLLLoss p y : keeps (NLLLoss p y).
Proof. unfold NLLLoss. keeps_prim. Qed.

Lemma keeps_backward t g : keeps (backward t g).
Proof. unfold backward. keeps_prim. Qed.

Lemma keeps_grad t : keeps (grad t).
Proof. unfold grad. keeps_prim. Qed.

Lemma keeps_copy t : keeps (copy t).
Proof. unfold copy. keeps_prim. Qed.

Lemma keeps_step o : keeps (step o).
Proof. unfold step. keeps_prim. Qed.

Lemma keeps_get t : keeps (get t).
Proof. unfold get. keeps_prim. Qed.

Lemma keeps_send t d : keeps (send t d).
Proof. unfold send. keeps_prim. Qed.

Lemma keeps_view t : keeps (view t).
Proof. unfold view. keeps_prim. Qed.

#[local] Hint Resolve keeps_zero_grad keeps_forward keeps_detach keeps_move
  keeps_requires_grad_ keeps_NLLLoss keeps_backward keeps_grad keeps_copy
  keeps_step keeps_get keeps_send keeps_view : keeps.

Lemma keeps_train x target ms os : keeps (train x target ms os).
Proof.
  unfold train.
  repeat first
    [ solve [auto with keeps]
    | apply keeps_for_each; intros ?
    | apply keeps_bind; [| intros ?] ].
Qed.

Lemma keeps_train_batch k : keeps (train_batch k).
Proof.
  unfold train_batch.
  repeat first
    [ solve [auto with keeps] | apply keeps_train | apply keeps_bind; [| intros ?] ].
Qed.

Lemma keeps_epoch batches : keeps (epoch batches).
Proof.
  unfold epoch. apply keeps_bind.
  - apply keeps_for_list; intros k. apply keeps_train_batch.
  - intros losses. apply keeps_bind; [apply keeps_guard | intros _; apply keeps_ret].
Qed.

Lemma keeps_training order : keeps (training order).
Proof. unfold training. apply keeps_for_list; intros i. apply keeps_epoch. Qed.

(** *** A value is not one of its own ingredients *)

Lemma tsize_neq (a b : tval) : tsize a <> tsize b -> a <> b.
Proof. intros H ->. now apply H. Qed.

(** *** The training step *)

(** C3. Called with the two segments [m0] (on worker [la]) and [m1] (on
    worker [lb]), both optimisers, [x] on [la] and [target] on [lb],
    [train] returns, and the calls it makes are, in this order: zero_grad
    on both optimisers; the forward pass of the first segment; detach of
    the activation, its move to the second segment's worker and
    requires_grad_ on the moved tensor; the forward pass of the second
    segment; the NLL loss against [target]; backward on the loss; the
    read of the moved activation's gradient, its copy and the move of the
    copy to the first segment's worker; backward on the activation with
    that gradient; step on both optimisers; detach of the loss and get.
    The value returned is the detached loss, at the local worker. *)
Theorem train_steps_in_order w x target m0 m1 o0 o1 la lb :
  model_loc w !! m0 = Some la -> model_loc w !! m1 = Some lb ->
  location x = la -> location target = lb -> la <> me -> lb <> me ->
  let v0 := default 0 (model_ver w !! m0) in
  let v1 := default 0 (model_ver w !! m1) in
  let a := At la (Apply m0 v0 (value x)) in
  let remote_a := At lb (Leaf (Detach (value a))) in
  let pred := At lb (Apply m1 v1 (value remote_a)) in
  let loss := At lb (NLL (value pred) (value target)) in
  let grad_a := Copy (Grad (value loss) (value remote_a)) in
  exists w',
    train x target [m0; m1] [o0; o1] w = (Some (At me (Detach (value loss))), w')
    /\ calls w' = calls w ++
        [ CZeroGrad o0; CZeroGrad o1;
          CForward m0 x;
          CDetach a; CMove (At la (Detach (value a))) lb;
          CRequiresGrad (At lb (Detach (value a)));
          CForward m1 remote_a;
          CNLLLoss pred target;
          CBackward loss None;
          CGrad remote_a; CCopy (At lb (Grad (value loss) (value remote_a)));
          CMove (At lb grad_a) la;
          CBackward a (Some (At la grad_a));
          CStep o0; CStep o1;
          CDetach loss; CGet (At lb (Detach (value loss))) ].
Proof.
  intros H0 H1 Hx Ht Ha Hb v0 v1 a remote_a pred loss grad_a.
  destruct (train_spec w x target m0 m1 o0 o1 la lb H0 H1 Hx Ht Ha Hb)
    as (r & w' & Hrun & -> & _ & Hcalls & _).
  exists w'. split; [exact Hrun |].
  rewrite Hcalls. destruct x, target. cbn [location value] in *. subst.
  reflexivity.
Qed.

Lemma sent_world_locations :
  model_loc sent_world !! 0 = Some "alice" /\ model_loc sent_world !! 1 = Some "bob".
Proof. split; reflexivity. Qed.

Lemma train_steps_in_order_witness :
  let x := At "alice" (View (Images 0)) in
  let target := At "bob" (Labels 0) in
  let o0 := SGD 0 (3 # 100) in
  let o1 := SGD 1 (3 # 100) in
  exists w',
    train x target [0; 1] [o0; o1] sent_world
      = (Some (At me (Detach (loss_value 0 0 1 0 (value x) (value target)))), w')
    /\ calls w' = calls sent_world ++
         train_calls 0 0 1 0 o0 o1 "alice" "bob" (value x) (value target).
Proof.
  intros x target o0 o1.
  apply (train_steps_in_order sent_world x target 0 1 o0 o1 "alice" "bob");
    solve [reflexivity | discriminate].
Defined.

(** C1. In one training step with the bottom segment on alice and the top
    segment on bob, [x] on alice and the labels on bob, the transfers
    between alice and bob are exactly two: the detached activation of the
    bottom segment, from alice to bob, and the copy of its gradient, from
    bob to alice.  No transfer to bob carries [x] and no transfer to alice
    carries the labels.  (The step's only other transfer is the detached
    loss, fetched from bob by the local worker.) *)
Theorem train_boundary_traffic w x target :
  model_loc w !! 0 = Some (id alice) -> model_loc w !! 1 = Some (id bob) ->
  location x = id alice -> location target = id bob ->
  let v0 := default 0 (model_ver w !! 0) in
  let v1 := default 0 (model_ver w !! 1) in
  exists r w' new,
    train x target models optimizers w = (Some r, w')
    /\ wire w' = wire w ++ new
    /\ List.filter (crosses (id alice) (id bob)) new =
         [ Xfer (id alice) (id bob) (Detach (activation 0 v0 (value x)));
           Xfer (id bob) (id alice)
             (Copy (activation_grad 0 v0 1 v1 (value x) (value target))) ]
    /\ List.filter (fun e => negb (crosses (id alice) (id bob) e)) new =
         [ Xfer (id bob) me (Detach (loss_value 0 v0 1 v1 (value x) (value target))) ]
    /\ (forall e, In e new -> dst e = id bob -> payload e <> value x)
    /\ (forall e, In e new -> dst e = id alice -> payload e <> value target).
Proof.
  intros H0 H1 Hx Ht v0 v1.
  destruct (train_spec w x target 0 1 (SGD 0 (3 # 100)) (SGD 1 (3 # 100))
              (id alice) (id bob) H0 H1 Hx Ht) as (r & w' & Hrun & _ & _ & _ & Hwire);
    [discriminate | discriminate |].
  exists r, w', (train_wire 0 v0 1 v1 (id alice) (id bob) (value x) (value target)).
  split; [exact Hrun |]. split; [exact Hwire |].
  split; [reflexivity |]. split; [reflexivity |].
  split; intros e He Hd; cbn in He;
    destruct He as [<- | [<- | [<- | []]]]; try discriminate Hd;
    apply tsize_neq; cbn; lia.
Qed.

Lemma train_boundary_traffic_witness :
  exists r w' new,
    train (At "alice" (View (Images 0))) (At "bob" (Labels 0)) models optimizers sent_world
      = (Some r, w')
    /\ wire w' = wire sent_world ++ new
    /\ List.filter (crosses "alice" "bob") new =
         [ Xfer "alice" "bob" (Detach (activation 0 0 (View (Images 0))));
           Xfer "bob" "alice"
             (Copy (activation_grad 0 0 1 0 (View (Images 0)) (Labels 0))) ]
    /\ List.filter (fun e => negb (crosses "alice" "bob" e)) new =
         [ Xfer "bob" me (Detach (loss_value 0 0 1 0 (View (Images 0)) (Labels 0))) ]
    /\ (forall e, In e new -> dst e = "bob" -> payload e <> View (Images 0))
    /\ (forall e, In e new -> dst e = "alice" -> payload e <> Labels 0).
Proof.
  apply (train_boundary_traffic sent_world (At "alice" (View (Images 0)))
           (At "bob" (Labels 0))); reflexivity.
Defined.

(** *** The whole notebook *)

Lemma runs_train_batch k w :
  segments_placed w -> runs (train_batch k) w (fun _ w' => segments_placed w').
Proof.
  intros (H0 & H1 & Hw). unfold train_batch.
  apply runs_bind, runs_send; [reflexivity |].
  apply runs_bind, runs_view.
  apply runs_bind, runs_send; [reflexivity |].
  eapply runs_weaken.
  - apply (train_spec _ _ _ 0 1 (SGD 0 (3 # 100)) (SGD 1 (3 # 100)) "alice" "bob");
      solve [exact H0 | exact H1 | reflexivity | discriminate].
  - cbn beta. intros r w' (_ & Hloc & _ & Hwire).
    unfold segments_placed. rewrite Hloc, Hwire.
    split; [exact H0 |]. split; [exact H1 |].
    unsetters. cbn [location value alice bob id].
    repeat (apply Forall_app; split); try exact Hw;
      repeat constructor.
Qed.

Lemma runs_epoch batches w :
  batches <> [] -> segments_placed w ->
  runs (epoch batches) w (fun _ w' => segments_placed w').
Proof.
  intros Hne Hw. unfold epoch. apply runs_bind.
  eapply runs_weaken; [apply (runs_for_list batches train_batch segments_placed w Hw) |].
  - intros k w0. apply runs_train_batch.
  - cbn beta. intros losses w' [_ Hw']. apply runs_bind, runs_guard.
    + destruct batches; [congruence | reflexivity].
    + now apply runs_ret.
Qed.

(** The notebook returns when no epoch is empty, and every transfer it
    makes is one of the six above: the images reach alice only, the
    labels bob only. *)
Lemma notebook_traffic (order : nat -> list nat) :
  (forall i, order i <> []) ->
  runs (notebook order) empty_world (fun _ w => Forall allowed (wire w)).
Proof.
  intros Hne. unfold notebook. apply runs_bind.
  exists tt, sent_world. split; [reflexivity |].
  eapply runs_weaken.
  - apply (runs_for_list (seq 0 epochs) (fun i => epoch (order i)) segments_placed).
    + split; [reflexivity |]. split; [reflexivity |]. repeat constructor.
    + intros i w0. apply runs_epoch, Hne.
  - cbn beta. intros _ w' [_ (_ & _ & Hw)]. exact Hw.
Qed.

(** C10. No call of [train], whatever its arguments and whether it returns
    or raises, changes the worker a segment is on, nor hence the worker
    an optimiser updates its parameters on; after the cell that sends
    the bottom segment to alice and the top segment to bob, any number of
    training steps leaves segment 0 on alice and segment 1 on bob. *)
Theorem train_keeps_segments_in_place :
  (forall x target ms os w,
      let w' := final (train x target ms os w) in
      model_loc w' = model_loc w
      /\ forall o, optimizer_location o w' = optimizer_location o w)
  /\ (forall order,
      let w' := final (notebook order empty_world) in
      model_loc w' !! 0 = Some (id alice) /\ model_loc w' !! 1 = Some (id bob)
      /\ optimizer_location (SGD 0 (3 # 100)) w' = Some (id alice)
      /\ optimizer_location (SGD 1 (3 # 100)) w' = Some (id bob)).
Proof.
  split.
  - intros x target ms os w w'. subst w'.
    pose proof (keeps_train x target ms os w) as H.
    split; [exact H |]. intros o. unfold optimizer_location. now rewrite H.
  - intros order w'. subst w'. unfold notebook.
    assert (Hk : model_loc (final (notebook order empty_world)) = model_loc sent_world).
    { unfold notebook, mbind, M_bind, bind, final.
      change (send_models empty_world) with (Some tt, sent_world).
      apply (keeps_training order sent_world). }
    unfold notebook in Hk. unfold optimizer_location. rewrite Hk.
    repeat split; reflexivity.
Qed.

End SplitNNFacts.

(** ** Encrypted training on MNIST *)

Module EncryptedFacts.
Import Py Torch Syft EncryptedMNIST PyFacts SyftFacts.

Example one_hot_of_docstring :
  one_hot_of (Tensor [3] [0; 3; 9]%Z)
  = Some (Tensor [3; 10]
      [1;0;0;0;0;0;0;0;0;0;
       0;0;0;1;0;0;0;0;0;0;
       0;0;0;0;0;0;0;0;0;1]%Q).
Proof. reflexivity. Qed.

(** *** [one_hot_of] on a batch of labels *)

Lemma one_hot_row_length k : length (one_hot_row k) = 10.
Proof. reflexivity. Qed.

Lemma digit_cases (k : Z) :
  (0 <= k < 10)%Z -> exists i : nat, i < 10 /\ k = Z.of_nat i.
Proof. intros Hk. exists (Z.to_nat k). lia. Qed.

Lemma scatter_digit (k : Z) :
  (0 <= k < 10)%Z -> scatter_row (repeat 0%Q 10) [k] 1%Q = one_hot_row k.
Proof.
  intros Hk. destruct (digit_cases k Hk) as [i [Hi ->]].
  do 10 (destruct i as [| i]; [reflexivity |]). lia.
Qed.

Lemma take_repeat_le {A} (x : A) (m n : nat) :
  m <= n -> take m (repeat x n) = repeat x m.
Proof.
  revert n; induction m as [| m IH]; intros [| n] H; simpl; try lia; auto.
  f_equal. apply IH. lia.
Qed.

Lemma drop_repeat {A} (x : A) (m n : nat) :
  drop m (repeat x n) = repeat x (n - m).
Proof.
  revert n; induction m as [| m IH]; intros [| n]; simpl; auto.
Qed.

(** Scattering a column of digits into zeros writes one one-hot row per digit. *)
Lemma scatter_rows_digits (l : list Z) :
  Forall (fun k => 0 <= k < 10)%Z l ->
  scatter_rows (length l) 10 1 (repeat 0%Q (length l * 10)) l 1%Q
  = concat (map one_hot_row l).
Proof.
  induction 1 as [| k ks Hk _ IH].
  - reflexivity.
  - cbn [length scatter_rows map concat].
    rewrite take_repeat_le by lia.
    rewrite drop_repeat.
    replace (S (length ks) * 10 - 10) with (length ks * 10) by lia.
    change (take 1 (k :: ks)) with [k].
    change (drop 1 (k :: ks)) with ks.
    rewrite scatter_digit by exact Hk.
    now rewrite IH.
Qed.

Lemma concat_rows_lookup (l : list Z) (i : nat) (k : Z) :
  l !! i = Some k ->
  take 10 (drop (i * 10) (concat (map one_hot_row l))) = one_hot_row k.
Proof.
  revert i; induction l as [| x xs IH]; intros [| i] H; try discriminate.
  - injection H as ->. reflexivity.
  - cbn [map concat].
    replace (S i * 10) with (length (one_hot_row x) + i * 10)
      by (rewrite one_hot_row_length; lia).
    rewrite drop_app_add. now apply IH.
Qed.

Lemma one_hot_row_lookup (k : Z) (j : nat) :
  j < 10 -> one_hot_row k !! j = Some (if (Z.of_nat j =? k)%Z then 1%Q else 0%Q).
Proof.
  intros Hj. unfold one_hot_row.
  rewrite list_lookup_fmap, lookup_seq_lt by exact Hj. reflexivity.
Qed.

Lemma one_hot_row_sum (k : Z) : (0 <= k < 10)%Z -> qsum (one_hot_row k) = 1%Q.
Proof.
  intros Hk. destruct (digit_cases k Hk) as [i [Hi ->]].
  do 10 (destruct i as [| i]; [reflexivity |]). lia.
Qed.

Lemma forallb_index_ok (l : list Z) :
  Forall (fun k => 0 <= k < 10)%Z l -> forallb (index_ok 10) l = true.
Proof.
  induction 1 as [| k ks Hk _ IH]; simpl; auto.
  rewrite IH, andb_true_r. unfold index_ok.
  apply andb_true_intro; split; [apply Z.leb_le | apply Z.ltb_lt]; lia.
Qed.

Lemma one_hot_of_digits (l : list Z) :
  Forall (fun k => 0 <= k < 10)%Z l ->
  one_hot_of (Tensor [length l] l)
  = Some (Tensor [length l; 10] (concat (map one_hot_row l))).
Proof.
  intros Hdigits.
  unfold one_hot_of, zeros, view_col, scatter1. cbn [shape data app numel fold_right].
  rewrite !Nat.mul_1_r.
  replace (length l <=? length l) with true by (symmetry; now apply Nat.leb_le).
  rewrite forallb_index_ok by exact Hdigits. cbn [andb Nat.leb].
  now rewrite scatter_rows_digits by exact Hdigits.
Qed.

(** C8. For a batch of [n] labels, each a digit from 0 to 9,
    [one_hot_of] returns a tensor of [n] rows and 10 columns; the row of
    a label [k] holds 1 in column [k] and 0 in every other column, and so
    sums to 1. *)
Theorem one_hot_of_rows (index_tensor : tensor Z) (n : nat) :
  shape index_tensor = [n] ->
  wf index_tensor ->
  Forall (fun k => 0 <= k < 10)%Z (data index_tensor) ->
  exists onehot,
    one_hot_of index_tensor = Some onehot
    /\ shape onehot = [n; 10]
    /\ length (data onehot) = n * 10
    /\ forall i k, data index_tensor !! i = Some k ->
         length (row 10 onehot i) = 10
         /\ (forall j, j < 10 ->
               row 10 onehot i !! j = Some (if (Z.of_nat j =? k)%Z then 1%Q else 0%Q))
         /\ qsum (row 10 onehot i) = 1%Q.
Proof.
  destruct index_tensor as [sh l]. unfold wf. cbn [shape data]. intros -> Hwf Hdigits.
  cbn in Hwf. rewrite Nat.mul_1_r in Hwf. subst n.
  eexists. split; [now apply one_hot_of_digits |]. cbn [shape data].
  split; [reflexivity |]. split.
  - clear Hdigits. induction l as [| k ks IH]; [reflexivity |].
    cbn [map concat length]. rewrite length_app, IH, one_hot_row_length. lia.
  - intros i k Hk. unfold row. cbn [data].
    rewrite (concat_rows_lookup l i k Hk).
    split; [apply one_hot_row_length |]. split.
    + intros j Hj. now apply one_hot_row_lookup.
    + apply one_hot_row_sum.
      rewrite Forall_forall in Hdigits. apply Hdigits.
      apply list_elem_of_lookup. eauto.
Qed.

Lemma one_hot_of_rows_witness :
  exists onehot,
    one_hot_of (Tensor [3] [0; 3; 9]%Z) = Some onehot
    /\ shape onehot = [3; 10]
    /\ length (data onehot) = 3 * 10
    /\ forall i k, [0; 3; 9]%Z !! i = Some k ->
         length (row 10 onehot i) = 10
         /\ (forall j, j < 10 ->
               row 10 onehot i !! j = Some (if (Z.of_nat j =? k)%Z then 1%Q else 0%Q))
         /\ qsum (row 10 onehot i) = 1%Q.
Proof.
  apply (one_hot_of_rows (Tensor [3] [0; 3; 9]%Z) 3); [reflexivity | reflexivity |].
  repeat constructor; lia.
Defined.

(** An index tensor that is not a vector makes [scatter] raise: the zeros
    have one dimension more than the column of indices. *)
Lemma one_hot_of_rank (index_tensor : tensor Z) :
  length (shape index_tensor) <> 1 -> one_hot_of index_tensor = None.
Proof.
  destruct index_tensor as [[| n [| m sh]] l]; cbn [shape length]; intros H;
    try reflexivity; try lia.
  unfold one_hot_of, zeros, scatter1. cbn [shape app].
  destruct sh; reflexivity.
Qed.

(** *** The comparison [i < n / b] *)

Lemma lt_div_zero (i n : nat) : lt_div i n 0 = None.
Proof. reflexivity. Qed.

Lemma lt_div_mul (i n b : nat) :
  0 < b -> (Z.of_nat n < 2 ^ 53)%Z -> (Z.of_nat b < 2 ^ 53)%Z ->
  lt_div i n b = Some (i * b <? n).
Proof.
  intros Hb Hn Hb'. unfold lt_div.
  destruct (true_div_lt i n b Hb Hn Hb') as (x & -> & ->). reflexivity.
Qed.

(** The batches kept are those below the ceiling of [n / b]. *)
Lemma lt_div_ceil (i n b : nat) :
  0 < b -> (Z.of_nat n < 2 ^ 53)%Z -> (Z.of_nat b < 2 ^ 53)%Z ->
  lt_div i n b = Some (i <? (n + b - 1) / b).
Proof.
  intros Hb Hn Hb'. rewrite lt_div_mul by assumption. f_equal.
  destruct (i * b <? n) eqn:E; symmetry.
  - apply Nat.ltb_lt in E. apply Nat.ltb_lt.
    apply (Nat.lt_le_trans _ (S i)); [lia |].
    apply Nat.div_le_lower_bound; nia.
  - apply Nat.ltb_ge in E. apply Nat.ltb_ge.
    assert (H : (n + b - 1) / b < S i); [| lia].
    apply Nat.Div0.div_lt_upper_bound. nia.
Qed.

Lemma keep_train (i : nat) : lt_div i n_train_items (batch_size args) = Some (i <? 10).
Proof. now rewrite lt_div_ceil by (first [reflexivity | cbn; lia]). Qed.

Lemma keep_test (i : nat) : lt_div i n_test_items (test_batch_size args) = Some (i <? 10).
Proof. now rewrite lt_div_ceil by (first [reflexivity | cbn; lia]). Qed.

(** *** Sharing a tensor *)

Lemma for_each_emit {A} (g : A -> event) (body : A -> M world unit) (l : list A) w :
  (forall x, body x = emit (g x)) ->
  for_each l body w = (Some tt, World (drawn w) (trace w ++ map g l)).
Proof.
  intros Hb. revert w. induction l as [| x xs IH]; intros [d tr].
  - cbn. now rewrite app_nil_r.
  - cbn [for_each map]. unfold bind. rewrite Hb. cbn. rewrite IH. cbn.
    now rewrite <- app_assoc.
Qed.

Section Field.
Context (field : Z) (tape : nat -> Z).

Lemma share_run (f : fixed) (ws : list worker) (cp : worker) (rg : bool) w :
  ws <> [] ->
  let parts := generate_shares field tape (length ws) (drawn w) (data (child f)) in
  share field tape f ws cp rg w =
    (Some (Shared (fixed_precision f) (shape (child f)) (zip (map id ws) parts) (id cp) rg),
     World (drawn w + (length ws - 1) * length (data (child f)))
       (trace w ++ Share f (map id ws) (id cp)
          :: map (fun os => SendShare (id (fst os)) (Tensor (shape (child f)) (snd os)))
               (zip ws parts))).
Proof.
  intros Hws parts. destruct w as [d tr]. destruct ws as [| w1 ws]; [congruence |].
  unfold share, mbind, M_bind, bind, emit, modify, gets, guard, mret, M_ret, ret.
  cbn -[generate_shares for_each zip].
  rewrite (for_each_emit
    (fun os => SendShare (id (fst os)) (Tensor (shape (child f)) (snd os)))).
  - cbn -[generate_shares zip]. rewrite <- app_assoc. reflexivity.
  - intros [o s0]. reflexivity.
Qed.

Lemma secret_share_run (pf : nat) (ws : list worker) (cp : worker) (t : tensor Q) w :
  ws <> [] ->
  secret_share field tape pf ws cp t w =
    (Some (share_handle field tape pf ws cp (drawn w) t),
     World (drawn w + (length ws - 1) * length (data t))
       (trace w ++ share_events field tape pf ws cp (drawn w) t)).
Proof.
  intros Hws. destruct w as [d tr].
  unfold secret_share, fix_precision, mbind, M_bind, bind, emit, modify, mret, M_ret, ret.
  rewrite share_run by exact Hws.
  cbn -[generate_shares zip]. rewrite length_map.
  unfold share_handle, share_events. rewrite <- app_assoc. reflexivity.
Qed.

End Field.

(** *** Computations that return and only add events of one kind *)

Lemma emits_ret {A} P (a : A) (R : A -> Prop) : R a -> emits P (mret a) R.
Proof. intros H w. exists a, w, []. rewrite app_nil_r. auto. Qed.

Lemma emits_bind {A B} P (m : M world A) (k : A -> M world B) R1 (R2 : B -> Prop) :
  emits P m R1 -> (forall a, R1 a -> emits P (k a) R2) -> emits P (m ≫= k) R2.
Proof.
  intros Hm Hk w.
  destruct (Hm w) as (a & w1 & n1 & E1 & T1 & F1 & HR1).
  destruct (Hk a HR1 w1) as (b & w2 & n2 & E2 & T2 & F2 & HR2).
  exists b, w2, (n1 ++ n2). split.
  - unfold mbind, M_bind, bind. now rewrite E1.
  - split; [now rewrite T2, T1, app_assoc |]. split; [now apply Forall_app | exact HR2].
Qed.

Lemma emits_lift {A} P (o : option A) (a : A) (R : A -> Prop) :
  o = Some a -> R a -> emits P (lift o) R.
Proof. intros -> H w. exists a, w, []. rewrite app_nil_r. auto. Qed.

Lemma emits_guard P (b : bool) (R : unit -> Prop) :
  b = true -> R tt -> emits P (guard b) R.
Proof. intros -> H w. exists tt, w, []. rewrite app_nil_r. auto. Qed.

Lemma emits_emit (P : event -> Prop) e (R : unit -> Prop) :
  P e -> R tt -> emits P (emit e) R.
Proof. intros He H w. exists tt, (World (drawn w) (trace w ++ [e])), [e]. auto. Qed.

Lemma emits_weaken {A} (P P' : event -> Prop) (m : M world A) (R R' : A -> Prop) :
  emits P m R -> (forall e, P e -> P' e) -> (forall a, R a -> R' a) -> emits P' m R'.
Proof.
  intros Hm HP HR w. destruct (Hm w) as (a & w' & new & E & T & F & Ha).
  exists a, w', new. repeat split; auto. eapply Forall_impl; eauto.
Qed.

(** A list comprehension relates each element to what is computed from it. *)
Lemma emits_for_list {A B} P (f : A -> M world B) (Q : A -> B -> Prop) (l : list A) :
  (forall x, In x l -> emits P (f x) (Q x)) ->
  emits P (for_list l f) (fun ys => Forall2 Q l ys).
Proof.
  induction l as [| x xs IH]; intros Hf.
  - apply emits_ret. constructor.
  - cbn [for_list].
    apply (emits_bind P (f x) _ (Q x)); [apply Hf; now left |]. intros y Hy.
    apply (emits_bind P (for_list xs f) _ (fun ys => Forall2 Q xs ys)).
    + apply IH. intros z Hz. apply Hf. now right.
    + intros ys Hys. apply emits_ret. now constructor.
Qed.

(** *** What [secret_share] gives *)

Section Sharing.
Context (field : Z) (tape : nat -> Z).
Context (pf : nat) (ws : list worker) (cp : worker) (Hws : ws <> []).

Lemma share_events_ok pos t :
  Forall (sharing_event ws cp) (share_events field tape pf ws cp pos t).
Proof.
  unfold share_events. constructor; [exact I |]. constructor; [split; reflexivity |].
  apply Forall_forall. intros e He.
  apply list_elem_of_fmap in He as ([o sh] & -> & Hin). cbn.
  apply list_elem_of_In, list_elem_of_fmap. exists o. split; [reflexivity |].
  apply elem_of_zip_l in Hin. exact Hin.
Qed.

Lemma emits_secret_share t :
  emits (sharing_event ws cp) (secret_share field tape pf ws cp t)
    (sharing_of field tape pf ws cp t).
Proof.
  intros w. eexists _, _, _. split; [apply secret_share_run, Hws |].
  cbn [trace]. split; [reflexivity |]. split; [apply share_events_ok |].
  now exists (drawn w).
Qed.

(** A sharing is an encoding in the ring, held by the workers alone. *)
Lemma sharing_of_encoded t h :
  (0 < field)%Z ->
  sharing_of field tape pf ws cp t h -> encoded_then_shared field pf ws t h.
Proof.
  intros Hf [pos ->]. unfold encoded_then_shared, share_handle. cbn [sh_precision shares].
  set (parts := generate_shares field tape (length ws) pos (map (encode field pf) (data t))).
  assert (Hlen : length parts = length (map id ws)).
  { unfold parts. now rewrite generate_shares_length, length_map. }
  split; [reflexivity |]. split; [| split].
  - apply fst_zip. lia.
  - apply Forall_forall. intros [o sh] Hin. cbn.
    apply elem_of_zip_r in Hin.
    pose proof (generate_shares_in_ring field tape Hf (length ws) pos
                  (map (encode field pf) (data t))) as Hall.
    rewrite Forall_forall in Hall. now apply Hall.
  - unfold reconstruct. cbn [sh_shape shares Syft.fix_precision child].
    change (map snd (zip (map id ws) parts)) with ((zip (map id ws) parts).*2).
    rewrite snd_zip by lia. unfold parts.
    rewrite (generate_shares_sum field tape Hf) by (destruct ws; [congruence | cbn; lia]).
    f_equal. rewrite map_map. apply map_ext. intros x.
    unfold encode. apply Z.mod_mod. lia.
Qed.

Lemma sharing_of_provider t h :
  sharing_of field tape pf ws cp t h -> provider h = id cp.
Proof. now intros [pos ->]. Qed.

Lemma sharing_of_shape t h :
  sharing_of field tape pf ws cp t h -> sh_shape h = shape t.
Proof. now intros [pos ->]. Qed.

End Sharing.

(** *** The data loader *)

Lemma one_hot_of_batch (batch : tensor Q * tensor Z) :
  digit_labels batch -> exists onehot, one_hot_of (snd batch) = Some onehot.
Proof.
  destruct batch as [d [sh l]]. unfold digit_labels. cbn [snd shape data].
  intros [-> Hd]. eexists. now apply one_hot_of_digits.
Qed.

Lemma collate_digit_labels (items : list sample) :
  Forall (fun s => 0 <= snd s < 10)%Z items -> digit_labels (collate items).
Proof.
  intros H. unfold digit_labels, collate. cbn [snd shape data]. split.
  - now rewrite length_map.
  - apply Forall_forall. intros k Hk. apply list_elem_of_fmap in Hk as (x & -> & Hx).
    rewrite Forall_forall in H. now apply H.
Qed.

Lemma chunks_Forall {A} (P : A -> Prop) (fuel n : nat) (l : list A) :
  Forall P l -> Forall (Forall P) (chunks fuel n l).
Proof.
  revert l. induction fuel as [| fuel IH]; intros [| x l] H; try constructor.
  - now apply Forall_take.
  - apply IH. now apply Forall_drop.
Qed.

(** The first [k] batches are full when the dataset has [k * n] items. *)
Lemma chunks_full {A} (n k : nat) :
  0 < n -> forall (fuel : nat) (l : list A),
  k * n <= length l -> k <= fuel ->
  length (take k (chunks fuel n l)) = k
  /\ Forall (fun c => length c = n) (take k (chunks fuel n l)).
Proof.
  intros Hn. induction k as [| k IH]; intros fuel l Hl Hf.
  - split; [reflexivity | constructor].
  - destruct fuel as [| fuel]; [lia |].
    destruct l as [| x l]; [cbn in Hl; lia |].
    cbn [chunks]. rewrite firstn_cons.
    destruct (IH fuel (drop n (x :: l))) as [H1 H2]; [rewrite length_drop; lia | lia |].
    split.
    + cbn [length]. now rewrite H1.
    + constructor; [rewrite length_take; lia | exact H2].
Qed.

Lemma ceil_div_step (L n : nat) :
  0 < n -> 0 < L -> (L + n - 1) / n = S ((L - n + n - 1) / n).
Proof.
  intros Hn HL. destruct (le_lt_dec n L) as [H | H].
  - replace (L + n - 1) with ((L - n + n - 1) + 1 * n) by lia.
    rewrite Nat.div_add by lia. lia.
  - replace (L - n + n - 1) with (n - 1) by lia.
    rewrite (Nat.div_small (n - 1)) by lia.
    replace (L + n - 1) with ((L - 1) + 1 * n) by lia.
    rewrite Nat.div_add by lia. rewrite Nat.div_small by lia. reflexivity.
Qed.

(** The chunks of [L] items are ceil(L / n). *)
Lemma chunks_length {A} (n : nat) :
  0 < n -> forall (fuel : nat) (l : list A),
  length l <= fuel -> length (chunks fuel n l) = (length l + n - 1) / n.
Proof.
  intros Hn. induction fuel as [| fuel IH]; intros l Hl.
  - destruct l; [| cbn in Hl; lia]. cbn. symmetry. apply Nat.div_small. lia.
  - destruct l as [| x l].
    + cbn. symmetry. apply Nat.div_small. lia.
    + cbn [chunks length]. rewrite IH by (rewrite length_drop; cbn [length] in *; lia).
      rewrite length_drop. cbn [length].
      symmetry. apply ceil_div_step; lia.
Qed.

Lemma DataLoader_batches (dataset : list sample) (n : nat) :
  0 < n ->
  DataLoader dataset n = Some (map collate (chunks (length dataset) n dataset)).
Proof. intros Hn. unfold DataLoader. destruct n; [lia | reflexivity]. Qed.

(** The loader has ceil(L / n) batches. *)
Lemma DataLoader_length (dataset : list sample) (n : nat) batches :
  0 < n -> DataLoader dataset n = Some batches ->
  length batches = (length dataset + n - 1) / n.
Proof.
  intros Hn. rewrite DataLoader_batches by exact Hn. intros [= <-].
  rewrite length_map. now apply chunks_length.
Qed.

Lemma DataLoader_digit_labels (dataset : list sample) (n : nat) batches :
  Forall (fun s => 0 <= snd s < 10)%Z dataset ->
  DataLoader dataset n = Some batches -> Forall digit_labels batches.
Proof.
  intros Hd. unfold DataLoader. destruct (n =? 0); [discriminate |].
  intros [= <-]. apply Forall_forall. intros b Hb.
  apply list_elem_of_fmap in Hb as (items & -> & Hi).
  apply collate_digit_labels.
  pose proof (chunks_Forall _ (length dataset) n dataset Hd) as H.
  rewrite Forall_forall in H. now apply H.
Qed.

(** With at least [k * n] items, the loader has at least [k] batches and
    the first [k] hold [n] items each. *)
Lemma DataLoader_full (dataset : list sample) (n k : nat) batches :
  0 < n -> k * n <= length dataset ->
  DataLoader dataset n = Some batches ->
  length (take k batches) = k
  /\ Forall (fun b => hd 0 (shape (fst b)) = n) (take k batches).
Proof.
  intros Hn Hk. rewrite DataLoader_batches by exact Hn. intros [= <-].
  destruct (chunks_full n k Hn (length dataset) dataset Hk) as [H1 H2]; [nia |].
  rewrite <- fmap_take. split; [now rewrite length_fmap |].
  apply Forall_forall. intros b Hb.
  apply list_elem_of_fmap in Hb as (items & -> & Hi). cbn.
  rewrite Forall_forall in H2. now apply H2.
Qed.

(** *** Building the private loaders *)

Section Loaders.
Context (field : Z) (tape : nat -> Z).
Context (pf : nat) (ws : list worker) (cp : worker) (Hws : ws <> []).

#[local] Abbreviation sharing := (sharing_of field tape pf ws cp).
#[local] Abbreviation setup_event := (sharing_event ws cp).

Lemma emits_private_train (l : list (tensor Q * tensor Z)) :
  forall i,
  Forall digit_labels (take (10 - i) l) ->
  emits setup_event (private_train field tape pf ws cp i l)
    (fun out => Forall2 (train_entry sharing) (take (10 - i) l) out).
Proof.
  induction l as [| [data target] rest IH]; intros i Hd.
  - rewrite take_nil. apply emits_ret. constructor.
  - cbn [private_train]. rewrite keep_train.
    apply (emits_bind _ _ _ (fun keep => keep = (i <? 10))).
    { eapply emits_lift; reflexivity. }
    intros keep ->. destruct (i <? 10) eqn:E.
    + apply Nat.ltb_lt in E.
      replace (10 - i) with (S (10 - S i)) in * by lia.
      rewrite firstn_cons in *. inversion Hd as [| b bs Hb Hbs]; subst.
      destruct (one_hot_of_batch _ Hb) as [onehot Hoh]. cbn [snd] in Hoh.
      apply (emits_bind _ _ _ (sharing data)); [apply emits_secret_share; exact Hws |].
      intros d Hdata.
      apply (emits_bind _ _ _ (fun o => o = onehot));
        [apply (emits_lift _ _ onehot); [exact Hoh | reflexivity] |].
      intros o ->.
      apply (emits_bind _ _ _ (sharing onehot)); [apply emits_secret_share; exact Hws |].
      intros t Htarget.
      apply (emits_bind _ _ _ (Forall2 (train_entry sharing) (take (10 - S i) rest)));
        [now apply IH |].
      intros more Hmore. apply emits_ret. constructor; [| exact Hmore].
      split; [exact Hdata |]. exists onehot. auto.
    + apply Nat.ltb_ge in E.
      replace (10 - i) with 0 in * by lia.
      specialize (IH (S i)). replace (10 - S i) with 0 in IH by lia.
      rewrite take_0 in *. now apply IH.
Qed.

Lemma emits_private_test (l : list (tensor Q * tensor Z)) :
  forall i,
  emits setup_event (private_test field tape pf ws cp i l)
    (fun out => Forall2 (test_entry sharing) (take (10 - i) l) out).
Proof.
  induction l as [| [data target] rest IH]; intros i.
  - rewrite take_nil. apply emits_ret. constructor.
  - cbn [private_test]. rewrite keep_test.
    apply (emits_bind _ _ _ (fun keep => keep = (i <? 10))).
    { eapply emits_lift; reflexivity. }
    intros keep ->. destruct (i <? 10) eqn:E.
    + apply Nat.ltb_lt in E.
      replace (10 - i) with (S (10 - S i)) in * by lia.
      rewrite firstn_cons.
      apply (emits_bind _ _ _ (sharing data)); [apply emits_secret_share; exact Hws |].
      intros d Hdata.
      apply (emits_bind _ _ _ (sharing (float target))); [apply emits_secret_share; exact Hws |].
      intros t Htarget.
      apply (emits_bind _ _ _ (Forall2 (test_entry sharing) (take (10 - S i) rest)));
        [now apply IH |].
      intros more Hmore. apply emits_ret. constructor; [| exact Hmore].
      split; [exact Hdata | exact Htarget].
    + apply Nat.ltb_ge in E.
      replace (10 - i) with 0 in * by lia.
      specialize (IH (S i)). replace (10 - S i) with 0 in IH by lia.
      rewrite take_0 in *. now apply IH.
Qed.

(** [get_private_data_loaders] returns the sharings of the first ten
    batches of each loader. *)
Lemma emits_get_private_data_loaders (mnist_train mnist_test : list sample)
    train_loader test_loader :
  Forall (fun s => 0 <= snd s < 10)%Z mnist_train ->
  DataLoader mnist_train (batch_size args) = Some train_loader ->
  DataLoader mnist_test (test_batch_size args) = Some test_loader ->
  emits setup_event
    (get_private_data_loaders field tape pf ws cp mnist_train mnist_test)
    (fun loaders =>
       Forall2 (train_entry sharing) (take 10 train_loader) (fst loaders)
       /\ Forall2 (test_entry sharing) (take 10 test_loader) (snd loaders)).
Proof.
  intros Hd Htr Hte. unfold get_private_data_loaders.
  apply (emits_bind _ _ _ (fun l => l = train_loader));
    [apply (emits_lift _ _ train_loader); [exact Htr | reflexivity] |].
  intros l ->.
  apply (emits_bind _ _ _ (Forall2 (train_entry sharing) (take 10 train_loader))).
  { apply (emits_private_train train_loader 0). apply Forall_take.
    eapply DataLoader_digit_labels; eauto. }
  intros tl Htl.
  apply (emits_bind _ _ _ (fun l => l = test_loader));
    [apply (emits_lift _ _ test_loader); [exact Hte | reflexivity] |].
  intros l ->.
  apply (emits_bind _ _ _ (Forall2 (test_entry sharing) (take 10 test_loader))).
  { apply (emits_private_test test_loader 0). }
  intros te Hte'. apply emits_ret. auto.
Qed.

(** The shared model: every parameter encoded, then shared. *)
Lemma emits_share_model (net : Net) :
  emits setup_event (share_model field tape net ws cp)
    (fun m =>
       Forall2 (fun t p => exists h, p = Val h
                  /\ sharing_of field tape default_precision ws cp t h)
         net (params m)).
Proof.
  unfold share_model.
  apply (emits_bind _ _ _
    (Forall2 (fun t f => f = Syft.fix_precision field default_precision t) net)).
  { apply emits_for_list. intros t _. unfold fix_precision.
    apply (emits_bind _ _ _ (fun _ => True)); [now apply emits_emit |].
    intros _ _. now apply emits_ret. }
  intros fs Hfs.
  apply (emits_bind _ _ _
    (Forall2 (fun f h => exists pos,
       h = Shared (fixed_precision f) (shape (child f))
             (zip (map id ws)
                (generate_shares field tape (length ws) pos (data (child f))))
             (id cp) true) fs)).
  { apply emits_for_list. intros f _ w.
    eexists _, _, _. split; [apply share_run, Hws |]. cbn [trace].
    split; [reflexivity |]. split; [| now exists (drawn w)].
    constructor; [split; reflexivity |].
    apply Forall_forall. intros e He.
    apply list_elem_of_fmap in He as ([o sh] & -> & Hin). cbn.
    apply list_elem_of_In, list_elem_of_fmap. exists o. split; [reflexivity |].
    now apply elem_of_zip_l in Hin. }
  intros hs Hhs. apply emits_ret. cbn [params].
  clear -Hfs Hhs. revert hs Hhs.
  induction Hfs as [| t f net' fs' -> _ IH]; intros hs Hhs; inversion Hhs; subst.
  - constructor.
  - cbn [map]. constructor; [| now apply IH].
    eexists. split; [reflexivity |].
    match goal with H : exists pos, _ |- _ => destruct H as [pos ->] end.
    now exists pos.
Qed.

End Loaders.

(** *** The exact events of the cells before the training *)

Section Logs.
Context (field : Z) (tape : nat -> Z).
Context (pf : nat) (ws : list worker) (cp : worker) (Hws : ws <> []).

#[local] Abbreviation shared_as := (secret_shared field tape pf ws cp).

Lemma logs_private_train (l : list (tensor Q * tensor Z)) :
  forall i,
  Forall digit_labels (take (10 - i) l) ->
  logs (private_train field tape pf ws cp i l)
    (fun out es => exists groups,
       Forall3 (train_entry_log shared_as) (take (10 - i) l) out groups
       /\ es = concat groups).
Proof.
  induction l as [| [data target] rest IH]; intros i Hd w.
  - rewrite take_nil. exists [], w, []. rewrite app_nil_r.
    split; [reflexivity |]. split; [reflexivity |]. exists []. split; constructor.
  - cbn [private_train]. rewrite keep_train. rewrite bind_unfold. cbn [lift].
    destruct (i <? 10) eqn:E.
    + apply Nat.ltb_lt in E.
      replace (10 - i) with (S (10 - S i)) in * by lia.
      rewrite firstn_cons in *. inversion Hd as [| b bs Hb Hbs]; subst.
      destruct (one_hot_of_batch _ Hb) as [onehot Hoh]. cbn [snd] in Hoh.
      rewrite bind_unfold, secret_share_run by exact Hws.
      rewrite bind_unfold, Hoh. cbn [lift].
      rewrite bind_unfold, secret_share_run by exact Hws.
      rewrite bind_unfold. cbn [drawn trace].
      match goal with
      | |- context [private_train _ _ _ _ _ (S i) rest ?w2] =>
          destruct (IH (S i) Hbs w2) as (more & w3 & new & E3 & T3 & groups & HF & ->)
      end.
      rewrite E3. cbn [trace] in T3.
      eexists _, w3, _. split; [reflexivity |]. split.
      { rewrite T3, <- !app_assoc. reflexivity. }
      eexists (_ :: groups). split; [| cbn [concat]; rewrite <- app_assoc; reflexivity].
      constructor; [| exact HF].
      exists onehot. eexists _, _. split; [exact Hoh |].
      split; [eexists; split; reflexivity |]. split; [eexists; split; reflexivity |].
      reflexivity.
    + apply Nat.ltb_ge in E.
      replace (10 - i) with 0 in * by lia.
      specialize (IH (S i)). replace (10 - S i) with 0 in IH by lia.
      rewrite take_0 in *. now apply IH.
Qed.

Lemma logs_private_test (l : list (tensor Q * tensor Z)) :
  forall i,
  logs (private_test field tape pf ws cp i l)
    (fun out es => exists groups,
       Forall3 (test_entry_log shared_as) (take (10 - i) l) out groups
       /\ es = concat groups).
Proof.
  induction l as [| [data target] rest IH]; intros i w.
  - rewrite take_nil. exists [], w, []. rewrite app_nil_r.
    split; [reflexivity |]. split; [reflexivity |]. exists []. split; constructor.
  - cbn [private_test]. rewrite keep_test. rewrite bind_unfold. cbn [lift].
    destruct (i <? 10) eqn:E.
    + apply Nat.ltb_lt in E.
      replace (10 - i) with (S (10 - S i)) in * by lia.
      rewrite firstn_cons in *.
      rewrite bind_unfold, secret_share_run by exact Hws.
      rewrite bind_unfold, secret_share_run by exact Hws.
      rewrite bind_unfold. cbn [drawn trace].
      match goal with
      | |- context [private_test _ _ _ _ _ (S i) rest ?w2] =>
          destruct (IH (S i) w2) as (more & w3 & new & E3 & T3 & groups & HF & ->)
      end.
      rewrite E3. cbn [trace] in T3.
      eexists _, w3, _. split; [reflexivity |]. split.
      { rewrite T3, <- !app_assoc. reflexivity. }
      eexists (_ :: groups). split; [| cbn [concat]; rewrite <- app_assoc; reflexivity].
      constructor; [| exact HF].
      eexists _, _. split; [eexists; split; reflexivity |].
      split; [eexists; split; reflexivity |]. reflexivity.
    + apply Nat.ltb_ge in E.
      replace (10 - i) with 0 in * by lia.
      specialize (IH (S i)). replace (10 - S i) with 0 in IH by lia.
      rewrite take_0 in *. now apply IH.
Qed.

Lemma for_list_fix_precision (net : list (tensor Q)) :
  forall w,
  for_list net (fix_precision field pf) w
  = (Some (map (Syft.fix_precision field pf) net),
     World (drawn w) (trace w ++ map (fun t => FixPrecision t pf) net)).
Proof.
  induction net as [| t net IH]; intros [d tr].
  - cbn. now rewrite app_nil_r.
  - cbn [for_list]. unfold bind at 1. unfold fix_precision at 1.
    unfold mbind, M_bind, bind, emit, modify, mret, M_ret, ret. cbn [drawn trace].
    rewrite IH. cbn [drawn trace map]. rewrite <- app_assoc. reflexivity.
Qed.

Lemma for_list_share (net : list (tensor Q)) :
  forall w, exists hs w' groups,
    for_list (map (Syft.fix_precision field pf) net)
      (fun f => share field tape f ws cp true) w = (Some hs, w')
    /\ trace w' = trace w ++ concat groups
    /\ Forall3 (fun t h g => exists pos,
                  h = share_handle field tape pf ws cp pos t
                  /\ g = List.tl (share_events field tape pf ws cp pos t))
         net hs groups.
Proof.
  induction net as [| t net IH]; intros w.
  - exists [], w, []. cbn. rewrite app_nil_r. repeat split; constructor.
  - cbn [map for_list]. unfold bind. rewrite share_run by exact Hws.
    cbv beta iota.
    match goal with
    | |- context [for_list _ _ ?w1] =>
        destruct (IH w1) as (hs & w' & groups & E & T & HF)
    end.
    rewrite E. cbn [trace] in T.
    eexists (_ :: hs), w', (_ :: groups). split; [reflexivity |]. split.
    + rewrite T. cbn [concat]. rewrite <- app_assoc. reflexivity.
    + constructor; [| exact HF]. exists (drawn w). split; reflexivity.
Qed.

End Logs.

Section LogsModel.
Context (field : Z) (tape : nat -> Z).
Context (ws : list worker) (cp : worker) (Hws : ws <> []).

(** The model cell: every parameter is encoded, then every encoding is
    shared. *)
Lemma logs_share_model (net : Net) :
  logs (share_model field tape net ws cp)
    (fun m es => exists groups,
       Forall3 (param_shared field tape ws cp) net (params m) groups
       /\ es = map (fun t => FixPrecision t default_precision) net ++ concat groups).
Proof.
  intros w. unfold share_model.
  rewrite bind_unfold, for_list_fix_precision. cbv beta iota.
  destruct (for_list_share field tape default_precision ws cp Hws net
              (World (drawn w)
                 (trace w ++ map (fun t => FixPrecision t default_precision) net)))
    as (hs & w' & groups & E & T & HF).
  rewrite bind_unfold, E. cbn [trace] in T.
  eexists _, w', _. split; [reflexivity |]. split.
  { rewrite T, <- app_assoc. reflexivity. }
  exists groups. split; [| reflexivity]. cbn [params].
  clear -HF. induction HF as [| t h g net hs groups (pos & -> & ->) _ IH]; cbn [map].
  - constructor.
  - constructor; [| exact IH]. exists pos. split; reflexivity.
Qed.

(** [get_private_data_loaders]: the events are those of the entries of
    the train loader, then those of the entries of the test loader. *)
Lemma logs_get_private_data_loaders (pf : nat) (mnist_train mnist_test : list sample)
    train_loader test_loader :
  Forall (fun s => 0 <= snd s < 10)%Z mnist_train ->
  DataLoader mnist_train (batch_size args) = Some train_loader ->
  DataLoader mnist_test (test_batch_size args) = Some test_loader ->
  logs (get_private_data_loaders field tape pf ws cp mnist_train mnist_test)
    (fun loaders es => exists ltrain ltest,
       Forall3 (train_entry_log (secret_shared field tape pf ws cp))
         (take 10 train_loader) (fst loaders) ltrain
       /\ Forall3 (test_entry_log (secret_shared field tape pf ws cp))
            (take 10 test_loader) (snd loaders) ltest
       /\ es = concat ltrain ++ concat ltest).
Proof.
  intros Hd Htr Hte w. unfold get_private_data_loaders.
  rewrite Htr, Hte. rewrite bind_unfold. cbn [lift].
  assert (Hdl : Forall digit_labels (take (10 - 0) train_loader)).
  { apply Forall_take. eapply DataLoader_digit_labels; eauto. }
  destruct (logs_private_train field tape pf ws cp Hws train_loader 0 Hdl w)
    as (tl & w1 & new1 & E1 & T1 & g1 & F1 & ->).
  rewrite bind_unfold, E1, bind_unfold. cbn [lift].
  destruct (logs_private_test field tape pf ws cp Hws test_loader 0 w1)
    as (te & w2 & new2 & E2 & T2 & g2 & F2 & ->).
  rewrite bind_unfold, E2.
  eexists _, w2, _. split; [reflexivity |]. split.
  { rewrite T2, T1, <- app_assoc. reflexivity. }
  exists g1, g2. auto.
Qed.

End LogsModel.

(** *** Training and testing *)

Section Training.
Context (train_loader test_loader : list (shared * shared)).

#[local] Abbreviation training := (training_event train_loader test_loader).

Lemma emits_train_batch o epoch m idx batch :
  In batch train_loader ->
  emits training (train_batch args o epoch m idx batch) (fun _ => True).
Proof.
  intros Hin. destruct batch as [data target]. unfold train_batch.
  assert (Hloss : is_loss train_loader (loss_expr (params m) (data, target))).
  { exists (params m), (data, target). auto. }
  apply (emits_bind _ _ _ (fun _ => True)); [now apply emits_guard |].
  intros _ _.
  apply (emits_bind _ _ _ (fun _ => True)).
  { destruct (idx mod log_interval args =? 0); [| now apply emits_ret].
    apply (emits_bind _ _ _ (fun _ => True)); [apply emits_emit; cbn; auto |].
    intros _ _.
    apply (emits_bind _ _ _ (fun _ => True)); [apply emits_emit; cbn; auto |].
    intros _ _. apply emits_emit; cbn; auto. }
  intros _ _. now apply emits_ret.
Qed.

Lemma emits_train_from o epoch (l : list (shared * shared)) :
  forall m idx,
  (forall b, In b l -> In b train_loader) ->
  emits training (train_from args o epoch m idx l) (fun _ => True).
Proof.
  induction l as [| b rest IH]; intros m idx Hin; cbn [train_from].
  - now apply emits_ret.
  - apply (emits_bind _ _ _ (fun _ => True)).
    + apply emits_train_batch. apply Hin. now left.
    + intros m' _. apply IH. intros b' Hb'. apply Hin. now right.
Qed.

Lemma add_count_shr (m : model) (l : list (shared * shared)) (c : expr) :
  exists x,
    fold_left (fun c batch => add_count c (batch_correct m batch)) l (Shr c) = Shr x.
Proof.
  revert c. induction l as [| b rest IH]; intros c; cbn [fold_left].
  - now exists c.
  - apply IH.
Qed.

(** After a first batch [correct] is a shared tensor. *)
Lemma correct_count_shr (m : model) (l : list (shared * shared)) :
  l <> [] -> exists x, correct_count m l = Shr x.
Proof.
  destruct l as [| b rest]; [congruence |]. intros _.
  unfold correct_count. cbn [fold_left add_count]. apply add_count_shr.
Qed.

Lemma emits_test m :
  test_loader <> [] -> emits training (test args m test_loader) (fun _ => True).
Proof.
  intros Hne. unfold test.
  destruct (correct_count_shr m test_loader Hne) as [x Hx].
  unfold correct_count in Hx. rewrite Hx.
  assert (Hc : is_correct test_loader x) by (now exists m).
  apply (emits_bind _ _ _ (fun _ => True)); [apply emits_emit; cbn; auto |].
  intros _ _.
  apply (emits_bind _ _ _ (fun _ => True)); [apply emits_emit; cbn; auto |].
  intros _ _.
  apply (emits_bind _ _ _ (fun _ => True)).
  { apply emits_guard; [| exact I]. destruct test_loader; [congruence | reflexivity]. }
  intros _ _. apply emits_emit; cbn; auto.
Qed.

Lemma emits_epochs_from o (n : nat) :
  forall m epoch,
  test_loader <> [] ->
  emits training (epochs_from args o m train_loader test_loader epoch n) (fun _ => True).
Proof.
  induction n as [| n IH]; intros m epoch Hne; cbn [epochs_from].
  - now apply emits_ret.
  - apply (emits_bind _ _ _ (fun _ => True)).
    { unfold train. now apply emits_train_from. }
    intros m' _.
    apply (emits_bind _ _ _ (fun _ => True)); [now apply emits_test |].
    intros _ _. now apply IH.
Qed.

End Training.

(** *** The workers *)

Lemma workers_ids : map id workers = ["worker1"; "worker2"].
Proof. reflexivity. Qed.

Lemma workers_nonempty : workers <> [].
Proof. discriminate. Qed.

Lemma crypto_provider_not_a_worker (n : nat) :
  ~ In (id connect_to_crypto_provider) (map id (connect_to_workers n)).
Proof.
  unfold connect_to_workers. rewrite map_map. intros H.
  apply in_map_iff in H as (i & Hi & _). cbn in Hi. discriminate Hi.
Qed.

(** *** The cells before the training *)

Lemma Forall2_Forall {A B} (R : A -> B -> Prop) (P : A -> Prop) (Q : B -> Prop) l k :
  Forall2 R l k -> Forall P l -> (forall x y, R x y -> P x -> Q y) -> Forall Q k.
Proof.
  intros HR HP H. induction HR as [| x y l k Hxy _ IH]; [constructor |].
  inversion HP; subst. constructor; eauto.
Qed.

Lemma examples_rows (n : nat) (loader : list (shared * shared)) :
  Forall (fun e => rows (fst e) = n) loader -> examples loader = length loader * n.
Proof.
  induction 1 as [| e l He _ IH]; [reflexivity |].
  cbn [examples foldr length]. fold (examples l). rewrite He, IH. lia.
Qed.

Section Notebook.
Context (field : Z) (tape : nat -> Z).

#[local] Abbreviation sharing pf := (sharing_of field tape pf workers crypto_provider).
#[local] Abbreviation setup_event := (sharing_event workers crypto_provider).

(** The cells that build the loaders and share the model return; the
    loaders hold sharings of the first ten batches of each data loader,
    and the model sharings of the parameters. *)
Lemma emits_setup (mnist_train mnist_test : list sample) (net : Net)
    train_loader test_loader :
  Forall (fun s => 0 <= snd s < 10)%Z mnist_train ->
  DataLoader mnist_train (batch_size args) = Some train_loader ->
  DataLoader mnist_test (test_batch_size args) = Some test_loader ->
  emits setup_event (setup field tape mnist_train mnist_test net)
    (fun s =>
       Forall2 (train_entry (sharing 3)) (take 10 train_loader) (fst (fst s))
       /\ Forall2 (test_entry (sharing 3)) (take 10 test_loader) (snd (fst s))
       /\ Forall2 (fun t p => exists h, p = Val h /\ sharing default_precision t h)
            net (params (snd s))).
Proof.
  intros Hd Htr Hte. unfold setup.
  eapply emits_bind.
  { apply (emits_get_private_data_loaders field tape 3 workers crypto_provider
             workers_nonempty mnist_train mnist_test train_loader test_loader); assumption. }
  intros loaders [Htl Hte'].
  eapply emits_bind; [apply emits_share_model, workers_nonempty |].
  intros m Hm. apply emits_ret. auto.
Qed.

(** A dataset that is not empty gives a test loader that is not empty. *)
Lemma private_test_loader_nonempty (mnist_test : list sample) test_loader
    (R : tensor Q -> shared -> Prop) te :
  mnist_test <> [] ->
  DataLoader mnist_test (test_batch_size args) = Some test_loader ->
  Forall2 (test_entry R) (take 10 test_loader) te -> te <> [].
Proof.
  intros Hne. rewrite DataLoader_batches by (cbn; lia). intros [= <-] H.
  destruct mnist_test as [| x l]; [congruence |].
  cbn in H. inversion H. discriminate.
Qed.

(** The whole notebook returns; the events of its first cells are those
    of encoding and sharing, the events of the training those of [train]
    and [test]. *)
Lemma notebook_run (mnist_train mnist_test : list sample) (net : Net) w :
  Forall (fun s => 0 <= snd s < 10)%Z mnist_train ->
  mnist_test <> [] ->
  exists train_loader test_loader tl te m0 w1 new1 m w2 new2,
    DataLoader mnist_train (batch_size args) = Some train_loader
    /\ DataLoader mnist_test (test_batch_size args) = Some test_loader
    /\ setup field tape mnist_train mnist_test net w = (Some (tl, te, m0), w1)
    /\ trace w1 = trace w ++ new1
    /\ Forall setup_event new1
    /\ Forall2 (train_entry (sharing 3)) (take 10 train_loader) tl
    /\ Forall2 (test_entry (sharing 3)) (take 10 test_loader) te
    /\ Forall2 (fun t p => exists h, p = Val h /\ sharing default_precision t h)
         net (params m0)
    /\ notebook field tape mnist_train mnist_test net w = (Some m, w2)
    /\ trace w2 = trace w1 ++ new2
    /\ Forall (training_event tl te) new2.
Proof.
  intros Hd Hne.
  pose proof (DataLoader_batches mnist_train (batch_size args)) as Htr.
  pose proof (DataLoader_batches mnist_test (test_batch_size args)) as Hte.
  specialize (Htr ltac:(cbn; lia)). specialize (Hte ltac:(cbn; lia)).
  destruct (emits_setup mnist_train mnist_test net _ _ Hd Htr Hte w)
    as ([[tl te] m0] & w1 & new1 & E1 & T1 & F1 & H1 & H2 & H3).
  cbn [fst snd] in H1, H2, H3.
  assert (Hte' : te <> []) by (eapply private_test_loader_nonempty; eauto).
  destruct (emits_epochs_from tl te (make_optimizer field args) (epochs args) m0 1 Hte' w1)
    as (m & w2 & new2 & E2 & T2 & F2 & _).
  eexists _, _, tl, te, m0, w1, new1, m, w2, new2.
  repeat (split; [eassumption |]). split; [| split; assumption].
  unfold notebook, mbind, M_bind, bind. rewrite E1. exact E2.
Qed.

Lemma train_entry_impl (R R' : tensor Q -> shared -> Prop) batch entry :
  (forall t h, R t h -> R' t h) -> train_entry R batch entry -> train_entry R' batch entry.
Proof. intros H [H1 (onehot & Ho & H2)]. split; [auto |]. exists onehot. auto. Qed.

Lemma test_entry_impl (R R' : tensor Q -> shared -> Prop) batch entry :
  (forall t h, R t h -> R' t h) -> test_entry R batch entry -> test_entry R' batch entry.
Proof. intros H [H1 H2]. split; auto. Qed.

Lemma sharing_of_held_by pf t h :
  sharing pf t h -> held_by workers crypto_provider h.
Proof.
  intros [pos ->]. split; [| reflexivity]. cbn [shares share_handle].
  apply fst_zip. now rewrite generate_shares_length, length_map.
Qed.

(** C9. With MNIST datasets of at least 640 items, whose training labels
    are digits, [get_private_data_loaders] returns, and each private
    loader holds exactly the first ceil(640 / 64) = 10 batches of its
    data loader, shared, hence 640 examples; the other batches are
    dropped. *)
Theorem private_loaders_truncated (mnist_train mnist_test : list sample) w :
  n_train_items <= length mnist_train ->
  n_test_items <= length mnist_test ->
  Forall (fun s => 0 <= snd s < 10)%Z mnist_train ->
  exists train_loader test_loader private_train_loader private_test_loader w',
    DataLoader mnist_train (batch_size args) = Some train_loader
    /\ DataLoader mnist_test (test_batch_size args) = Some test_loader
    /\ get_private_data_loaders field tape (precision_fractional args) workers
         crypto_provider mnist_train mnist_test w
       = (Some (private_train_loader, private_test_loader), w')
    /\ (n_train_items + batch_size args - 1) / batch_size args = 10
    /\ (n_test_items + test_batch_size args - 1) / test_batch_size args = 10
    /\ Forall2 (train_entry (sharing 3)) (take 10 train_loader) private_train_loader
    /\ Forall2 (test_entry (sharing 3)) (take 10 test_loader) private_test_loader
    /\ length private_train_loader = 10
    /\ length private_test_loader = 10
    /\ examples private_train_loader = n_train_items
    /\ examples private_test_loader = n_test_items.
Proof.
  intros Hntr Hnte Hd.
  pose proof (DataLoader_batches mnist_train (batch_size args)) as Htr.
  pose proof (DataLoader_batches mnist_test (test_batch_size args)) as Hte.
  specialize (Htr ltac:(cbn; lia)). specialize (Hte ltac:(cbn; lia)).
  destruct (emits_get_private_data_loaders field tape 3 workers crypto_provider
              workers_nonempty mnist_train mnist_test _ _ Hd Htr Hte w)
    as ([tl te] & w' & new & E & _ & _ & H1 & H2).
  cbn [fst snd] in H1, H2.
  destruct (DataLoader_full mnist_train 64 10 _ ltac:(lia) Hntr Htr) as [L1 F1].
  destruct (DataLoader_full mnist_test 64 10 _ ltac:(lia) Hnte Hte) as [L2 F2].
  assert (Hl1 : length tl = 10) by (apply Forall2_length in H1; lia).
  assert (Hl2 : length te = 10) by (apply Forall2_length in H2; lia).
  eexists _, _, tl, te, w'.
  split; [exact Htr |]. split; [exact Hte |]. split; [exact E |].
  split; [reflexivity |]. split; [reflexivity |].
  split; [exact H1 |]. split; [exact H2 |]. split; [exact Hl1 |]. split; [exact Hl2 |].
  split.
  - rewrite (examples_rows 64), Hl1; [reflexivity |].
    eapply Forall2_Forall; [exact H1 | exact F1 |].
    intros b e [Hs _] Hb. unfold rows.
    now rewrite (sharing_of_shape _ _ _ _ _ _ _ Hs).
  - rewrite (examples_rows 64), Hl2; [reflexivity |].
    eapply Forall2_Forall; [exact H2 | exact F2 |].
    intros b e [Hs _] Hb. unfold rows.
    now rewrite (sharing_of_shape _ _ _ _ _ _ _ Hs).
Qed.

(** C2. Every tensor of the private loaders (the inputs and the one-hot
    labels of the first ten training batches, the inputs and the labels
    of the first ten test batches) is held in fixed precision 3, shared
    between the workers, and so is every parameter of the model, in the
    default precision: the shares are tensors of integers of the ring,
    one per worker, and sum in the ring to the fixed precision encoding
    of the tensor.  The learning rate of the optimiser is an integer of
    the ring as well.

    The events of these cells are exactly those of encoding, then
    sharing, each of these tensors, in order: for every entry of a
    loader, [fix_precision] on the input, [share] on its encoding and a
    share sent to each worker, then the same for the labels; for the
    model, [fix_precision] on every parameter, then for every parameter
    [share] on its encoding and a share sent to each worker.  What
    [share] is called on is the encoding, never the tensor of reals, and
    the shares sent are those the loaders and the model hold: worker1's
    is drawn from the random source, worker2's is the encoding less
    worker1's share, in the ring. *)
Theorem data_and_model_encoded_then_shared
    (mnist_train mnist_test : list sample) (net : Net) w :
  (0 < field)%Z ->
  Forall (fun s => 0 <= snd s < 10)%Z mnist_train ->
  exists train_loader test_loader private_train_loader private_test_loader m w',
    DataLoader mnist_train (batch_size args) = Some train_loader
    /\ DataLoader mnist_test (test_batch_size args) = Some test_loader
    /\ setup field tape mnist_train mnist_test net w
       = (Some (private_train_loader, private_test_loader, m), w')
    /\ precision_fractional args = 3
    /\ Forall2 (train_entry (encoded_then_shared field 3 workers))
         (take 10 train_loader) private_train_loader
    /\ Forall2 (test_entry (encoded_then_shared field 3 workers))
         (take 10 test_loader) private_test_loader
    /\ Forall2 (fun t p => exists h,
                  p = Val h /\ encoded_then_shared field default_precision workers t h)
         net (params m)
    /\ rate (make_optimizer field args) = encode field default_precision (lr args)
    /\ in_ring field (rate (make_optimizer field args))
    /\ (exists ltrain ltest lmodel,
          Forall3 (train_entry_log (secret_shared field tape 3 workers crypto_provider))
            (take 10 train_loader) private_train_loader ltrain
          /\ Forall3 (test_entry_log (secret_shared field tape 3 workers crypto_provider))
               (take 10 test_loader) private_test_loader ltest
          /\ Forall3 (param_shared field tape workers crypto_provider)
               net (params m) lmodel
          /\ trace w' = trace w ++ concat ltrain ++ concat ltest
                        ++ map (fun t => FixPrecision t default_precision) net
                        ++ concat lmodel)
    /\ (forall pf pos t,
          let enc := map (encode field pf) (data t) in
          let r := random_tensor field tape pos (length enc) in
          shares (share_handle field tape pf workers crypto_provider pos t)
          = [("worker1", r);
             ("worker2", map (fun x => (x mod field)%Z) (sub_mod field enc r))]).
Proof.
  intros Hf Hd.
  pose proof (DataLoader_batches mnist_train (batch_size args)) as Htr.
  pose proof (DataLoader_batches mnist_test (test_batch_size args)) as Hte.
  specialize (Htr ltac:(cbn; lia)). specialize (Hte ltac:(cbn; lia)).
  destruct (emits_setup mnist_train mnist_test net _ _ Hd Htr Hte w)
    as ([[tl te] m] & w' & new & E & _ & _ & H1 & H2 & H3).
  cbn [fst snd] in H1, H2, H3.
  destruct (logs_get_private_data_loaders field tape workers crypto_provider
              workers_nonempty 3 mnist_train mnist_test _ _ Hd Htr Hte w)
    as ([tl' te'] & w0 & new0 & E0 & T0 & g1 & g2 & F1 & F2 & ->).
  cbn [fst snd] in F1, F2.
  destruct (logs_share_model field tape workers crypto_provider workers_nonempty net w0)
    as (m' & w1 & new1 & E1 & T1 & g3 & F3 & ->).
  assert (E' : setup field tape mnist_train mnist_test net w = (Some (tl', te', m'), w1)).
  { unfold setup. change (precision_fractional args) with 3.
    rewrite bind_unfold, E0, bind_unfold, E1. reflexivity. }
  rewrite E in E'. injection E' as -> -> -> ->.
  assert (Henc : forall pf t h, sharing pf t h -> encoded_then_shared field pf workers t h).
  { intros pf t h. apply sharing_of_encoded; [exact workers_nonempty | exact Hf]. }
  eexists _, _, tl', te', m', w1.
  split; [exact Htr |]. split; [exact Hte |]. split; [exact E |]. split; [reflexivity |].
  split; [| split; [| split; [| split; [| split; [| split]]]]].
  - eapply Forall2_impl; [exact H1 |]. intros b e. apply train_entry_impl, Henc.
  - eapply Forall2_impl; [exact H2 |]. intros b e. apply test_entry_impl, Henc.
  - eapply Forall2_impl; [exact H3 |]. intros t p (h & -> & Hs). exists h. auto.
  - reflexivity.
  - now apply encode_in_ring.
  - exists g1, g2, g3. split; [exact F1 |]. split; [exact F2 |]. split; [exact F3 |].
    rewrite T1, T0, <- !app_assoc. reflexivity.
  - intros pf pos t. reflexivity.
Qed.

Lemma share_receivers_ok (ws : list worker) (cp : worker) (new : list event) :
  Forall (share_call_ok ws cp) new ->
  Forall (fun d => In d (map id ws)) (share_receivers new).
Proof.
  induction 1 as [| e l He _ IH]; [constructor |].
  destruct e; cbn in *; auto.
Qed.

Lemma setup_event_share_ok e : setup_event e -> share_call_ok workers crypto_provider e.
Proof. destruct e; cbn; auto. Qed.

Lemma training_event_share_ok tl te e :
  training_event tl te e -> share_call_ok workers crypto_provider e.
Proof. destruct e; cbn; auto; contradiction. Qed.

(** C5. The crypto provider is none of the workers [connect_to_workers]
    makes, however many.  Through the whole notebook every call of
    [share] names worker1 and worker2 as the owners of the shares and the
    crypto provider as [crypto_provider] only; every share is sent to
    worker1 or worker2 and none to the crypto provider; and the shares of
    every loader entry and of every parameter are held by worker1 and
    worker2. *)
Theorem crypto_provider_receives_no_share
    (mnist_train mnist_test : list sample) (net : Net) w :
  Forall (fun s => 0 <= snd s < 10)%Z mnist_train ->
  mnist_test <> [] ->
  (forall n, ~ In (id connect_to_crypto_provider) (map id (connect_to_workers n)))
  /\ exists private_train_loader private_test_loader m0 w1 m w' new,
       setup field tape mnist_train mnist_test net w
         = (Some (private_train_loader, private_test_loader, m0), w1)
       /\ notebook field tape mnist_train mnist_test net w = (Some m, w')
       /\ trace w' = trace w ++ new
       /\ Forall (share_call_ok workers crypto_provider) new
       /\ Forall (fun d => d = "worker1" \/ d = "worker2") (share_receivers new)
       /\ ~ In (id crypto_provider) (share_receivers new)
       /\ Forall (fun e => held_by workers crypto_provider (fst e)
                           /\ held_by workers crypto_provider (snd e))
            (private_train_loader ++ private_test_loader)
       /\ Forall (fun p => exists h, p = Val h /\ held_by workers crypto_provider h)
            (params m0).
Proof.
  intros Hd Hne. split; [exact crypto_provider_not_a_worker |].
  destruct (notebook_run mnist_train mnist_test net w Hd Hne)
    as (trl & tel & tl & te & m0 & w1 & new1 & m & w2 & new2
        & _ & _ & E1 & T1 & F1 & H1 & H2 & H3 & E2 & T2 & F2).
  assert (Hall : Forall (share_call_ok workers crypto_provider) (new1 ++ new2)).
  { apply Forall_app. split.
    - eapply Forall_impl; [exact F1 | exact setup_event_share_ok].
    - eapply Forall_impl; [exact F2 | apply training_event_share_ok]. }
  pose proof (share_receivers_ok _ _ _ Hall) as Hrecv.
  exists tl, te, m0, w1, m, w2, (new1 ++ new2).
  split; [exact E1 |]. split; [exact E2 |].
  split; [now rewrite T2, T1, app_assoc |]. split; [exact Hall |].
  split; [| split; [| split]].
  - eapply Forall_impl; [exact Hrecv |]. cbn. intros d [<- | [<- | []]]; auto.
  - intros Hin. rewrite Forall_forall in Hrecv.
    apply list_elem_of_In, Hrecv in Hin. cbn in Hin.
    destruct Hin as [Hin | [Hin | []]]; discriminate Hin.
  - apply Forall_app. split.
    + eapply Forall2_Forall; [exact H1 | apply Forall_true; exact (fun _ => I) |].
      intros b e [Ha (onehot & _ & Hb)] _.
      split; eapply sharing_of_held_by; eauto.
    + eapply Forall2_Forall; [exact H2 | apply Forall_true; exact (fun _ => I) |].
      intros b e [Ha Hb] _. split; eapply sharing_of_held_by; eauto.
  - eapply Forall2_Forall; [exact H3 | apply Forall_true; exact (fun _ => I) |].
    intros t p (h & -> & Hs) _. exists h. split; [reflexivity |].
    eapply sharing_of_held_by; eauto.
Qed.

Lemma setup_reconstructs_nothing (new : list event) :
  Forall setup_event new -> reconstructed new = [].
Proof.
  induction 1 as [| e l He _ IH]; [reflexivity |].
  destruct e; cbn in *; auto; contradiction.
Qed.

Lemma training_handles_no_plaintext tl te (new : list event) :
  Forall (training_event tl te) new ->
  local_plaintexts new = [] /\ share_receivers new = []
  /\ Forall (fun x => is_loss tl x \/ is_correct te x) (reconstructed new).
Proof.
  induction 1 as [| e l He _ (IH1 & IH2 & IH3)]; [repeat split; constructor |].
  destruct e; cbn in *; auto; contradiction.
Qed.

(** C4, as the code has it.  The cells that build the loaders and share
    the model reconstruct nothing, and leave every input and label tensor
    of the private loaders shared between worker1 and worker2.  From then
    on, through all the epochs, [train] and [test] encode no plaintext
    tensor and share nothing, and what they reconstruct with [get] is the
    loss of a training batch or the count of correct predictions over the
    test loader, nothing else. *)
Theorem training_reconstructs_only_loss_and_count
    (mnist_train mnist_test : list sample) (net : Net) w :
  Forall (fun s => 0 <= snd s < 10)%Z mnist_train ->
  mnist_test <> [] ->
  exists private_train_loader private_test_loader m0 w1 before m w' during,
    setup field tape mnist_train mnist_test net w
      = (Some (private_train_loader, private_test_loader, m0), w1)
    /\ trace w1 = trace w ++ before
    /\ notebook field tape mnist_train mnist_test net w = (Some m, w')
    /\ trace w' = trace w1 ++ during
    /\ reconstructed before = []
    /\ Forall (fun e => held_by workers crypto_provider (fst e)
                        /\ held_by workers crypto_provider (snd e))
         (private_train_loader ++ private_test_loader)
    /\ local_plaintexts during = []
    /\ share_receivers during = []
    /\ Forall (fun x => is_loss private_train_loader x \/ is_correct private_test_loader x)
         (reconstructed during).
Proof.
  intros Hd Hne.
  destruct (notebook_run mnist_train mnist_test net w Hd Hne)
    as (trl & tel & tl & te & m0 & w1 & new1 & m & w2 & new2
        & _ & _ & E1 & T1 & F1 & H1 & H2 & _ & E2 & T2 & F2).
  destruct (training_handles_no_plaintext tl te new2 F2) as (P1 & P2 & P3).
  exists tl, te, m0, w1, new1, m, w2, new2.
  split; [exact E1 |]. split; [exact T1 |]. split; [exact E2 |]. split; [exact T2 |].
  split; [now apply setup_reconstructs_nothing |].
  split; [| auto].
  apply Forall_app. split.
  - eapply Forall2_Forall; [exact H1 | apply Forall_true; exact (fun _ => I) |].
    intros b e [Ha (onehot & _ & Hb)] _. split; eapply sharing_of_held_by; eauto.
  - eapply Forall2_Forall; [exact H2 | apply Forall_true; exact (fun _ => I) |].
    intros b e [Ha Hb] _. split; eapply sharing_of_held_by; eauto.
Qed.

End Notebook.

(** *** The theorems at concrete inputs *)

Lemma thousand_images_digits :
  Forall (fun s : sample => 0 <= snd s < 10)%Z thousand_images.
Proof.
  apply Forall_forall. intros s Hs. apply list_elem_of_In, repeat_spec in Hs.
  subst s. cbn. lia.
Defined.

Lemma one_seven_digits : Forall (fun s : sample => 0 <= snd s < 10)%Z one_seven.
Proof. constructor; [cbn; lia | constructor]. Defined.

(** On 1000 items the data loaders have 16 batches each, of which the
    private loaders keep the first 10. *)
Lemma private_loaders_truncated_witness :
  exists train_loader test_loader private_train_loader private_test_loader w',
    (DataLoader thousand_images (batch_size args) = Some train_loader
     /\ DataLoader thousand_images (test_batch_size args) = Some test_loader
     /\ get_private_data_loaders ring64 counting_tape (precision_fractional args) workers
          crypto_provider thousand_images thousand_images start
        = (Some (private_train_loader, private_test_loader), w')
     /\ (n_train_items + batch_size args - 1) / batch_size args = 10
     /\ (n_test_items + test_batch_size args - 1) / test_batch_size args = 10
     /\ Forall2 (train_entry (sharing_of ring64 counting_tape 3 workers crypto_provider))
          (take 10 train_loader) private_train_loader
     /\ Forall2 (test_entry (sharing_of ring64 counting_tape 3 workers crypto_provider))
          (take 10 test_loader) private_test_loader
     /\ length private_train_loader = 10
     /\ length private_test_loader = 10
     /\ examples private_train_loader = n_train_items
     /\ examples private_test_loader = n_test_items)
    /\ length thousand_images = 1000
    /\ length train_loader = 16
    /\ length test_loader = 16.
Proof.
  destruct (private_loaders_truncated ring64 counting_tape thousand_images thousand_images
              start)
    as (trl & tel & tl & te & w' & H1 & H2 & H).
  - unfold thousand_images. rewrite repeat_length. unfold n_train_items. lia.
  - unfold thousand_images. rewrite repeat_length. unfold n_test_items. lia.
  - exact thousand_images_digits.
  - exists trl, tel, tl, te, w'. split; [split; [exact H1 | split; [exact H2 | exact H]] |].
    split; [apply repeat_length |].
    rewrite (DataLoader_length _ _ _ (Nat.lt_0_succ 63) H1).
    rewrite (DataLoader_length _ _ _ (Nat.lt_0_succ 63) H2).
    unfold thousand_images. rewrite repeat_length. split; reflexivity.
Defined.

Lemma data_and_model_encoded_then_shared_witness :
  exists train_loader test_loader private_train_loader private_test_loader m w',
    DataLoader one_seven (batch_size args) = Some train_loader
    /\ DataLoader one_seven (test_batch_size args) = Some test_loader
    /\ setup ring64 counting_tape one_seven one_seven one_parameter start
       = (Some (private_train_loader, private_test_loader, m), w')
    /\ precision_fractional args = 3
    /\ Forall2 (train_entry (encoded_then_shared ring64 3 workers))
         (take 10 train_loader) private_train_loader
    /\ Forall2 (test_entry (encoded_then_shared ring64 3 workers))
         (take 10 test_loader) private_test_loader
    /\ Forall2 (fun t p => exists h,
                  p = Val h /\ encoded_then_shared ring64 default_precision workers t h)
         one_parameter (params m)
    /\ rate (make_optimizer ring64 args) = encode ring64 default_precision (lr args)
    /\ in_ring ring64 (rate (make_optimizer ring64 args))
    /\ (exists ltrain ltest lmodel,
          Forall3 (train_entry_log
                     (secret_shared ring64 counting_tape 3 workers crypto_provider))
            (take 10 train_loader) private_train_loader ltrain
          /\ Forall3 (test_entry_log
                        (secret_shared ring64 counting_tape 3 workers crypto_provider))
               (take 10 test_loader) private_test_loader ltest
          /\ Forall3 (param_shared ring64 counting_tape workers crypto_provider)
               one_parameter (params m) lmodel
          /\ trace w' = trace start ++ concat ltrain ++ concat ltest
                        ++ map (fun t => FixPrecision t default_precision) one_parameter
                        ++ concat lmodel)
    /\ (forall pf pos t,
          let enc := map (encode ring64 pf) (data t) in
          let r := random_tensor ring64 counting_tape pos (length enc) in
          shares (share_handle ring64 counting_tape pf workers crypto_provider pos t)
          = [("worker1", r);
             ("worker2", map (fun x => (x mod ring64)%Z) (sub_mod ring64 enc r))]).
Proof.
  apply (data_and_model_encoded_then_shared ring64 counting_tape
           one_seven one_seven one_parameter start).
  - reflexivity.
  - exact one_seven_digits.
Defined.

Lemma crypto_provider_receives_no_share_witness :
  (forall n, ~ In (id connect_to_crypto_provider) (map id (connect_to_workers n)))
  /\ exists private_train_loader private_test_loader m0 w1 m w' new,
       setup ring64 counting_tape one_seven one_seven one_parameter start
         = (Some (private_train_loader, private_test_loader, m0), w1)
       /\ notebook ring64 counting_tape one_seven one_seven one_parameter start
          = (Some m, w')
       /\ trace w' = trace start ++ new
       /\ Forall (share_call_ok workers crypto_provider) new
       /\ Forall (fun d => d = "worker1" \/ d = "worker2") (share_receivers new)
       /\ ~ In (id crypto_provider) (share_receivers new)
       /\ Forall (fun e => held_by workers crypto_provider (fst e)
                           /\ held_by workers crypto_provider (snd e))
            (private_train_loader ++ private_test_loader)
       /\ Forall (fun p => exists h, p = Val h /\ held_by workers crypto_provider h)
            (params m0).
Proof.
  apply (crypto_provider_receives_no_share ring64 counting_tape
           one_seven one_seven one_parameter start).
  - exact one_seven_digits.
  - discriminate.
Defined.

Lemma training_reconstructs_only_loss_and_count_witness :
  exists private_train_loader private_test_loader m0 w1 before m w' during,
    setup ring64 counting_tape one_seven one_seven one_parameter start
      = (Some (private_train_loader, private_test_loader, m0), w1)
    /\ trace w1 = trace start ++ before
    /\ notebook ring64 counting_tape one_seven one_seven one_parameter start
       = (Some m, w')
    /\ trace w' = trace w1 ++ during
    /\ reconstructed before = []
    /\ Forall (fun e => held_by workers crypto_provider (fst e)
                        /\ held_by workers crypto_provider (snd e))
         (private_train_loader ++ private_test_loader)
    /\ local_plaintexts during = []
    /\ share_receivers during = []
    /\ Forall (fun x => is_loss private_train_loader x \/ is_correct private_test_loader x)
         (reconstructed during).
Proof.
  apply (training_reconstructs_only_loss_and_count ring64 counting_tape
           one_seven one_seven one_parameter start).
  - exact one_seven_digits.
  - discriminate.
Defined.

(** C4, as stated, fails at a concrete input.  [get_private_data_loaders] runs
    in the notebook's own process: the batches it iterates over are plain
    torch tensors of that process, and it is that process that calls
    [fix_precision] on each of them before sharing.  On a training set of
    one image the plaintext batch, its one-hot label, the test batch and
    its label are all tensors the local party held and encoded. *)
Lemma local_process_holds_the_plaintext_batches :
  let r := get_private_data_loaders ring64 counting_tape 3 workers crypto_provider
             one_seven one_seven start in
  let image := Tensor [1; 1; 28; 28] (repeat (1 # 2)%Q 784) in
  is_Some (result r)
  /\ In image (local_plaintexts (trace (final r)))
  /\ local_plaintexts (trace (final r))
     = [ image;
         Tensor [1; 10] [0; 0; 0; 0; 0; 0; 0; 1; 0; 0]%Q;
         image;
         Tensor [1] [7%Q] ].
Proof.
  intros r image.
  assert (H : local_plaintexts (trace (final r))
              = [ image; Tensor [1; 10] [0; 0; 0; 0; 0; 0; 0; 1; 0; 0]%Q;
                  image; Tensor [1] [7%Q] ]) by (vm_compute; reflexivity).
  split; [| split; [| exact H]].
  - vm_compute. eexists. reflexivity.
  - rewrite H. now left.
Qed.

End EncryptedFacts.

(** * Further properties *)

(** ** Computations that raise *)

Module PyMore.
Import Py PyFacts.

Lemma raises_bind_l {S A B} (m : M S A) (k : A -> M S B) (s : S) Q :
  raises m s Q -> raises (m ≫= k) s Q.
Proof.
  intros (s' & Hm & HQ). exists s'. split; [| exact HQ].
  rewrite bind_unfold. now rewrite Hm.
Qed.

Lemma raises_bind_r {S A B} (m : M S A) (k : A -> M S B) (s : S) Q :
  runs m s (fun a s' => raises (k a) s' Q) -> raises (m ≫= k) s Q.
Proof.
  intros (a & s1 & Hm & s2 & Hk & HQ). exists s2. split; [| exact HQ].
  rewrite bind_unfold. now rewrite Hm.
Qed.

Lemma raises_lift {S A} (s : S) (Q : S -> Prop) : Q s -> raises (@lift S A None) s Q.
Proof. intros H. exists s. auto. Qed.

Lemma raises_guard {S} (b : bool) (s : S) (Q : S -> Prop) :
  b = false -> Q s -> raises (guard b) s Q.
Proof. intros -> H. exists s. auto. Qed.

Lemma runs_conj {S A} (m : M S A) (s : S) (Q Q' : A -> S -> Prop) :
  runs m s Q -> runs m s Q' -> runs m s (fun a s' => Q a s' /\ Q' a s').
Proof.
  intros (a & s1 & Hm & HQ) (a' & s1' & Hm' & HQ').
  rewrite Hm in Hm'. injection Hm' as <- <-. exists a, s1. auto.
Qed.

(** A list comprehension whose body, at position [j], takes the
    invariant from [n + j] to [n + S j] and returns [g (n + j) x]. *)
Lemma runs_for_list_imap {St A B} (l : list A) (f : A -> M St B)
    (I : nat -> St -> Prop) (g : nat -> A -> B) (n : nat) (s : St) :
  I n s ->
  (forall j x s0, l !! j = Some x -> I (n + j) s0 ->
     runs (f x) s0 (fun y s1 => y = g (n + j) x /\ I (n + S j) s1)) ->
  runs (for_list l f) s (fun ys s' =>
    ys = imap (fun j x => g (n + j) x) l /\ I (n + length l) s').
Proof.
  revert n s. induction l as [| x xs IH]; intros n s Hs Hf.
  - apply runs_ret. cbn. rewrite Nat.add_0_r. auto.
  - destruct (Hf 0 x s eq_refl) as (y & s1 & Hy & -> & H1).
    { now rewrite Nat.add_0_r. }
    destruct (IH (S n) s1) as (ys & s2 & Hys & -> & H2).
    { now rewrite Nat.add_1_r in H1. }
    { intros j x' s0 Hj H0. replace (S n + j) with (n + S j) in * by lia.
      replace (S n + S j) with (n + S (S j)) by lia. now apply Hf. }
    exists (g (n + 0) x :: imap (fun j x0 => g (S n + j) x0) xs), s2. split.
    + cbn [for_list]. unfold bind. rewrite Hy, Hys. reflexivity.
    + split.
      * cbn [imap]. f_equal. apply imap_ext. intros j x' _. cbn. f_equal. lia.
      * cbn [length]. now replace (n + S (length xs)) with (S n + length xs) by lia.
Qed.

(** A list comprehension raises when its body raises on an element. *)
Lemma for_list_raises {S A B} (l : list A) (f : A -> M S B) (x : A) :
  In x l -> (forall s, result (f x s) = None) ->
  forall s, result (for_list l f s) = None.
Proof.
  intros Hin Hx. induction l as [| y ys IH]; [destruct Hin |].
  intros s. cbn [for_list]. unfold bind.
  destruct Hin as [-> | Hin].
  - specialize (Hx s). destruct (f x s) as [[b |] s1]; [discriminate | reflexivity].
  - destruct (f y s) as [[b |] s1]; [| reflexivity].
    specialize (IH Hin s1). destruct (for_list ys f s1) as [[bs |] s2];
      [discriminate | reflexivity].
Qed.

End PyMore.

(** ** SplitNN: gradients, versions and failures *)

Module SplitNNMore.
Import Py Syft SplitNN PyFacts PyMore SplitNNFacts.

Lemma runs_step_exact (U : unit -> world -> Prop) w o g gs :
  param_grad w !! opt_model o = Some (g :: gs) ->
  U tt (set_model_ver (fun mv => <[opt_model o := S (default 0 (mv !! opt_model o))]> mv)
         (set_calls (fun c => c ++ [CStep o]) w)) ->
  runs (step o) w U.
Proof.
  intros Hg H. unfold step, called. wp.
  replace (param_grad (set_calls (fun l => l ++ [CStep o]) w) !! opt_model o)
    with (Some (g :: gs)) by (rewrite <- Hg; now destruct w).
  cbn [default]. wp. exact H.
Qed.

Lemma add_param_grad_fresh ga gl m0 m1 (pg : gmap nat (list (tval * option tval))) :
  m0 <> m1 ->
  let pg' := add_param_grad ga m0 (add_param_grad gl m1 (delete m1 (delete m0 pg))) in
  pg' !! m0 = Some [ga] /\ pg' !! m1 = Some [gl].
Proof.
  intros Hne pg'. subst pg'. unfold add_param_grad. split.
  - rewrite lookup_insert_eq, lookup_insert_ne, lookup_delete_ne, lookup_delete_eq by auto.
    reflexivity.
  - rewrite lookup_insert_ne, lookup_insert_eq, lookup_delete_eq by auto. reflexivity.
Qed.

(** One call of [train] when each optimiser holds the parameters of its
    own segment and the graphs of [x] and [target] reach no segment: the
    versions and the gradients the call leaves. *)
Lemma train_updates_spec w x target m0 m1 o0 o1 la lb :
  model_loc w !! m0 = Some la -> model_loc w !! m1 = Some lb ->
  location x = la -> location target = lb -> la <> me -> lb <> me ->
  m0 <> m1 -> opt_model o0 = m0 -> opt_model o1 = m1 ->
  models_in (value x) = [] -> models_in (value target) = [] ->
  let v0 := default 0 (model_ver w !! m0) in
  let v1 := default 0 (model_ver w !! m1) in
  let a := activation m0 v0 (value x) in
  let l := loss_value m0 v0 m1 v1 (value x) (value target) in
  let g := activation_grad m0 v0 m1 v1 (value x) (value target) in
  runs (train x target [m0; m1] [o0; o1]) w (fun r w' =>
    model_ver w' = <[m1 := S v1]> (<[m0 := S v0]> (model_ver w))
    /\ param_grad w' !! m0 = Some [(a, Some (Copy g))]
    /\ param_grad w' !! m1 = Some [(l, None)]).
Proof.
  intros H0 H1 Hx Ht Ha Hb Hne Ho0 Ho1 Hmx Hmt v0 v1 a l g.
  destruct x as [lx vx], target as [lt vt]. cbn [location value] in *. subst lx lt.
  unfold train.
  apply runs_bind, runs_for_each_cons, runs_zero_grad,
    runs_for_each_cons, runs_zero_grad, runs_for_each_nil.
  apply runs_bind. eapply runs_lift; [reflexivity |].
  apply runs_bind. apply (runs_forward _ _ m0 _ la); [exact H0 | reflexivity |].
  apply runs_bind, runs_detach.
  apply runs_bind. eapply runs_lift; [reflexivity |].
  apply runs_bind. apply (runs_model_location _ m1 lb); [exact H1 |].
  apply runs_bind, runs_move; [exact Ha |].
  apply runs_bind, runs_requires_grad_.
  apply runs_bind. eapply runs_lift; [reflexivity |].
  apply runs_bind. apply (runs_forward _ _ m1 _ lb); [exact H1 | reflexivity |].
  apply runs_bind, runs_NLLLoss; [reflexivity |].
  apply runs_bind, runs_backward; [exact I | discriminate |].
  apply runs_bind. eapply runs_grad; [reflexivity |].
  apply runs_bind. eapply runs_lift; [reflexivity |].
  apply runs_bind, runs_copy.
  apply runs_bind. eapply runs_lift; [reflexivity |].
  apply runs_bind. apply (runs_model_location _ m0 la); [exact H0 |].
  apply runs_bind, runs_move; [exact Hb |].
  apply runs_bind, runs_backward; [reflexivity | discriminate |].
  apply runs_bind, runs_for_each_cons.
  destruct w as [ml mv pg ag cs wi].
  eapply runs_step_exact.
  { unsetters. cbn [location value models_in leaves_in foldr app].
    rewrite Hmx, Hmt, Ho0, Ho1. cbn [foldr app].
    now apply add_param_grad_fresh. }
  apply runs_for_each_cons. eapply runs_step_exact.
  { unsetters. cbn [location value models_in leaves_in foldr app].
    rewrite Hmx, Hmt, Ho0, Ho1. cbn [foldr app].
    now apply add_param_grad_fresh. }
  apply runs_for_each_nil.
  apply runs_bind, runs_detach.
  apply runs_get; [exact Hb |].
  unsetters. cbn [location value models_in leaves_in foldr app].
  rewrite Hmx, Hmt, Ho0, Ho1. cbn [foldr app].
  split; [| now apply add_param_grad_fresh].
  rewrite lookup_insert_ne by exact Hne. reflexivity.
Qed.

(** *** The whole notebook, step by step *)

Lemma runs_train_batch_trained n k w :
  trained n w ->
  runs (train_batch k) w (fun r w' => r = batch_loss n k /\ trained (S n) w').
Proof.
  intros ((H0 & H1 & Hw) & Hv0 & Hv1 & Hlen). unfold train_batch.
  apply runs_bind, runs_send; [reflexivity |].
  apply runs_bind, runs_view.
  apply runs_bind, runs_send; [reflexivity |].
  eapply runs_weaken.
  - apply runs_conj.
    + apply (train_spec _ _ _ 0 1 (SGD 0 (3 # 100)) (SGD 1 (3 # 100)) "alice" "bob");
        solve [exact H0 | exact H1 | reflexivity | discriminate].
    + apply (train_updates_spec _ _ _ 0 1 (SGD 0 (3 # 100)) (SGD 1 (3 # 100))
               "alice" "bob");
        solve [exact H0 | exact H1 | reflexivity | discriminate].
  - cbn beta. intros r w' ((-> & Hloc & _ & Hwire) & Hver & _).
    unfold trained, segments_placed. rewrite Hloc, Hwire, Hver.
    destruct w as [ml mv pg ag cs wi]. unsetters. cbn [location value alice bob id] in *.
    rewrite Hv0, Hv1.
    split; [reflexivity |]. split.
    { split; [exact H0 |]. split; [exact H1 |].
      repeat (apply Forall_app; split); try exact Hw; repeat constructor. }
    split.
    { rewrite lookup_insert_ne, lookup_insert_eq by discriminate. reflexivity. }
    split; [now rewrite lookup_insert_eq |].
    unfold train_wire, moved. rewrite !bool_decide_eq_false_2 by discriminate.
    rewrite !length_app, Hlen. cbn [length]. lia.
Qed.

Lemma batches_seen_S order n :
  batches_seen order (S n) = batches_seen order n + length (order n).
Proof.
  unfold batches_seen. rewrite seq_S, map_app, sum_list_with_app. cbn. lia.
Qed.

Lemma runs_epoch_trained n batches w :
  batches <> [] -> trained n w ->
  runs (epoch batches) w (fun r w' =>
    r = epoch_losses n batches /\ trained (n + length batches) w').
Proof.
  intros Hne Hw. unfold epoch. apply runs_bind.
  eapply runs_weaken;
    [apply (runs_for_list_imap batches train_batch trained batch_loss n w Hw) |].
  - intros j k w0 _ H0. rewrite Nat.add_succ_r. now apply runs_train_batch_trained.
  - cbn beta. intros losses w' [-> Hw']. apply runs_bind, runs_guard.
    + destruct batches; [congruence | reflexivity].
    + apply runs_ret. auto.
Qed.

Lemma trained_sent_world : trained 0 sent_world.
Proof.
  split; [| repeat split].
  split; [reflexivity |]. split; [reflexivity |]. repeat constructor.
Qed.

(** The notebook when no epoch is empty: the losses it collects, and the
    state it ends in. *)
Lemma notebook_lockstep (order : nat -> list nat) :
  (forall i, i < epochs -> order i <> []) ->
  runs (notebook order) empty_world (fun r w =>
    r = map (fun i => epoch_losses (batches_seen order i) (order i)) (seq 0 epochs)
    /\ trained (batches_seen order epochs) w).
Proof.
  intros Hne. unfold notebook. apply runs_bind.
  exists tt, sent_world. split; [reflexivity |]. unfold training.
  eapply runs_weaken.
  - apply (runs_for_list_imap (seq 0 epochs) (fun i => epoch (order i))
             (fun i => trained (batches_seen order i))
             (fun _ i => epoch_losses (batches_seen order i) (order i)) 0 sent_world).
    + exact trained_sent_world.
    + intros j i w0 Hj Hw0. apply lookup_seq in Hj as [-> Hj].
      cbn [Nat.add] in *. rewrite batches_seen_S.
      apply runs_epoch_trained; [now apply Hne | exact Hw0].
  - cbn beta. intros r w [-> Hw]. rewrite length_seq in Hw. split; [| exact Hw].
    clear. generalize (seq 0 epochs). intros l.
    change (imap (fun (_ : nat) (i : nat) => epoch_losses (batches_seen order i) (order i)) l
            = map (fun i => epoch_losses (batches_seen order i) (order i)) l).
    apply imap_const.
Qed.

(** X1. The whole notebook, when no epoch is empty: it returns the
    losses of the fifteen epochs, the loss of the [n]-th training step
    overall being computed by both segments after exactly [n] updates
    each; at the end both segments have been updated once per batch,
    the transfers are the two that sent the segments and five per batch,
    and each is an allowed one: raw images reach alice only, raw labels
    bob only. *)
Theorem notebook_trains_in_lockstep (order : nat -> list nat) :
  (forall i, i < epochs -> order i <> []) ->
  exists w,
    notebook order empty_world
      = (Some (map (fun i => epoch_losses (batches_seen order i) (order i))
                 (seq 0 epochs)), w)
    /\ default 0 (model_ver w !! 0) = batches_seen order epochs
    /\ default 0 (model_ver w !! 1) = batches_seen order epochs
    /\ length (wire w) = 2 + 5 * batches_seen order epochs
    /\ Forall allowed (wire w).
Proof.
  intros Hne.
  destruct (notebook_lockstep order Hne) as (r & w & Hrun & -> & (_ & _ & Hw) & H0 & H1 & Hl).
  exists w. auto.
Qed.

Lemma notebook_trains_in_lockstep_witness :
  exists w,
    notebook (fun _ => [0; 1]) empty_world
      = (Some (map (fun i => epoch_losses (batches_seen (fun _ => [0; 1]) i) [0; 1])
                 (seq 0 epochs)), w)
    /\ default 0 (model_ver w !! 0) = 30
    /\ default 0 (model_ver w !! 1) = 30
    /\ length (wire w) = 152
    /\ Forall allowed (wire w).
Proof.
  apply (notebook_trains_in_lockstep (fun _ => [0; 1])). discriminate.
Defined.

Lemma epoch_empty w : epoch [] w = (None, w).
Proof. reflexivity. Qed.

(** X2. The notebook's training loop returns exactly when no epoch has
    an empty train loader: the mean loss printed at the end of an epoch
    divides by the number of batches. *)
Theorem notebook_returns_iff (order : nat -> list nat) :
  is_Some (result (notebook order empty_world))
  <-> forall i, i < epochs -> order i <> [].
Proof.
  split.
  - intros [r Hr] i Hi Hnil.
    assert (Hnone : result (training order sent_world) = None).
    { apply (for_list_raises (seq 0 epochs) (fun i => epoch (order i)) i).
      - apply in_seq. lia.
      - intros s. cbn beta. rewrite Hnil. reflexivity. }
    unfold notebook in Hr. rewrite bind_unfold in Hr.
    change (send_models empty_world) with (Some tt, sent_world) in Hr.
    cbn beta iota in Hr. congruence.
  - intros Hne. destruct (notebook_lockstep order Hne) as (r & w & Hrun & _).
    rewrite Hrun. now exists r.
Qed.

(** X3. One call of [train] with each optimiser on its own segment, on
    inputs whose graphs reach no segment: both segments are updated
    exactly once, and the gradient each holds afterwards is a single
    one, earlier gradients being erased.  The top segment holds the
    gradient of the loss; the bottom segment holds the gradient of its
    activation seeded by the copy that came back from the top segment's
    worker, and none of the loss itself: [detach] cut the graph. *)
Theorem train_updates_each_segment_once w x target m0 m1 o0 o1 la lb :
  model_loc w !! m0 = Some la -> model_loc w !! m1 = Some lb ->
  location x = la -> location target = lb -> la <> me -> lb <> me ->
  m0 <> m1 -> opt_model o0 = m0 -> opt_model o1 = m1 ->
  models_in (value x) = [] -> models_in (value target) = [] ->
  let v0 := default 0 (model_ver w !! m0) in
  let v1 := default 0 (model_ver w !! m1) in
  let a := activation m0 v0 (value x) in
  let l := loss_value m0 v0 m1 v1 (value x) (value target) in
  let g := activation_grad m0 v0 m1 v1 (value x) (value target) in
  exists r w',
    train x target [m0; m1] [o0; o1] w = (Some r, w')
    /\ model_ver w' = <[m1 := S v1]> (<[m0 := S v0]> (model_ver w))
    /\ param_grad w' !! m0 = Some [(a, Some (Copy g))]
    /\ param_grad w' !! m1 = Some [(l, None)].
Proof.
  intros H0 H1 Hx Ht Ha Hb Hne Ho0 Ho1 Hmx Hmt v0 v1 a l g.
  exact (train_updates_spec w x target m0 m1 o0 o1 la lb
           H0 H1 Hx Ht Ha Hb Hne Ho0 Ho1 Hmx Hmt).
Qed.

Lemma train_updates_each_segment_once_witness :
  let x := At "alice" (View (Images 0)) in
  let target := At "bob" (Labels 0) in
  exists r w',
    train x target models optimizers sent_world = (Some r, w')
    /\ model_ver w' = <[1 := 1]> (<[0 := 1]> (model_ver sent_world))
    /\ param_grad w' !! 0
       = Some [(activation 0 0 (value x),
                Some (Copy (activation_grad 0 0 1 0 (value x) (value target))))]
    /\ param_grad w' !! 1 = Some [(loss_value 0 0 1 0 (value x) (value target), None)].
Proof.
  intros x target.
  apply (train_updates_each_segment_once sent_world x target 0 1
           (SGD 0 (3 # 100)) (SGD 1 (3 # 100)) "alice" "bob");
    solve [reflexivity | discriminate].
Defined.

(** *** Calls of [train] that raise *)

Lemma runs_zero_grads os w :
  runs (for_each os zero_grad) w (fun _ w' =>
    model_loc w' = model_loc w /\ model_ver w' = model_ver w
    /\ act_grad w' = act_grad w /\ wire w' = wire w
    /\ param_grad w' = zeroed os (param_grad w)).
Proof.
  revert w. induction os as [| o os IH]; intros w.
  - apply runs_for_each_nil. auto.
  - apply runs_for_each_cons, runs_zero_grad.
    eapply runs_weaken; [apply IH |]. cbn beta. intros _ w' (-> & -> & -> & -> & ->).
    destruct w; auto.
Qed.

(** Erasing gradients leaves none on the segments of the optimisers. *)
Lemma zeroed_erased os pg o : In o os -> zeroed os pg !! opt_model o = None.
Proof.
  revert pg. induction os as [| o' os IH]; intros pg; [intros [] |].
  cbn [zeroed fold_left]. intros [-> | Hin]; [| now apply IH].
  clear IH. generalize (lookup_delete_eq pg (opt_model o)).
  generalize (delete (opt_model o) pg). clear pg.
  induction os as [| o' os IH]; intros pg H; [exact H |].
  cbn [fold_left]. apply IH.
  destruct (decide (opt_model o' = opt_model o)) as [-> | Hne].
  - apply lookup_delete_eq.
  - now rewrite lookup_delete_ne.
Qed.

(** Erasing gradients leaves no gradient that was not there. *)
Lemma zeroed_lookup os pg m g : zeroed os pg !! m = Some g -> pg !! m = Some g.
Proof.
  revert pg. induction os as [| o os IH]; intros pg; [auto |].
  cbn [zeroed fold_left]. intros H. apply IH in H.
  apply lookup_delete_Some in H. tauto.
Qed.

(** The forward pass of a segment transfers nothing and updates nothing,
    whether it returns or raises. *)
Lemma forward_frame m x w :
  model_ver (final (forward m x w)) = model_ver w
  /\ wire (final (forward m x w)) = wire w.
Proof.
  destruct w as [ml mv pg ag cs wi].
  unfold forward, called, model_location, version, mbind, M_bind, bind, modify, gets,
    lift, final. unsetters.
  destruct (ml !! m) as [l |]; [| auto].
  unfold guard. destruct (bool_decide (location x = l)); auto.
Qed.

Lemma raises_forward m x w l (Q : world -> Prop) :
  model_loc w !! m = Some l -> location x <> l ->
  Q (set_calls (fun c => c ++ [CForward m x]) w) ->
  raises (forward m x) w Q.
Proof.
  intros Hm Hx H. unfold forward.
  apply raises_bind_r, runs_called, raises_bind_r.
  apply (runs_model_location _ m l); [exact Hm |].
  apply raises_bind_l, raises_guard; [now apply bool_decide_eq_false_2 | exact H].
Qed.

Lemma raises_NLLLoss p y w (Q : world -> Prop) :
  location p <> location y ->
  Q (set_calls (fun c => c ++ [CNLLLoss p y]) w) ->
  raises (NLLLoss p y) w Q.
Proof.
  intros Hl H. unfold NLLLoss.
  apply raises_bind_r, runs_called, raises_bind_l, raises_guard;
    [now apply bool_decide_eq_false_2 | exact H].
Qed.

(** X4. [train] called with fewer than two segments raises, on
    [models[0]] or [models[1]], and by then no tensor has been
    transferred and no segment updated. *)
Theorem train_needs_two_segments x target ms os w :
  length ms < 2 ->
  raises (train x target ms os) w (fun w' =>
    wire w' = wire w /\ model_ver w' = model_ver w).
Proof.
  intros Hlen. unfold train.
  apply raises_bind_r. eapply runs_weaken; [apply runs_zero_grads |].
  cbn beta. intros _ w1 (_ & Hv1 & _ & Hw1 & _).
  destruct ms as [| m0 [| m1 ms]]; [| | cbn in Hlen; lia].
  - apply raises_bind_l, raises_lift. auto.
  - apply raises_bind_r. eapply runs_lift; [reflexivity |].
    destruct (forward_frame m0 x w1) as [Hv2 Hw2].
    destruct (forward m0 x w1) as [[a |] w2] eqn:E; unfold final in Hv2, Hw2;
      cbn [snd] in Hv2, Hw2.
    + apply raises_bind_r. exists a, w2. split; [exact E |].
      apply raises_bind_r, runs_detach, raises_bind_l, raises_lift.
      rewrite <- Hv1, <- Hw1, <- Hv2, <- Hw2. destruct w2; auto.
    + apply raises_bind_l. exists w2. split; [exact E |].
      rewrite <- Hv1, <- Hw1, <- Hv2, <- Hw2. auto.
Qed.

Lemma train_needs_two_segments_witness :
  raises (train (At "alice" (View (Images 0))) (At "bob" (Labels 0)) [0] optimizers)
    sent_world
    (fun w' => wire w' = wire sent_world /\ model_ver w' = model_ver sent_world).
Proof. apply train_needs_two_segments. cbn. lia. Defined.

(** X5. [train] called with [x] on another worker than the bottom
    segment's raises in the first forward pass: nothing is transferred
    and no segment is updated. *)
Theorem train_raises_on_misplaced_input x target m0 ms os la w :
  model_loc w !! m0 = Some la -> location x <> la ->
  raises (train x target (m0 :: ms) os) w (fun w' =>
    wire w' = wire w /\ model_ver w' = model_ver w).
Proof.
  intros H0 Hx. unfold train.
  apply raises_bind_r. eapply runs_weaken; [apply runs_zero_grads |].
  cbn beta. intros _ w1 (Hl1 & Hv1 & _ & Hw1 & _).
  apply raises_bind_r. eapply runs_lift; [reflexivity |].
  apply raises_bind_l, (raises_forward m0 x w1 la); [now rewrite Hl1 | exact Hx |].
  rewrite <- Hv1, <- Hw1. destruct w1; auto.
Qed.

Lemma train_raises_on_misplaced_input_witness :
  raises (train (At me (View (Images 0))) (At "bob" (Labels 0)) models optimizers)
    sent_world
    (fun w' => wire w' = wire sent_world /\ model_ver w' = model_ver sent_world).
Proof.
  apply (train_raises_on_misplaced_input _ _ 0 [1] optimizers "alice");
    [reflexivity | discriminate].
Defined.

(** X6. [train] called with [x] on the bottom segment's worker and the
    labels on another worker than the top segment's raises when it
    computes the loss: by then the detached activation has travelled to
    the top segment's worker, and nothing else.  No gradient has been
    computed, of a parameter or of a leaf: the parameters hold what
    [zero_grad] left of the gradients they held, so none they did not
    hold before, and the leaves hold the gradients they held.  No
    segment has been updated. *)
Theorem train_raises_on_misplaced_labels x target m0 m1 ms os la lb w :
  model_loc w !! m0 = Some la -> model_loc w !! m1 = Some lb ->
  location x = la -> la <> me -> location target <> lb ->
  let v0 := default 0 (model_ver w !! m0) in
  raises (train x target (m0 :: m1 :: ms) os) w (fun w' =>
    wire w' = wire w ++ moved la lb (Detach (activation m0 v0 (value x)))
    /\ model_ver w' = model_ver w
    /\ act_grad w' = act_grad w
    /\ param_grad w' = zeroed os (param_grad w)
    /\ (forall m g, param_grad w' !! m = Some g -> param_grad w !! m = Some g)
    /\ (forall o, In o os -> param_grad w' !! opt_model o = None)).
Proof.
  intros H0 H1 Hx Ha Ht v0. unfold train.
  apply raises_bind_r. eapply runs_weaken; [apply runs_zero_grads |].
  cbn beta. intros _ w1 (Hl1 & Hv1 & Hg1 & Hw1 & Hp1).
  assert (Hsub : forall m g, param_grad w1 !! m = Some g -> param_grad w !! m = Some g).
  { intros m g. rewrite Hp1. apply zeroed_lookup. }
  assert (Hnone : forall o, In o os -> param_grad w1 !! opt_model o = None).
  { intros o. rewrite Hp1. apply zeroed_erased. }
  rewrite <- Hl1 in H0, H1. subst v0. rewrite <- Hv1, <- Hw1, <- Hg1, <- Hp1.
  clear Hl1 Hv1 Hw1 Hg1 Hp1.
  destruct x as [lx vx]. cbn [location value] in *. subst lx.
  apply raises_bind_r. eapply runs_lift; [reflexivity |].
  apply raises_bind_r. apply (runs_forward _ _ m0 _ la); [exact H0 | reflexivity |].
  apply raises_bind_r, runs_detach.
  apply raises_bind_r. eapply runs_lift; [reflexivity |].
  apply raises_bind_r. apply (runs_model_location _ m1 lb); [exact H1 |].
  apply raises_bind_r, runs_move; [exact Ha |].
  apply raises_bind_r, runs_requires_grad_.
  apply raises_bind_r. eapply runs_lift; [reflexivity |].
  apply raises_bind_r. apply (runs_forward _ _ m1 _ lb); [exact H1 | reflexivity |].
  apply raises_bind_l, raises_NLLLoss; [cbn [location]; congruence |].
  destruct w1. unsetters. cbn [location value]. auto 10.
Qed.

Lemma train_raises_on_misplaced_labels_witness :
  raises (train (At "alice" (View (Images 1))) (At "alice" (Labels 1)) models optimizers)
    trained_once
    (fun w' =>
       wire w' = wire trained_once
                 ++ [Xfer "alice" "bob" (Detach (activation 0 1 (View (Images 1))))]
       /\ model_ver w' = model_ver trained_once
       /\ act_grad w' = act_grad trained_once
       /\ param_grad w' = zeroed optimizers (param_grad trained_once)
       /\ (forall m g, param_grad w' !! m = Some g -> param_grad trained_once !! m = Some g)
       /\ (forall o, In o optimizers -> param_grad w' !! opt_model o = None)).
Proof.
  apply (train_raises_on_misplaced_labels (At "alice" (View (Images 1)))
           (At "alice" (Labels 1)) 0 1 [] optimizers "alice" "bob" trained_once);
    solve [reflexivity | discriminate].
Defined.

End SplitNNMore.

(** ** Encrypted training: the loaders, the training loop and the test *)

Module EncryptedMore.
Import Py Torch Syft EncryptedMNIST PyFacts PyMore SyftFacts EncryptedFacts.

(** *** The workers and the one-hot encoding *)

Lemma str_inj (n m : nat) : str n = str m -> n = m.
Proof.
  unfold str. intros H. apply DecimalNat.Unsigned.to_uint_inj.
  apply (f_equal NilEmpty.uint_of_string) in H.
  rewrite !NilEmpty.usu in H. congruence.
Qed.

(** X7. [connect_to_workers n] gives [n] workers whose identifiers are
    pairwise distinct, and none of them is the crypto provider's. *)
Theorem connect_to_workers_distinct (n : nat) :
  length (connect_to_workers n) = n
  /\ NoDup (map id (connect_to_workers n))
  /\ ~ In (id connect_to_crypto_provider) (map id (connect_to_workers n)).
Proof.
  split; [| split].
  - unfold connect_to_workers. now rewrite length_map, length_seq.
  - unfold connect_to_workers. rewrite map_map. cbn [id].
    apply NoDup_fmap_2_strong; [| apply NoDup_seq].
    intros i j _ _ H. apply (String.app_inj "worker") in H. apply str_inj in H. lia.
  - apply crypto_provider_not_a_worker.
Qed.

Lemma index_ok_digit (k : Z) : index_ok 10 k = true <-> (0 <= k < 10)%Z.
Proof.
  unfold index_ok. rewrite andb_true_iff, Z.leb_le, Z.ltb_lt. lia.
Qed.

Lemma one_hot_of_domain (index_tensor : tensor Z) :
  is_Some (one_hot_of index_tensor)
  <-> (exists n, shape index_tensor = [n])
      /\ Forall (fun k => 0 <= k < 10)%Z (data index_tensor).
Proof.
  destruct index_tensor as [sh l]. cbn [shape data]. split.
  - intros Hs.
    destruct (decide (length sh = 1)) as [Hlen | Hlen].
    2:{ rewrite (one_hot_of_rank (Tensor sh l) Hlen) in Hs. now destruct Hs. }
    destruct sh as [| n [| ? ?]]; try discriminate Hlen.
    split; [now exists n |].
    unfold one_hot_of, zeros, view_col, scatter1 in Hs.
    cbn [shape data app numel fold_right] in Hs.
    destruct (forallb (index_ok 10) l) eqn:E.
    + apply Forall_forall. intros k Hk. apply index_ok_digit.
      rewrite forallb_forall in E. apply E. now apply list_elem_of_In.
    + rewrite andb_false_r in Hs. now destruct Hs.
  - intros [[n ->] Hd].
    unfold one_hot_of, zeros, view_col, scatter1.
    cbn [shape data app numel fold_right].
    rewrite forallb_index_ok by exact Hd. rewrite Nat.mul_1_r, Nat.leb_refl.
    cbn [andb Nat.leb]. eauto.
Qed.

(** X8. On the labels of a batch, a vector of [n] labels with [n] at
    least one, [one_hot_of] returns exactly when every label is a digit
    from 0 to 9: a label below 0 or above 9 is an index out of range
    for [scatter], which raises. *)
Theorem one_hot_of_returns_iff (index_tensor : tensor Z) (n : nat) :
  shape index_tensor = [n] -> wf index_tensor -> 0 < n ->
  (is_Some (one_hot_of index_tensor)
   <-> Forall (fun k => 0 <= k < 10)%Z (data index_tensor)).
Proof.
  intros Hs _ _. rewrite one_hot_of_domain. split; [tauto |].
  intros Hd. split; [now exists n | exact Hd].
Qed.

Lemma one_hot_of_returns_iff_witness :
  is_Some (one_hot_of (Tensor [3] [0; 3; 10]%Z))
  <-> Forall (fun k => 0 <= k < 10)%Z [0; 3; 10]%Z.
Proof.
  apply (one_hot_of_returns_iff (Tensor [3] [0; 3; 10]%Z) 3); [reflexivity | reflexivity | lia].
Defined.

(** *** The data loader on a dataset of any size *)

(** The first [k] batches hold the first [k * n] items, in order. *)
Lemma chunks_take_concat {A} (n : nat) :
  0 < n -> forall (k fuel : nat) (l : list A),
  length l <= fuel -> concat (take k (chunks fuel n l)) = take (k * n) l.
Proof.
  intros Hn. induction k as [| k IH]; intros fuel l Hl; [reflexivity |].
  destruct fuel as [| fuel].
  - destruct l; [| cbn in Hl; lia]. now rewrite take_nil.
  - destruct l as [| x l]; [now rewrite take_nil |].
    cbn [chunks]. rewrite firstn_cons. cbn [concat].
    rewrite IH by (rewrite length_drop; cbn [length] in *; lia).
    replace (S k * n) with (n + k * n) by lia.
    apply take_take_drop.
Qed.

Lemma collate_labels (items : list sample) : data (snd (collate items)) = map snd items.
Proof. reflexivity. Qed.

Lemma collate_rows (items : list sample) : hd 0 (shape (fst (collate items))) = length items.
Proof. reflexivity. Qed.

Lemma collate_vector (items : list sample) :
  shape (snd (collate items)) = [length (data (snd (collate items)))].
Proof. cbn. now rewrite length_map. Qed.

(** The labels of the first [k] batches are digits exactly when the
    labels of the first [k * n] items are. *)
Lemma DataLoader_take_digit_labels (dataset : list sample) (n k : nat) batches :
  DataLoader dataset n = Some batches ->
  Forall digit_labels (take k batches)
  <-> Forall (fun s => 0 <= snd s < 10)%Z (take (k * n) dataset).
Proof.
  unfold DataLoader. destruct (n =? 0) eqn:E; [discriminate |].
  apply Nat.eqb_neq in E. intros [= <-].
  rewrite <- (chunks_take_concat n ltac:(lia) k (length dataset) dataset) by lia.
  rewrite <- fmap_take. generalize (take k (chunks (length dataset) n dataset)).
  intros cs. induction cs as [| c cs IH].
  - cbn. split; constructor.
  - cbn [fmap list_fmap concat]. rewrite Forall_cons, Forall_app, IH.
    apply and_iff_compat_r. unfold digit_labels. rewrite collate_labels. split.
    + intros [_ H]. apply Forall_forall. intros s Hs. rewrite Forall_forall in H.
      apply H, list_elem_of_fmap. eauto.
    + intros H. split; [apply collate_vector |].
      apply Forall_forall. intros z Hz. apply list_elem_of_fmap in Hz as (s & -> & Hs).
      rewrite Forall_forall in H. now apply H.
Qed.

(** The examples of the first [k] batches. *)
Lemma DataLoader_take_rows (dataset : list sample) (n k : nat) batches :
  DataLoader dataset n = Some batches ->
  sum_list (map (fun b => hd 0 (shape (fst b))) (take k batches))
  = Nat.min (k * n) (length dataset).
Proof.
  unfold DataLoader. destruct (n =? 0) eqn:E; [discriminate |].
  apply Nat.eqb_neq in E. intros [= <-].
  rewrite <- length_take.
  rewrite <- (chunks_take_concat n ltac:(lia) k (length dataset) dataset) by lia.
  rewrite <- fmap_take. generalize (take k (chunks (length dataset) n dataset)).
  intros cs. induction cs as [| c cs IH]; [reflexivity |].
  cbn [fmap list_fmap map concat sum_list_with]. rewrite length_app. cbn in IH |- *.
  now rewrite IH.
Qed.

Lemma examples_of_rows {B} (R : B -> shared * shared -> Prop) (f : B -> nat) bs loader :
  Forall2 R bs loader -> (forall b e, R b e -> rows (fst e) = f b) ->
  examples loader = sum_list (map f bs).
Proof.
  intros H HR. induction H as [| b e bs loader Hbe _ IH]; [reflexivity |].
  cbn [examples foldr map sum_list_with]. fold (examples loader).
  rewrite (HR b e Hbe), IH. reflexivity.
Qed.

(** *** [get_private_data_loaders] on datasets of any size *)

Section Loaders.
Context (field : Z) (tape : nat -> Z).
Context (pf : nat) (ws : list worker) (cp : worker) (Hws : ws <> []).

#[local] Abbreviation sharing := (sharing_of field tape pf ws cp).

(** Only the labels of the first 640 training items need be digits. *)
Lemma run_get_private_data_loaders (mnist_train mnist_test : list sample) w :
  Forall (fun s => 0 <= snd s < 10)%Z (take n_train_items mnist_train) ->
  exists train_loader test_loader tl te w',
    DataLoader mnist_train (batch_size args) = Some train_loader
    /\ DataLoader mnist_test (test_batch_size args) = Some test_loader
    /\ get_private_data_loaders field tape pf ws cp mnist_train mnist_test w
       = (Some (tl, te), w')
    /\ Forall2 (train_entry sharing) (take 10 train_loader) tl
    /\ Forall2 (test_entry sharing) (take 10 test_loader) te
    /\ exists new, trace w' = trace w ++ new /\ Forall (sharing_event ws cp) new.
Proof.
  intros Hd.
  pose proof (DataLoader_batches mnist_train (batch_size args) ltac:(cbn; lia)) as Htr.
  pose proof (DataLoader_batches mnist_test (test_batch_size args) ltac:(cbn; lia)) as Hte.
  assert (Hdl : Forall digit_labels
                  (take (10 - 0) (map collate (chunks (length mnist_train)
                                                 (batch_size args) mnist_train)))).
  { apply (DataLoader_take_digit_labels mnist_train (batch_size args) 10 _ Htr).
    exact Hd. }
  destruct (emits_private_train field tape pf ws cp Hws _ 0 Hdl w)
    as (tl & w1 & new1 & E1 & T1 & F1 & H1).
  destruct (emits_private_test field tape pf ws cp Hws
              (map collate (chunks (length mnist_test) (test_batch_size args) mnist_test))
              0 w1)
    as (te & w2 & new2 & E2 & T2 & F2 & H2).
  eexists _, _, tl, te, w2.
  split; [exact Htr |]. split; [exact Hte |].
  split; [| split; [exact H1 | split; [exact H2 |]]].
  2:{ exists (new1 ++ new2). rewrite T2, T1, app_assoc. split; [reflexivity |].
      now apply Forall_app. }
  unfold get_private_data_loaders. rewrite Htr, Hte.
  rewrite !bind_unfold. cbn [lift]. rewrite !bind_unfold. rewrite E1.
  rewrite !bind_unfold. cbn [lift]. rewrite !bind_unfold. rewrite E2. reflexivity.
Qed.

(** When the comprehension over the train loader returns, [one_hot_of]
    returned on the labels of each of its first ten batches. *)
Lemma private_train_returns (l : list (tensor Q * tensor Z)) :
  forall i w,
  is_Some (result (private_train field tape pf ws cp i l w)) ->
  Forall (fun b => is_Some (one_hot_of (snd b))) (take (10 - i) l).
Proof.
  induction l as [| [data target] rest IH]; intros i w Hr.
  - rewrite take_nil. constructor.
  - cbn [private_train] in Hr. rewrite keep_train in Hr.
    rewrite bind_unfold in Hr. cbn [lift] in Hr.
    destruct (i <? 10) eqn:E.
    + apply Nat.ltb_lt in E.
      replace (10 - i) with (S (10 - S i)) by lia. rewrite firstn_cons.
      rewrite bind_unfold, secret_share_run in Hr by exact Hws.
      rewrite bind_unfold in Hr. cbn [lift] in Hr.
      destruct (one_hot_of target) as [onehot |] eqn:Hoh;
        [| destruct Hr as [? Hr]; discriminate Hr].
      rewrite bind_unfold, secret_share_run in Hr by exact Hws.
      rewrite bind_unfold in Hr.
      match type of Hr with
      | context [private_train _ _ _ _ _ _ rest ?w1] =>
          specialize (IH (S i) w1);
          destruct (private_train field tape pf ws cp (S i) rest w1) as [[more |] w2]
      end.
      * constructor; [cbn [snd]; rewrite Hoh; eauto | apply IH; cbn; eauto].
      * destruct Hr as [? Hr]. discriminate Hr.
    + apply Nat.ltb_ge in E. replace (10 - i) with 0 by lia. constructor.
Qed.

End Loaders.

(** *** The view of [Net.forward] on the private batches *)

Lemma chunks_nonempty {A} (fuel n : nat) (l : list A) :
  0 < n -> Forall (fun c => c <> []) (chunks fuel n l).
Proof.
  intros Hn. revert l. induction fuel as [| fuel IH]; intros [| x l]; try constructor.
  - destruct n; [lia | discriminate].
  - apply IH.
Qed.

Lemma generate_shares_each_length field tape (n pos : nat) (secret : list Z) :
  Forall (fun s => length s = length secret) (generate_shares field tape n pos secret).
Proof.
  revert pos secret. induction n as [| [| k] IH]; intros pos secret.
  - constructor.
  - cbn. constructor; [now rewrite length_map | constructor].
  - change (generate_shares field tape (S (S k)) pos secret)
      with (random_tensor field tape pos (length secret)
            :: generate_shares field tape (S k) (pos + length secret)
                 (sub_mod field secret (random_tensor field tape pos (length secret)))).
    assert (Hr : length (random_tensor field tape pos (length secret)) = length secret).
    { unfold random_tensor. now rewrite length_map, length_seq. }
    constructor; [exact Hr |].
    eapply Forall_impl; [apply IH |]. cbn beta. intros s ->.
    unfold sub_mod. rewrite length_zip_with. lia.
Qed.

Lemma concat_pixels_length (items : list sample) :
  Forall (fun s => length (fst s) = 784) items ->
  length (concat (map fst items)) = length items * 784.
Proof.
  induction 1 as [| s items Hs _ IH]; [reflexivity |].
  cbn [map concat length]. rewrite length_app, Hs, IH. lia.
Qed.

(** The batch of a non-empty chunk of images of 784 pixels, once shared,
    is viewed by [Net.forward] as one row of 784 per image. *)
Lemma collate_views_as_rows field tape pf ws cp pos (items : list sample) :
  ws <> [] -> items <> [] ->
  Forall (fun s => length (fst s) = 784) items ->
  views_as_rows (share_handle field tape pf ws cp pos (fst (collate items))).
Proof.
  intros Hws Hne Hpx. unfold views_as_rows, share_handle, rows.
  cbn [shares sh_shape collate fst shape data hd].
  pose proof (generate_shares_length field tape (length ws) pos
                (map (encode field pf) (concat (map fst items)))) as Hlen.
  split.
  - destruct ws as [| w0 ws]; [congruence |]. cbn [map length] in *.
    destruct (generate_shares _ _ _ _ _); [discriminate Hlen | discriminate].
  - apply Forall_forall. intros [o s] Hin. cbn [snd].
    apply elem_of_zip_r in Hin.
    pose proof (generate_shares_each_length field tape (length ws) pos
                  (map (encode field pf) (concat (map fst items)))) as Heach.
    rewrite Forall_forall in Heach. rewrite (Heach s Hin).
    rewrite length_map, (concat_pixels_length items Hpx).
    unfold view_rows, numel. cbn [fold_right].
    replace (1 * (28 * (28 * 1))) with 784 by reflexivity.
    rewrite Nat.eqb_refl, Nat.Div0.mod_mul, Nat.div_mul by lia.
    destruct items; [congruence |]. reflexivity.
Qed.

Section Views.
Context (field : Z) (tape : nat -> Z).
Context (pf : nat) (ws : list worker) (cp : worker) (Hws : ws <> []).

Lemma batches_view (dataset : list sample) (n k : nat) loader :
  Forall (fun s => length (fst s) = 784) dataset ->
  DataLoader dataset n = Some loader ->
  Forall (fun b => forall pos,
            views_as_rows (share_handle field tape pf ws cp pos (fst b)))
    (take k loader).
Proof.
  intros Hpx. unfold DataLoader. destruct (n =? 0) eqn:E; [discriminate |].
  apply Nat.eqb_neq in E. intros [= <-]. apply Forall_take, Forall_forall.
  intros b Hb pos. apply list_elem_of_fmap in Hb as (c & -> & Hc).
  apply collate_views_as_rows; [exact Hws | |].
  - pose proof (chunks_nonempty (length dataset) n dataset ltac:(lia)) as H.
    rewrite Forall_forall in H. now apply H.
  - pose proof (chunks_Forall _ (length dataset) n dataset Hpx) as H.
    rewrite Forall_forall in H. now apply H.
Qed.

(** On images of 784 pixels, [Net.forward] can view the inputs of all
    the batches of the private loaders. *)
Lemma loaders_view (mnist_train mnist_test : list sample) w tl te w' :
  Forall (fun s => 0 <= snd s < 10)%Z (take n_train_items mnist_train) ->
  Forall (fun s => length (fst s) = 784) mnist_train ->
  Forall (fun s => length (fst s) = 784) mnist_test ->
  get_private_data_loaders field tape pf ws cp mnist_train mnist_test w
    = (Some (tl, te), w') ->
  Forall (fun b => views_as_rows (fst b)) (tl ++ te).
Proof.
  intros Hd Hp1 Hp2 E.
  destruct (run_get_private_data_loaders field tape pf ws cp Hws mnist_train mnist_test
              w Hd) as (trl & tel & tl' & te' & w'' & Htr & Hte & E' & H1 & H2 & _).
  rewrite E' in E. injection E as <- <- _.
  apply Forall_app. split.
  - eapply Forall2_Forall; [exact H1 | exact (batches_view _ _ 10 _ Hp1 Htr) |].
    cbn beta. intros b e [[pos ->] _] Hb. apply Hb.
  - eapply Forall2_Forall; [exact H2 | exact (batches_view _ _ 10 _ Hp2 Hte) |].
    cbn beta. intros b e [[pos ->] _] Hb. apply Hb.
Qed.

End Views.

Section Notebook.
Context (field : Z) (tape : nat -> Z).

#[local] Abbreviation loaders mnist_train mnist_test :=
  (get_private_data_loaders field tape (precision_fractional args) workers
     crypto_provider mnist_train mnist_test).

Lemma run_loaders (mnist_train mnist_test : list sample) w :
  Forall (fun s => 0 <= snd s < 10)%Z (take n_train_items mnist_train) ->
  exists tl te w',
    loaders mnist_train mnist_test w = (Some (tl, te), w')
    /\ (exists new, trace w' = trace w ++ new
                    /\ Forall (sharing_event workers crypto_provider) new)
    /\ length tl = Nat.min 10 ((length mnist_train + 63) / 64)
    /\ length te = Nat.min 10 ((length mnist_test + 63) / 64)
    /\ examples tl = Nat.min n_train_items (length mnist_train)
    /\ examples te = Nat.min n_test_items (length mnist_test).
Proof.
  intros Hd.
  destruct (run_get_private_data_loaders field tape 3 workers crypto_provider
              workers_nonempty mnist_train mnist_test w Hd)
    as (trl & tel & tl & te & w' & Htr & Hte & E & H1 & H2 & Hnew).
  exists tl, te, w'. split; [exact E |]. split; [exact Hnew |].
  pose proof (DataLoader_batches mnist_train (batch_size args) ltac:(cbn; lia)) as Htr'.
  pose proof (DataLoader_batches mnist_test (test_batch_size args) ltac:(cbn; lia)) as Hte'.
  split; [| split; [| split]].
  - rewrite <- (Forall2_length _ _ _ H1), length_take.
    assert (trl = map collate (chunks (length mnist_train) 64 mnist_train)) as ->
      by (rewrite Htr' in Htr; now injection Htr).
    rewrite length_map, (chunks_length 64) by lia. do 2 f_equal. lia.
  - rewrite <- (Forall2_length _ _ _ H2), length_take.
    assert (tel = map collate (chunks (length mnist_test) 64 mnist_test)) as ->
      by (rewrite Hte' in Hte; now injection Hte).
    rewrite length_map, (chunks_length 64) by lia. do 2 f_equal. lia.
  - rewrite (examples_of_rows _ (fun b => hd 0 (shape (fst b))) _ _ H1).
    + exact (DataLoader_take_rows mnist_train 64 10 trl Htr).
    + intros b e [Hs _]. unfold rows.
      now rewrite (sharing_of_shape _ _ _ _ _ _ _ Hs).
  - rewrite (examples_of_rows _ (fun b => hd 0 (shape (fst b))) _ _ H2).
    + exact (DataLoader_take_rows mnist_test 64 10 tel Hte).
    + intros b e [Hs _]. unfold rows.
      now rewrite (sharing_of_shape _ _ _ _ _ _ _ Hs).
Qed.


(** X10. [get_private_data_loaders] returns exactly when the labels of
    the first 640 training items are digits: a label outside 0..9 among
    them makes [one_hot_of] raise; the later training labels are never
    looked at, and the test labels, which are shared as they are, need
    not be digits. *)
Theorem private_loaders_return_iff (mnist_train mnist_test : list sample) w :
  is_Some (result (loaders mnist_train mnist_test w))
  <-> Forall (fun s => 0 <= snd s < 10)%Z (take n_train_items mnist_train).
Proof.
  split.
  - intros Hr.
    pose proof (DataLoader_batches mnist_train (batch_size args) ltac:(cbn; lia)) as Htr.
    apply (DataLoader_take_digit_labels mnist_train (batch_size args) 10 _ Htr).
    unfold get_private_data_loaders in Hr. rewrite Htr in Hr.
    rewrite bind_unfold in Hr. cbn [lift] in Hr. rewrite bind_unfold in Hr.
    match type of Hr with
    | context [private_train _ _ _ _ _ 0 ?l ?w0] =>
        pose proof (private_train_returns field tape 3 workers crypto_provider
                      workers_nonempty l 0 w0) as Hp;
        destruct (private_train field tape (precision_fractional args) workers
                    crypto_provider 0 l w0) as [[tl |] w1] eqn:E
    end.
    2:{ destruct Hr as [? Hr]. discriminate Hr. }
    specialize (Hp ltac:(change (precision_fractional args) with 3 in E; rewrite E; cbn; eauto)).
    apply Forall_forall. intros b Hb. rewrite Forall_forall in Hp.
    specialize (Hp b Hb). apply one_hot_of_domain in Hp as [_ Hp].
    apply elem_of_take in Hb as (j & Hb & _).
    apply list_lookup_fmap_Some in Hb as (c & -> & _).
    split; [apply collate_vector | exact Hp].
  - intros Hd. destruct (run_get_private_data_loaders field tape 3 workers crypto_provider
                workers_nonempty mnist_train mnist_test w Hd)
      as (trl & tel & tl & te & w' & _ & _ & E & _).
    change (precision_fractional args) with 3. rewrite E. cbn. eauto.
Qed.

End Notebook.

Lemma hundred_items_digits :
  Forall (fun s : sample => 0 <= snd s < 10)%Z (take n_train_items hundred_items).
Proof.
  apply Forall_take, Forall_forall. intros s Hs.
  apply list_elem_of_In, repeat_spec in Hs. subst s. cbn. lia.
Defined.


(** *** One batch of [train] *)

Lemma zip_with_fresh_grads {A} (f : expr -> option A -> option A) ps (gs : list (option A)) :
  length gs = length ps ->
  zip_with f ps (map (fun _ => None) gs) = map (fun p => f p None) ps.
Proof.
  revert gs. induction ps as [| p ps IH]; intros [| g gs] H; try discriminate H;
    [reflexivity |].
  cbn. f_equal. apply IH. now injection H.
Qed.

Lemma train_batch_run a o epoch m idx batch w :
  log_interval a <> 0 -> length (grads m) = length (params m) ->
  let l := loss_expr (params m) batch in
  train_batch a o epoch m idx batch w
  = (Some (Mdl (sgd_update o (params m) batch)
             (map (fun p => Some (GradOf l p)) (params m))),
     World (drawn w) (trace w ++ loss_log a epoch idx l)).
Proof.
  intros Ha Hm l. destruct batch as [data target], w as [d tr].
  unfold train_batch, step, backward, zero_grad, forward. cbn [params grads].
  rewrite zip_with_fresh_grads by exact Hm.
  rewrite zip_with_fmap_r, zip_with_diag.
  apply Nat.eqb_neq in Ha. rewrite Ha. cbn [negb guard].
  unfold loss_log. fold l. change (loss_expr (params m) (data, target)) with l.
  destruct (idx mod log_interval a =? 0);
    unfold mbind, M_bind, bind, emit, modify, mret, M_ret, ret; cbn [drawn trace app].
  - rewrite <- !app_assoc. reflexivity.
  - now rewrite app_nil_r.
Qed.

(** X11. One batch of [train], when the logging interval is not zero
    and every parameter of the model has a gradient slot: every parameter
    [p] becomes [p - rate * grad], [grad] being the gradient of the loss
    of this batch alone, whatever gradient the model held before; the
    loss is reconstructed and printed exactly when the batch index is a
    multiple of the logging interval; nothing else is logged, and the
    notebook's process generates no new share. *)
Theorem train_batch_is_one_step a o epoch m idx batch w :
  log_interval a <> 0 -> length (grads m) = length (params m) ->
  let l := loss_expr (params m) batch in
  exists m' w',
    train_batch a o epoch m idx batch w = (Some m', w')
    /\ params m' = map (fun p => SgdStep p (GradOf l p) (rate o)) (params m)
    /\ grads m' = map (fun p => Some (GradOf l p)) (params m)
    /\ drawn w' = drawn w
    /\ trace w' = trace w ++
         (if idx mod log_interval a =? 0
          then [Get l; FloatPrecision l; PrintLoss epoch idx l] else []).
Proof.
  intros Ha Hm l. eexists _, _. split; [now apply train_batch_run |].
  cbn [params grads drawn trace]. auto.
Qed.

Lemma train_batch_is_one_step_witness :
  let m := Mdl [Val (share_handle ring64 counting_tape 3 workers crypto_provider 0
                       (Tensor [1] [1 # 2]%Q))]
               [Some (Sum (Val (share_handle ring64 counting_tape 3 workers
                                  crypto_provider 0 (Tensor [1] [1 # 2]%Q))))] in
  let h := share_handle ring64 counting_tape 3 workers crypto_provider 0
             (Tensor [1] [0]%Q) in
  let l := loss_expr (params m) (h, h) in
  exists m' w',
    train_batch args (SGD 20) 1 m 0 (h, h) start = (Some m', w')
    /\ params m' = map (fun p => SgdStep p (GradOf l p) 20) (params m)
    /\ grads m' = map (fun p => Some (GradOf l p)) (params m)
    /\ drawn w' = 0
    /\ trace w' = [Get l; FloatPrecision l; PrintLoss 1 0 l].
Proof.
  intros m h l.
  apply (train_batch_is_one_step args (SGD 20) 1 m 0 (h, h) start);
    [discriminate | reflexivity].
Defined.

(** *** A whole call of [train] *)

Lemma train_from_run a o epoch (loader : list (shared * shared)) :
  forall m idx w,
  log_interval a <> 0 -> length (grads m) = length (params m) ->
  exists m',
    train_from a o epoch m idx loader w
    = (Some m',
       World (drawn w)
         (trace w ++ concat (imap (fun i l => loss_log a epoch (idx + i) l)
                               (losses o (params m) loader))))
    /\ params m' = params_after o (params m) loader
    /\ length (grads m') = length (params m').
Proof.
  induction loader as [| batch rest IH]; intros m idx w Ha Hm.
  - exists m. cbn. rewrite app_nil_r. destruct w. auto.
  - cbn [train_from]. rewrite bind_unfold, train_batch_run by assumption.
    match goal with
    | |- context [train_from a o epoch ?m1 (S idx) rest ?w1] =>
        destruct (IH m1 (S idx) w1 Ha) as (m' & E & Hp & Hg);
          [unfold sgd_update; cbn [params grads]; now rewrite !length_map |]
    end.
    exists m'. split; [| split; [exact Hp | exact Hg]].
    rewrite E. cbn [drawn trace params losses imap concat]. f_equal. f_equal.
    rewrite <- app_assoc, Nat.add_0_r. do 3 f_equal.
    apply imap_ext. intros i l _. cbn. f_equal. lia.
Qed.

Lemma train_from_raises a o epoch m idx batch rest w :
  log_interval a = 0 -> train_from a o epoch m idx (batch :: rest) w = (None, w).
Proof.
  intros Ha. cbn [train_from]. rewrite bind_unfold. destruct batch as [data target].
  unfold train_batch. rewrite Ha. reflexivity.
Qed.

(** X12. A call of [train], when the logging interval is not zero and
    every parameter has a gradient slot: it returns; the parameters it
    leaves are those of one gradient step per batch, in the order of the
    loader; the loss of a batch is computed with the parameters the
    earlier batches left, and the events of the call are the logs of the
    losses of the batches whose index is a multiple of the interval, in
    order.  The notebook's process generates and sends no new share. *)
Theorem train_steps_and_logs a m loader o epoch w :
  log_interval a <> 0 -> length (grads m) = length (params m) ->
  exists m' w',
    train a m loader o epoch w = (Some m', w')
    /\ params m' = params_after o (params m) loader
    /\ length (grads m') = length (params m')
    /\ drawn w' = drawn w
    /\ trace w' = trace w ++ train_log a epoch (losses o (params m) loader).
Proof.
  intros Ha Hm. destruct (train_from_run a o epoch loader m 0 w Ha Hm) as (m' & E & Hp & Hg).
  eexists m', _. split; [exact E |]. cbn [drawn trace]. auto.
Qed.

Lemma train_steps_and_logs_witness :
  let h := share_handle ring64 counting_tape 3 workers crypto_provider 0
             (Tensor [1] [0]%Q) in
  let m := Mdl [Val h] [None] in
  let loader := [(h, h); (h, h)] in
  exists m' w',
    train args m loader (SGD 20) 1 start = (Some m', w')
    /\ params m' = params_after (SGD 20) (params m) loader
    /\ length (grads m') = length (params m')
    /\ drawn w' = 0
    /\ trace w' = train_log args 1 (losses (SGD 20) (params m) loader).
Proof.
  intros h m loader.
  apply (train_steps_and_logs args m loader (SGD 20) 1 start);
    [discriminate | reflexivity].
Defined.

Lemma train_from_returns a o epoch (loader : list (shared * shared)) :
  forall m idx w,
  log_interval a <> 0 -> is_Some (result (train_from a o epoch m idx loader w)).
Proof.
  induction loader as [| [data target] rest IH]; intros m idx w Ha; [cbn; eauto |].
  cbn [train_from]. rewrite bind_unfold.
  assert (E : exists m1 w1, train_batch a o epoch m idx (data, target) w = (Some m1, w1)).
  { unfold train_batch. apply Nat.eqb_neq in Ha. rewrite Ha. cbn [negb guard].
    destruct (idx mod log_interval a =? 0);
      unfold mbind, M_bind, bind, emit, modify, mret, M_ret, ret; eauto. }
  destruct E as (m1 & w1 & ->). now apply IH.
Qed.

(** X13. A call of [train] returns exactly when the loader is empty or
    the logging interval is not zero: on a first batch, an interval of
    zero makes [batch_idx % args.log_interval] raise, and nothing has
    been logged by then. *)
Theorem train_returns_iff a m loader o epoch w :
  (is_Some (result (train a m loader o epoch w))
   <-> loader = [] \/ log_interval a <> 0)
  /\ (is_Some (result (train a m loader o epoch w))
      \/ train a m loader o epoch w = (None, w)).
Proof.
  unfold train. split; [split |].
  - intros Hr. destruct loader as [| batch rest]; [now left |]. right. intros Ha.
    rewrite train_from_raises in Hr by exact Ha. destruct Hr as [? Hr]. discriminate Hr.
  - intros [-> | Ha]; [cbn; eauto |]. now apply train_from_returns.
  - destruct loader as [| batch rest]; [left; cbn; eauto |].
    destruct (Nat.eq_dec (log_interval a) 0) as [Ha | Ha].
    + right. now apply train_from_raises.
    + left. now apply train_from_returns.
Qed.

(** *** [test] *)

Lemma fold_add_count (m : model) (rest : list (shared * shared)) (c : expr) :
  fold_left (fun c batch => add_count c (batch_correct m batch)) rest (Shr c)
  = Shr (fold_left (fun c b => Add c (batch_correct m b)) rest c).
Proof.
  revert c. induction rest as [| b rest IH]; intros c; [reflexivity |].
  cbn [fold_left add_count]. apply IH.
Qed.

Lemma test_run a m loader w :
  test a m loader w
  = (match loader with
     | [] => None
     | _ :: _ => if test_batch_size a =? 0 then None else Some tt
     end,
     World (drawn w) (trace w ++ test_log a m loader)).
Proof.
  destruct w as [d tr]. destruct loader as [| batch rest].
  - cbn. now rewrite app_nil_r.
  - unfold test. cbn [fold_left add_count]. rewrite fold_add_count.
    unfold test_log, count_expr. cbn [length].
    destruct (test_batch_size a) as [| k] eqn:E.
    + rewrite Nat.mul_0_r. cbn [Nat.eqb negb guard].
      unfold mbind, M_bind, bind, emit, modify, raise.
      cbn [drawn trace]. rewrite <- !app_assoc. reflexivity.
    + cbn [Nat.mul Nat.add Nat.eqb negb guard].
      unfold mbind, M_bind, bind, emit, modify, ret.
      cbn [drawn trace]. rewrite <- !app_assoc. reflexivity.
Qed.

(** X14. [test] on an empty loader raises, [correct] being still the
    int 0, and logs nothing.  On any other loader it reconstructs one
    value, the sum of the counts of correct predictions of all batches,
    each once and in order; it then prints it against the number of
    batches times [test_batch_size] and returns, unless
    [test_batch_size] is zero: the percentage then divides by zero and
    [test] raises after the reconstruction, having printed nothing. *)
Theorem test_reconstructs_one_count a m loader w :
  match loader with
  | [] => test a m loader w = (None, w)
  | batch :: rest =>
      let c := fold_left (fun c b => Add c (batch_correct m b)) rest
                 (AddInt 0 (batch_correct m batch)) in
      test a m loader w
      = if test_batch_size a =? 0
        then (None, World (drawn w) (trace w ++ [Get c; FloatPrecision c]))
        else (Some tt,
              World (drawn w)
                (trace w ++ [Get c; FloatPrecision c;
                             PrintAccuracy c (length loader * test_batch_size a)]))
  end.
Proof.
  rewrite test_run. destruct loader as [| batch rest].
  - destruct w. cbn. now rewrite app_nil_r.
  - unfold test_log, count_expr. destruct (test_batch_size a =? 0); reflexivity.
Qed.

(** *** The epochs of the notebook *)

Lemma reconstructed_app (tr1 tr2 : list event) :
  reconstructed (tr1 ++ tr2) = reconstructed tr1 ++ reconstructed tr2.
Proof. apply omap_app. Qed.

Lemma reconstructed_concat_imap (f : nat -> expr -> list event) (ls : list expr) :
  (forall i l, reconstructed (f i l) = [l]) ->
  reconstructed (concat (imap f ls)) = ls.
Proof.
  revert f. induction ls as [| l ls IH]; intros f Hf; [reflexivity |].
  cbn [imap concat]. rewrite reconstructed_app, Hf, IH; [reflexivity |].
  intros i l'. apply Hf.
Qed.

(** With a logging interval of one, every loss is reconstructed. *)
Lemma reconstructed_train_log a epoch (ls : list expr) :
  log_interval a = 1 -> reconstructed (train_log a epoch ls) = ls.
Proof.
  intros Ha. apply reconstructed_concat_imap. intros i l.
  unfold loss_log. rewrite Ha, Nat.mod_1_r. reflexivity.
Qed.

Lemma losses_length o (loader : list (shared * shared)) :
  forall ps, length (losses o ps loader) = length loader.
Proof.
  induction loader as [| b rest IH]; intros ps; [reflexivity |].
  cbn [losses length]. now rewrite IH.
Qed.

Lemma reconstructed_test_log a m (loader : list (shared * shared)) :
  loader <> [] -> length (reconstructed (test_log a m loader)) = 1.
Proof.
  destruct loader; [congruence |]. intros _. unfold test_log.
  destruct (test_batch_size a =? 0); reflexivity.
Qed.

(** [n] epochs on non-empty test loader, the logging interval being one:
    the parameters they leave and the number of values reconstructed. *)
Lemma epochs_from_run a o tl te (n : nat) :
  log_interval a = 1 -> test_batch_size a <> 0 -> te <> [] ->
  forall m epoch w,
  length (grads m) = length (params m) ->
  exists m' w',
    epochs_from a o m tl te epoch n w = (Some m', w')
    /\ params m' = params_after o (params m) (concat (replicate n tl))
    /\ drawn w' = drawn w
    /\ length (reconstructed (trace w'))
       = length (reconstructed (trace w)) + n * (length tl + 1).
Proof.
  intros Ha Hb Hte. induction n as [| n IH]; intros m epoch w Hm.
  - exists m, w. cbn. split; [reflexivity |]. repeat split. lia.
  - cbn [epochs_from].
    destruct (train_from_run a o epoch tl m 0 w ltac:(lia) Hm) as (m1 & E1 & Hp1 & Hg1).
    rewrite bind_unfold. unfold train. rewrite E1.
    rewrite bind_unfold, test_run.
    destruct te as [| b te']; [congruence |].
    apply Nat.eqb_neq in Hb. rewrite Hb.
    match goal with
    | |- context [epochs_from a o m1 tl ?te (S epoch) n ?w1] =>
        destruct (IH m1 (S epoch) w1 Hg1) as (m' & w' & E & Hp & Hd & Hr)
    end.
    exists m', w'. split; [exact E |].
    cbn [drawn trace] in Hd, Hr.
    split; [| split; [exact Hd |]].
    + rewrite Hp, Hp1. cbn [replicate concat]. unfold params_after.
      now rewrite fold_left_app.
    + rewrite Hr, !reconstructed_app, !length_app.
      change (concat (imap (fun i l => loss_log a epoch (0 + i) l) (losses o (params m) tl)))
        with (train_log a epoch (losses o (params m) tl)).
      rewrite reconstructed_train_log by exact Ha. rewrite losses_length.
      rewrite reconstructed_test_log by discriminate. lia.
Qed.

Section Epochs.
Context (field : Z) (tape : nat -> Z).

Lemma share_model_ok (net : Net) ws cp w m w' :
  share_model field tape net ws cp w = (Some m, w') ->
  length (grads m) = length (params m).
Proof.
  unfold share_model. rewrite bind_unfold.
  destruct (for_list net _ w) as [[fs |] w1]; [| discriminate].
  rewrite bind_unfold.
  destruct (for_list fs _ w1) as [[hs |] w2]; [| discriminate].
  intros [= <- <-]. cbn [params grads]. now rewrite !length_map.
Qed.

(** The cells before the training, on datasets of any size. *)
Lemma run_setup (mnist_train mnist_test : list sample) (net : Net) w :
  Forall (fun s => 0 <= snd s < 10)%Z (take n_train_items mnist_train) ->
  exists tl te m0 w1,
    setup field tape mnist_train mnist_test net w = (Some (tl, te, m0), w1)
    /\ reconstructed (trace w1) = reconstructed (trace w)
    /\ length (grads m0) = length (params m0)
    /\ length tl = Nat.min 10 ((length mnist_train + 63) / 64)
    /\ length te = Nat.min 10 ((length mnist_test + 63) / 64)
    /\ examples te = Nat.min n_test_items (length mnist_test).
Proof.
  intros Hd.
  destruct (run_loaders field tape mnist_train mnist_test w Hd)
    as (tl & te & w0 & E0 & (new0 & T0 & F0) & Hl1 & Hl2 & _ & Hx2).
  destruct (emits_share_model field tape workers crypto_provider workers_nonempty net w0)
    as (m0 & w1 & new1 & E1 & T1 & F1 & _).
  exists tl, te, m0, w1. split; [| split; [| split; [| auto]]].
  - unfold setup. rewrite bind_unfold, E0, bind_unfold, E1. reflexivity.
  - rewrite T1, T0, !reconstructed_app.
    rewrite (setup_reconstructs_nothing new0 F0), (setup_reconstructs_nothing new1 F1).
    now rewrite !app_nil_r.
  - exact (share_model_ok _ _ _ _ _ _ E1).
Qed.

(** X15. The accuracy [test] prints is out of the number of batches
    times [test_batch_size], which counts a short last batch as a full
    one: on the private test loader of a test set of L items it is the
    number of examples tested exactly when L is at least 640 or a
    multiple of 64, and larger otherwise. *)
Theorem accuracy_counts_full_batches (mnist_train mnist_test : list sample) w :
  Forall (fun s => 0 <= snd s < 10)%Z (take n_train_items mnist_train) ->
  mnist_test <> [] ->
  exists tl te w',
    get_private_data_loaders field tape (precision_fractional args) workers
      crypto_provider mnist_train mnist_test w = (Some (tl, te), w')
    /\ (forall m w0, exists c,
          test args m te w0
          = (Some tt,
             World (drawn w0)
               (trace w0 ++ [Get c; FloatPrecision c;
                             PrintAccuracy c (length te * test_batch_size args)])))
    /\ examples te = Nat.min n_test_items (length mnist_test)
    /\ examples te <= length te * test_batch_size args
    /\ (examples te = length te * test_batch_size args
        <-> n_test_items <= length mnist_test \/ length mnist_test mod 64 = 0).
Proof.
  intros Hd Hne.
  destruct (run_loaders field tape mnist_train mnist_test w Hd)
    as (tl & te & w' & E & _ & _ & Hl & _ & Hx).
  exists tl, te, w'. split; [exact E |].
  assert (HL : 0 < length mnist_test) by (destruct mnist_test; [congruence | cbn; lia]).
  split.
  { intros m w0. rewrite test_run. destruct te as [| b te'].
    - cbn [length] in Hl.
      assert (1 <= (length mnist_test + 63) / 64) by (apply Nat.div_le_lower_bound; lia).
      lia.
    - eexists. reflexivity. }
  split; [exact Hx |].
  rewrite Hx, Hl. unfold n_test_items. cbn [test_batch_size args].
  pose proof (Nat.div_mod_eq (length mnist_test + 63) 64) as Hdiv.
  pose proof (Nat.mod_upper_bound (length mnist_test + 63) 64 ltac:(lia)) as Hmod.
  pose proof (Nat.div_mod_eq (length mnist_test) 64) as Hdiv'.
  pose proof (Nat.mod_upper_bound (length mnist_test) 64 ltac:(lia)) as Hmod'.
  split; [lia |]. split; intros H; lia.
Qed.

Lemma setup_views (mnist_train mnist_test : list sample) (net : Net) w tl te m0 w1 :
  Forall (fun s => 0 <= snd s < 10)%Z (take n_train_items mnist_train) ->
  Forall (fun s => length (fst s) = 784) mnist_train ->
  Forall (fun s => length (fst s) = 784) mnist_test ->
  setup field tape mnist_train mnist_test net w = (Some (tl, te, m0), w1) ->
  Forall (fun b => views_as_rows (fst b)) (tl ++ te).
Proof.
  intros Hd Hp1 Hp2. unfold setup. rewrite bind_unfold.
  destruct (get_private_data_loaders field tape (precision_fractional args) workers
              crypto_provider mnist_train mnist_test w) as [[[tl' te'] |] w0] eqn:E0;
    [| discriminate].
  rewrite bind_unfold.
  destruct (share_model field tape net workers crypto_provider w0) as [[m |] w2];
    [| discriminate].
  intros [= <- <- _ _].
  exact (loaders_view field tape _ workers crypto_provider workers_nonempty
           mnist_train mnist_test w tl' te' w0 Hd Hp1 Hp2 E0).
Qed.

(** X16. The whole notebook on images of 784 pixels, the first 640
    training labels being digits and the test set not empty: the view
    of [Net.forward] is defined on the input of every private batch, one
    row of 784 per example; the notebook returns; the parameters it
    leaves are those of one gradient step per private training batch,
    ten times over the loader, from the shared parameters; and it
    reconstructs one loss per training batch and one count per epoch,
    ten epochs long: 10 * (min(10, ceil(L / 64)) + 1) values, L the
    size of the training set. *)
Theorem notebook_steps_and_reconstructions
    (mnist_train mnist_test : list sample) (net : Net) w :
  Forall (fun s => 0 <= snd s < 10)%Z (take n_train_items mnist_train) ->
  Forall (fun s => length (fst s) = 784) mnist_train ->
  Forall (fun s => length (fst s) = 784) mnist_test ->
  mnist_test <> [] ->
  exists tl te m0 w1 m w2,
    setup field tape mnist_train mnist_test net w = (Some (tl, te, m0), w1)
    /\ Forall (fun b => views_as_rows (fst b)) (tl ++ te)
    /\ notebook field tape mnist_train mnist_test net w = (Some m, w2)
    /\ params m = params_after (make_optimizer field args) (params m0)
                    (concat (replicate (epochs args) tl))
    /\ length (reconstructed (trace w2))
       = length (reconstructed (trace w))
         + 10 * (Nat.min 10 ((length mnist_train + 63) / 64) + 1).
Proof.
  intros Hd Hp1 Hp2 Hne.
  destruct (run_setup mnist_train mnist_test net w Hd)
    as (tl & te & m0 & w1 & E1 & Hr1 & Hm0 & Hl1 & Hl2 & _).
  assert (Hte : te <> []).
  { intros ->. cbn [length] in Hl2.
    assert (1 <= (length mnist_test + 63) / 64).
    { apply Nat.div_le_lower_bound; [lia |].
      destruct mnist_test; [congruence | cbn [length]; lia]. }
    lia. }
  destruct (epochs_from_run args (make_optimizer field args) tl te (epochs args)
              eq_refl ltac:(discriminate) Hte m0 1 w1 Hm0) as (m & w2 & E2 & Hp & _ & Hr2).
  exists tl, te, m0, w1, m, w2. split; [exact E1 |].
  split; [exact (setup_views _ _ _ _ _ _ _ _ Hd Hp1 Hp2 E1) |]. split.
  { unfold notebook. rewrite bind_unfold, E1. exact E2. }
  split; [exact Hp |]. rewrite Hr2, Hr1, Hl1. reflexivity.
Qed.

(** X17. With an empty test set, on training images of 784 pixels
    with the first 640 labels digits: the private test loader is empty,
    the view of [Net.forward] is defined on the input of every private
    training batch, and the notebook raises in the first call of
    [test], after the whole first epoch of training: one loss per
    training batch has been reconstructed by then, and no accuracy. *)
Theorem notebook_raises_on_empty_test_set (mnist_train : list sample) (net : Net) w :
  Forall (fun s => 0 <= snd s < 10)%Z (take n_train_items mnist_train) ->
  Forall (fun s => length (fst s) = 784) mnist_train ->
  exists tl m0 w1,
    setup field tape mnist_train [] net w = (Some (tl, [], m0), w1)
    /\ Forall (fun b => views_as_rows (fst b)) tl
    /\ raises (notebook field tape mnist_train [] net) w (fun w' =>
         length (reconstructed (trace w'))
         = length (reconstructed (trace w))
           + Nat.min 10 ((length mnist_train + 63) / 64)).
Proof.
  intros Hd Hp1.
  destruct (run_setup mnist_train [] net w Hd)
    as (tl & te & m0 & w1 & E1 & Hr1 & Hm0 & Hl1 & Hl2 & _).
  destruct te as [| b te']; [| cbn in Hl2; lia].
  exists tl, m0, w1. split; [exact E1 |]. split.
  { pose proof (setup_views _ _ _ _ _ _ _ _ Hd Hp1 (List.Forall_nil _) E1) as H.
    now rewrite app_nil_r in H. }
  destruct (train_from_run args (make_optimizer field args) 1 tl m0 0 w1
              ltac:(discriminate) Hm0) as (m1 & E2 & _).
  eexists. split.
  - unfold notebook. rewrite bind_unfold, E1. cbn [epochs_from epochs args].
    rewrite bind_unfold. unfold train. rewrite E2.
    rewrite bind_unfold, test_run. reflexivity.
  - cbn [trace test_log]. rewrite app_nil_r, reconstructed_app, length_app.
    change (concat (imap (fun i l => loss_log args 1 (0 + i) l)
                      (losses (make_optimizer field args) (params m0) tl)))
      with (train_log args 1 (losses (make_optimizer field args) (params m0) tl)).
    rewrite reconstructed_train_log by reflexivity.
    now rewrite losses_length, Hr1, Hl1.
Qed.

End Epochs.

Lemma accuracy_counts_full_batches_witness :
  exists tl te w',
    get_private_data_loaders ring64 counting_tape (precision_fractional args) workers
      crypto_provider hundred_items hundred_items start = (Some (tl, te), w')
    /\ (forall m w0, exists c,
          test args m te w0
          = (Some tt,
             World (drawn w0)
               (trace w0 ++ [Get c; FloatPrecision c;
                             PrintAccuracy c (length te * test_batch_size args)])))
    /\ examples te = Nat.min n_test_items (length hundred_items)
    /\ examples te <= length te * test_batch_size args
    /\ (examples te = length te * test_batch_size args
        <-> n_test_items <= length hundred_items \/ length hundred_items mod 64 = 0).
Proof.
  apply (accuracy_counts_full_batches ring64 counting_tape hundred_items hundred_items
           start hundred_items_digits).
  discriminate.
Defined.

Lemma hundred_images_digits :
  Forall (fun s : sample => 0 <= snd s < 10)%Z (take n_train_items hundred_images).
Proof.
  apply Forall_take, Forall_forall. intros s Hs.
  apply list_elem_of_In, repeat_spec in Hs. subst s. cbn [snd]. lia.
Defined.

Lemma hundred_images_pixels :
  Forall (fun s : sample => length (fst s) = 784) hundred_images.
Proof.
  apply Forall_forall. intros s Hs.
  apply list_elem_of_In, repeat_spec in Hs. subst s. apply repeat_length.
Defined.

Lemma one_seven_pixels : Forall (fun s : sample => length (fst s) = 784) one_seven.
Proof. constructor; [apply repeat_length | constructor]. Defined.

Lemma notebook_steps_and_reconstructions_witness :
  exists tl te m0 w1 m w2,
    setup ring64 counting_tape hundred_images one_seven one_parameter start
      = (Some (tl, te, m0), w1)
    /\ Forall (fun b => views_as_rows (fst b)) (tl ++ te)
    /\ notebook ring64 counting_tape hundred_images one_seven one_parameter start
       = (Some m, w2)
    /\ params m = params_after (make_optimizer ring64 args) (params m0)
                    (concat (replicate (epochs args) tl))
    /\ length (reconstructed (trace w2)) = 30.
Proof.
  apply (notebook_steps_and_reconstructions ring64 counting_tape hundred_images one_seven
           one_parameter start hundred_images_digits hundred_images_pixels
           one_seven_pixels).
  discriminate.
Defined.

Lemma notebook_raises_on_empty_test_set_witness :
  exists tl m0 w1,
    setup ring64 counting_tape hundred_images [] one_parameter start
      = (Some (tl, [], m0), w1)
    /\ Forall (fun b => views_as_rows (fst b)) tl
    /\ raises (notebook ring64 counting_tape hundred_images [] one_parameter) start
         (fun w' =>
            length (reconstructed (trace w')) = 2).
Proof.
  exact (notebook_raises_on_empty_test_set ring64 counting_tape hundred_images
           one_parameter start hundred_images_digits hundred_images_pixels).
Defined.

(** X18. The filter [i < n / b] of the two comprehensions, [/] being
    true division, for [n] and [b] below 2^53, where the double that
    Python computes is above [i] exactly when the quotient is: it raises
    when [b] is zero, and otherwise keeps batch [i] exactly when
    [i * b < n], that is the first ceil(n / b) batches, so that a last
    batch that only starts below [n] is kept whole. *)
Theorem lt_div_keeps_ceil (i n b : nat) :
  (Z.of_nat n < 2 ^ 53)%Z -> (Z.of_nat b < 2 ^ 53)%Z ->
  lt_div i n b = (if b =? 0 then None else Some (i * b <? n))
  /\ lt_div i n b = (if b =? 0 then None else Some (i <? (n + b - 1) / b)).
Proof.
  intros Hn Hb. destruct b as [| b]; [split; apply lt_div_zero |]. cbn [Nat.eqb].
  split; [apply lt_div_mul | apply lt_div_ceil]; solve [lia | assumption].
Qed.

Lemma lt_div_keeps_ceil_witness :
  lt_div 1 100 64 = Some true /\ lt_div 1 100 64 = Some (1 <? (100 + 64 - 1) / 64).
Proof.
  apply (lt_div_keeps_ceil 1 100 64); reflexivity.
Defined.

End EncryptedMore.
